(** * The C# backend of gobind (bind/gencsharp.go) and the reference
      runtime it emits

    The parts of the development:

    - [Sanitizer]: [csIdentifier], the identifier sanitizer, over Go strings
      seen as byte sequences, with the UTF-8 decoding that the regular
      expression engine and [utf8.DecodeRuneInString] perform.
    - [GoTypes]: the part of [go/types] that the generator inspects.
    - [Collector]: [isConsSigSupported], the constructor loop of
      [genStructClass], [collectReturnStructs] and [emitReturnStructs].
    - [Runtime]: the C# class [Seq] that [genSeqSupport] prints, embedded
      as functions over an explicit state: the reference tracker, the queue
      of pending exceptions, the managed and the native heap, and the log
      of the calls that leave the printed code.  What the printed code
      meets but does not contain (the Go side, the classes and delegates of
      the user, the casts and messages of the .NET runtime) enters as
      parameters.
    - [Emit]: the method bodies that [emitPackageFunctions],
      [emitPackageVariables], [genStructClass], [genConstructorFromFunc] and
      [genInterface] print, as lists of statements with one constructor for
      each printed line, and an interpreter that runs them on [Runtime].
    - [Lifecycle] and [Wrappers]: more about proxies, refnums, the queue
      and the printed members.
    - [Names], [NativeClass] and [Bridge]: namespaces and class names, the
      declarations of the native entry points, and the C bridge of the
      callbacks.
    - [DebugWrite] and [Driver]: the debug writer of bind/seq and the
      drivers of [gomobile bind].

    Threads are not modelled: a method of the tracker runs under its lock
    and is one step. *)

From Stdlib Require Import ZArith Ascii String List Bool Lia.
From stdpp Require Import base option list gmap strings sorting.

Open Scope Z_scope.

(* ===================================================================== *)
(** ** Identifier sanitizer *)
(* ===================================================================== *)

Module Sanitizer.

(** A Go string is a sequence of bytes; [byteZ] reads one as a number. *)
Definition byteZ (c : ascii) : Z := Z.of_N (N_of_ascii c).

Definition inRange (lo hi b : Z) : bool := (lo <=? b) && (b <=? hi).

Definition isUpper (b : Z) : bool := inRange 65 90 b.
Definition isLower (b : Z) : bool := inRange 97 122 b.
Definition isDigit (b : Z) : bool := inRange 48 57 b.
Definition underscore : ascii := "_"%char.

(** The complement of the class in [csharpIdentifierRe], [[^A-Za-z0-9_]]. *)
Definition isIdentByte (b : Z) : bool :=
  isUpper b || isLower b || isDigit b || (b =? 95).

Definition nthByte (s : string) (i : nat) : option Z :=
  byteZ <$> String.get i s.

Definition RuneError : Z := 65533.

(** [utf8.DecodeRuneInString] of the Go standard library: the first rune of
    [s] and its width in bytes.  An invalid or truncated encoding decodes to
    [(RuneError, 1)], the empty string to [(RuneError, 0)]. *)
Definition continuation (lo hi : Z) (o : option Z) : option Z :=
  match o with
  | Some b => if inRange lo hi b then Some (Z.land b 63) else None
  | None => None
  end.

Definition decode2 (s0 : Z) (s : string) : Z * nat :=
  match continuation 128 191 (nthByte s 1) with
  | Some c1 => (Z.lor (Z.shiftl (Z.land s0 31) 6) c1, 2%nat)
  | None => (RuneError, 1%nat)
  end.

Definition decode3 (lo hi s0 : Z) (s : string) : Z * nat :=
  match continuation lo hi (nthByte s 1), continuation 128 191 (nthByte s 2) with
  | Some c1, Some c2 =>
      (Z.lor (Z.lor (Z.shiftl (Z.land s0 15) 12) (Z.shiftl c1 6)) c2, 3%nat)
  | _, _ => (RuneError, 1%nat)
  end.

Definition decode4 (lo hi s0 : Z) (s : string) : Z * nat :=
  match continuation lo hi (nthByte s 1), continuation 128 191 (nthByte s 2),
        continuation 128 191 (nthByte s 3) with
  | Some c1, Some c2, Some c3 =>
      (Z.lor (Z.lor (Z.lor (Z.shiftl (Z.land s0 7) 18) (Z.shiftl c1 12))
                    (Z.shiftl c2 6)) c3, 4%nat)
  | _, _, _ => (RuneError, 1%nat)
  end.

Definition DecodeRuneInString (s : string) : Z * nat :=
  match nthByte s 0 with
  | None => (RuneError, 0%nat)
  | Some s0 =>
      if s0 <? 128 then (s0, 1%nat)
      else if inRange 194 223 s0 then decode2 s0 s
      else if s0 =? 224 then decode3 160 191 s0 s
      else if inRange 225 236 s0 || inRange 238 239 s0 then decode3 128 191 s0 s
      else if s0 =? 237 then decode3 128 159 s0 s
      else if s0 =? 240 then decode4 144 191 s0 s
      else if inRange 241 243 s0 then decode4 128 191 s0 s
      else if s0 =? 244 then decode4 128 143 s0 s
      else (RuneError, 1%nat)
  end.

(** [csharpIdentifierRe.ReplaceAllString(name, "_")]: the class matches one
    rune at a time, so every rune outside [[A-Za-z0-9_]] becomes one
    underscore, whatever its width; [skip] counts the bytes of the replaced
    rune that are still to be dropped. *)
Fixpoint replaceRunes (skip : nat) (s : string) : string :=
  match s with
  | EmptyString => EmptyString
  | String c rest =>
      match skip with
      | S k => replaceRunes k rest
      | O =>
          if isIdentByte (byteZ c) then String c (replaceRunes 0 rest)
          else String underscore
                 (replaceRunes (Nat.pred (snd (DecodeRuneInString s))) rest)
      end
  end.

Definition ReplaceAllString (s : string) : string := replaceRunes 0 s.

(** The reserved words handed to [newNameSanitizer] (gencsharp.go). *)
Definition csharpKeywords : list string :=
  [ "abstract"; "as"; "base"; "bool"; "break"; "byte"; "case"; "catch"; "char";
    "checked"; "class"; "const"; "continue"; "decimal"; "default"; "delegate"; "do";
    "double"; "else"; "enum"; "event"; "explicit"; "extern"; "false"; "finally";
    "fixed"; "float"; "for"; "foreach"; "goto"; "if"; "implicit"; "in"; "int";
    "interface"; "internal"; "is"; "lock"; "long"; "namespace"; "new"; "null";
    "object"; "operator"; "out"; "override"; "params"; "private"; "protected";
    "public"; "readonly"; "ref"; "return"; "sbyte"; "sealed"; "short"; "sizeof";
    "stackalloc"; "static"; "string"; "struct"; "switch"; "this"; "throw"; "true";
    "try"; "typeof"; "uint"; "ulong"; "unchecked"; "unsafe"; "ushort"; "using";
    "virtual"; "void"; "volatile"; "while"; "record"; "init"; "when"; "yield"; "add";
    "remove"; "value"; "var"; "dynamic" ].

Definition isKeyword (s : string) : bool :=
  existsb (String.eqb s) csharpKeywords.

(** Modelled from the spec: [newNameSanitizer] is defined in bind/gen.go,
    which is not part of the sources at hand.  The specification says of the
    sanitizer's first step: "If the name matches a reserved managed keyword,
    suffix it deterministically"; the suffix is an underscore. *)
Definition csharpNameReplacer (s : string) : string :=
  if isKeyword s then s +:+ "_" else s.

Section WithUnicode.

(** [unicode.IsLetter] on runes from 128 upward is a table of the Go
    standard library; the sanitizer is verified for any such table. *)
Variable IsLetterHigh : Z -> bool.

Definition IsLetter (r : Z) : bool :=
  if r <? 128 then isUpper r || isLower r else IsLetterHigh r.

(** Lines 144 to 151 of [csIdentifier]: what happens to the name once the
    keyword replacer and the regular expression have run. *)
Definition csIdentifierTail (name : string) : string :=
  match name with
  | EmptyString => "_"
  | _ =>
      let r := fst (DecodeRuneInString name) in
      if negb (r =? 95) && negb (IsLetter r) then "_" +:+ name else name
  end.

Definition csIdentifier (name : string) : string :=
  match name with
  | EmptyString => name
  | _ => csIdentifierTail (ReplaceAllString (csharpNameReplacer name))
  end.

End WithUnicode.

(** A valid managed identifier: not empty, made of letters, digits and
    underscores, and starting with a letter or an underscore. *)
Fixpoint allIdent (s : string) : bool :=
  match s with
  | EmptyString => true
  | String c rest => isIdentByte (byteZ c) && allIdent rest
  end.

Definition startsIdent (s : string) : bool :=
  match s with
  | EmptyString => false
  | String c _ => let b := byteZ c in isUpper b || isLower b || (b =? 95)
  end.

Definition validIdentifier (s : string) : bool := startsIdent s && allIdent s.

(** *** Facts about bytes and runes *)

Fixpoint lowerOnly (s : string) : bool :=
  match s with
  | EmptyString => true
  | String c rest => isLower (byteZ c) && lowerOnly rest
  end.

Lemma identByte_ascii b : isIdentByte b = true -> (b <? 128) = true.
Proof. unfold isIdentByte, isUpper, isLower, isDigit, inRange. lia. Qed.

Lemma lower_identByte b : isLower b = true -> isIdentByte b = true /\ b <> 95.
Proof. unfold isIdentByte, isUpper, isLower, isDigit, inRange. lia. Qed.

Lemma decode_ascii c rest :
  isIdentByte (byteZ c) = true ->
  DecodeRuneInString (String c rest) = (byteZ c, 1%nat).
Proof.
  intros H. unfold DecodeRuneInString, nthByte. simpl.
  now rewrite (identByte_ascii _ H).
Qed.

(** *** The regular expression step *)

Lemma replaceRunes_allIdent s : forall k, allIdent (replaceRunes k s) = true.
Proof.
  induction s as [|c rest IH]; intros k; simpl; [reflexivity|].
  destruct k as [|k]; [|apply IH].
  destruct (isIdentByte (byteZ c)) eqn:E; simpl.
  - now rewrite E, IH.
  - apply IH.
Qed.

Lemma replaceRunes_fixed s : allIdent s = true -> replaceRunes 0 s = s.
Proof.
  induction s as [|c rest IH]; simpl; [reflexivity|].
  intros [Hc Hrest]%andb_prop. rewrite Hc. f_equal. now apply IH.
Qed.

Lemma replaceRunes_lower s :
  lowerOnly (replaceRunes 0 s) = true -> replaceRunes 0 s = s.
Proof.
  induction s as [|c rest IH]; simpl; [reflexivity|].
  destruct (isIdentByte (byteZ c)) eqn:E; simpl.
  - intros [_ Hrest]%andb_prop. f_equal. now apply IH.
  - discriminate.
Qed.

Lemma replaceRunes_nonempty s : s <> EmptyString -> replaceRunes 0 s <> EmptyString.
Proof.
  destruct s as [|c rest]; [congruence|]. intros _. simpl.
  destruct (isIdentByte (byteZ c)); discriminate.
Qed.

(** *** Keywords *)

Lemma keywords_lower : forallb lowerOnly csharpKeywords = true.
Proof. vm_compute. reflexivity. Qed.

Lemma isKeyword_lower s : isKeyword s = true -> lowerOnly s = true.
Proof.
  unfold isKeyword. intros (k & Hin & Heq)%existsb_exists.
  apply String.eqb_eq in Heq. subst k.
  exact (proj1 (forallb_forall _ _) keywords_lower s Hin).
Qed.

Lemma lowerOnly_suffixed s : lowerOnly (s +:+ "_") = false.
Proof.
  induction s as [|c rest IH]; simpl; [reflexivity|].
  rewrite IH. apply andb_false_r.
Qed.

Lemma replacer_not_keyword s : isKeyword (csharpNameReplacer s) = false.
Proof.
  unfold csharpNameReplacer. destruct (isKeyword s) eqn:E; [|exact E].
  destruct (isKeyword (s +:+ "_")) eqn:E'; [|reflexivity].
  apply isKeyword_lower in E'. now rewrite lowerOnly_suffixed in E'.
Qed.

Lemma replacer_nonempty s : s <> EmptyString -> csharpNameReplacer s <> EmptyString.
Proof.
  unfold csharpNameReplacer. destruct s; [congruence|].
  intros _. destruct (isKeyword _); discriminate.
Qed.

Lemma replaced_not_keyword s : isKeyword (ReplaceAllString (csharpNameReplacer s)) = false.
Proof.
  destruct (isKeyword (ReplaceAllString _)) eqn:E; [|reflexivity].
  pose proof (isKeyword_lower _ E) as Hl.
  unfold ReplaceAllString in *. rewrite (replaceRunes_lower _ Hl) in E.
  now rewrite replacer_not_keyword in E.
Qed.

Section Facts.

Variable IsLetterHigh : Z -> bool.
Local Abbreviation csIdentifier := (csIdentifier IsLetterHigh).
Local Abbreviation csIdentifierTail := (csIdentifierTail IsLetterHigh).

Lemma tail_cases r :
  r <> EmptyString -> allIdent r = true ->
  (csIdentifierTail r = r /\ startsIdent r = true) \/
  csIdentifierTail r = "_" +:+ r.
Proof.
  destruct r as [|c rest]; [congruence|]. intros _ [Hc _]%andb_prop.
  unfold csIdentifierTail. rewrite (decode_ascii _ _ Hc). cbn [fst].
  unfold IsLetter. rewrite (identByte_ascii _ Hc).
  destruct (negb (byteZ c =? 95) && negb (isUpper (byteZ c) || isLower (byteZ c))) eqn:E.
  - now right.
  - left. split; [reflexivity|]. simpl.
    destruct (byteZ c =? 95), (isUpper (byteZ c)), (isLower (byteZ c)); simpl in *; congruence.
Qed.

Lemma csIdentifier_valid n :
  n <> EmptyString ->
  validIdentifier (csIdentifier n) = true /\ isKeyword (csIdentifier n) = false.
Proof.
  intros Hn. unfold Sanitizer.csIdentifier. destruct n as [|c0 n0]; [congruence|].
  set (m := csharpNameReplacer (String c0 n0)).
  assert (Hm : m <> EmptyString) by now apply replacer_nonempty.
  pose proof (replaceRunes_nonempty _ Hm) as Hr.
  pose proof (replaceRunes_allIdent m 0) as Ha.
  pose proof (replaced_not_keyword (String c0 n0)) as Hk. fold m in Hk.
  unfold ReplaceAllString in *.
  destruct (tail_cases _ Hr Ha) as [[-> Hs] | ->].
  - split; [|exact Hk]. unfold validIdentifier. now rewrite Hs, Ha.
  - split.
    + unfold validIdentifier. simpl. exact Ha.
    + destruct (isKeyword ("_" +:+ replaceRunes 0 m)) eqn:E; [|reflexivity].
      apply isKeyword_lower in E. simpl in E. discriminate.
Qed.

Lemma csIdentifier_fixed v :
  validIdentifier v = true -> isKeyword v = false -> csIdentifier v = v.
Proof.
  unfold validIdentifier. intros [Hs Ha]%andb_prop Hk.
  destruct v as [|c rest]; [discriminate|].
  unfold Sanitizer.csIdentifier, csharpNameReplacer. rewrite Hk.
  unfold ReplaceAllString. rewrite (replaceRunes_fixed _ Ha).
  destruct (tail_cases (String c rest)) as [[H _] | H]; [congruence|exact Ha|exact H|].
  exfalso. revert H. unfold Sanitizer.csIdentifierTail.
  pose proof Ha as [Hc _]%andb_prop. rewrite (decode_ascii _ _ Hc). cbn [fst].
  unfold IsLetter. rewrite (identByte_ascii _ Hc). simpl in Hs.
  destruct (byteZ c =? 95), (isUpper (byteZ c)), (isLower (byteZ c)); simpl in *;
    try discriminate; intros H; apply (f_equal String.length) in H; simpl in H; lia.
Qed.

(** C3 (as the code has it).  The sanitized form of every non-empty name is
    a valid managed identifier and no reserved word; the empty name is
    returned as it is; the tail of the function turns an empty intermediate
    result into ["_"]; and sanitizing twice is sanitizing once, for every
    name, the empty one included. *)
Theorem csIdentifier_sanitizes (n : string) :
  csIdentifier (csIdentifier n) = csIdentifier n /\
  csIdentifier "" = "" /\
  csIdentifierTail "" = "_" /\
  (n <> "" ->
   validIdentifier (csIdentifier n) = true /\ isKeyword (csIdentifier n) = false).
Proof.
  split; [|split; [reflexivity|split; [reflexivity|apply csIdentifier_valid]]].
  destruct (string_dec n "") as [->|Hn]; [reflexivity|].
  destruct (csIdentifier_valid n Hn) as [Hv Hk].
  now apply csIdentifier_fixed.
Qed.

End Facts.

(** The sanitizer at work on a reserved word. *)
Lemma csIdentifier_sanitizes_witness :
  validIdentifier (csIdentifier (fun _ => false) "class") = true /\
  isKeyword (csIdentifier (fun _ => false) "class") = false.
Proof.
  destruct (csIdentifier_sanitizes (fun _ => false) "class") as (_ & _ & _ & H).
  apply H. discriminate.
Defined.

(** C3 as stated fails at the empty name: line 139 returns it unchanged,
    and the empty string is no identifier. *)
Lemma csIdentifier_empty_invalid :
  csIdentifier (fun _ => false) "" = "" /\
  validIdentifier (csIdentifier (fun _ => false) "") = false.
Proof. split; reflexivity. Qed.

Example csIdentifier_keyword : csIdentifier (fun _ => false) "in" = "in_".
Proof. reflexivity. Qed.

Example csIdentifier_digit_first : csIdentifier (fun _ => false) "9a-b.c" = "_9a_b_c".
Proof. reflexivity. Qed.

End Sanitizer.

(* ===================================================================== *)
(** ** The part of go/types the generator inspects *)
(* ===================================================================== *)

Module GoTypes.

(** [types.BasicKind]. *)
Inductive BasicKind :=
  | KInvalid | KBool | KInt | KInt8 | KInt16 | KInt32 | KInt64
  | KUint | KUint8 | KUint16 | KUint32 | KUint64 | KUintptr
  | KFloat32 | KFloat64 | KComplex64 | KComplex128 | KString | KUnsafePointer
  | KUntypedBool | KUntypedInt | KUntypedRune | KUntypedFloat
  | KUntypedComplex | KUntypedString | KUntypedNil.

(** What [Underlying()] of a named type can be, as far as the generator
    looks: a struct, an interface (with the [implementable] flag of its
    summary), or anything else. *)
Inductive Underlying :=
  | UStruct
  | UInterface (implementable : bool)
  | UOther.

(** [types.Type]: the cases the type switches of the generator tell apart.
    A named type carries its object: the package path ([None] for the
    universe) and the name. *)
Inductive GoType :=
  | Basic (k : BasicKind)
  | Slice (elem : GoType)
  | Pointer (elem : GoType)
  | Named (pkg : option string) (name : string) (under : Underlying)
  | Unsupported.

(** [*types.Var] of a tuple, [*types.Signature], [*types.Func]. *)
Record Var := { vname : string; vtype : GoType }.
Record Signature := { Params : list Var; Results : list GoType }.
Record Func := { Name : string; Sig : Signature }.

Global Instance BasicKind_eq_dec : EqDecision BasicKind.
Proof. solve_decision. Defined.
Global Instance Underlying_eq_dec : EqDecision Underlying.
Proof. solve_decision. Defined.
Global Instance GoType_eq_dec : EqDecision GoType.
Proof. solve_decision. Defined.
Global Instance Var_eq_dec : EqDecision Var.
Proof. solve_decision. Defined.
Global Instance Signature_eq_dec : EqDecision Signature.
Proof. solve_decision. Defined.
Global Instance Func_eq_dec : EqDecision Func.
Proof. solve_decision. Defined.

(** Modelled from the spec: [isErrorType] lives in bind/gen.go, which is not
    part of the sources at hand.  The specification calls the type "the
    special unexported named [error] (package-less)". *)
Definition isErrorType (t : GoType) : bool :=
  match t with
  | Named None "error" _ => true
  | _ => false
  end.

(** The universe's [error]: an interface with the one method [Error]. *)
Definition errorType : GoType := Named None "error" (UInterface true).

Definition isRefnumType (t : GoType) : bool :=
  match t with
  | Pointer (Named _ _ _) => true
  | Pointer _ => false
  | Named _ _ (UInterface _) | Named _ _ UStruct => true
  | _ => false
  end.

(** [csNativeType]: the wire type, as C# text.  The calls of [g.errorf] on
    the unsupported cases add to the generator's error list and are left
    out; the text returned is the same. *)
Definition csNativeType (t : GoType) : string :=
  match t with
  | Basic k =>
      match k with
      | KBool | KUntypedBool => "byte"
      | KInt => "long"
      | KInt8 => "sbyte"
      | KInt16 => "short"
      | KInt32 | KUntypedRune => "int"
      | KInt64 | KUntypedInt => "long"
      | KUint8 => "byte"
      | KFloat32 => "float"
      | KFloat64 | KUntypedFloat => "double"
      | KString | KUntypedString => "NString"
      | _ => "int"
      end
  | Slice (Basic KUint8) => "NByteslice"
  | Slice _ => "int"
  | Pointer _ => "int"
  | Named _ _ _ => "int"
  | Unsupported => "int"
  end.

(** Modelled from the spec: [isSupported] and [isSigSupported] belong to the
    [Generator] of bind/gen.go, which is not part of the sources at hand.
    "Supported type: one of: basic scalars (bool, signed integer widths,
    uint8, float32/64, untyped counterparts), string, byte slice, pointer to
    named, named type whose underlying is struct or interface."  The
    theorems below hold for any [isSigSupported]; this one instantiates
    them. *)
Definition isSupported (t : GoType) : bool :=
  match t with
  | Basic k =>
      match k with
      | KBool | KUntypedBool | KInt | KInt8 | KUint8 | KInt16 | KInt32
      | KUntypedRune | KInt64 | KUntypedInt | KFloat32 | KFloat64
      | KUntypedFloat | KString | KUntypedString => true
      | _ => false
      end
  | Slice (Basic KUint8) => true
  | Pointer (Named _ _ _) => true
  | Named _ _ UStruct | Named _ _ (UInterface _) => true
  | _ => false
  end.

Definition isSigSupported (sig : Signature) : bool :=
  forallb (fun v => isSupported (vtype v)) (Params sig) &&
  forallb isSupported (Results sig).

End GoTypes.

(* ===================================================================== *)
(** ** Constructors and return shapes *)
(* ===================================================================== *)

Module Collector.
Import GoTypes.

(** [structInfo] and [interfaceInfo] of the generator.  [smethods] stands for
    [exportedMethodSet(types.NewPointer(s.obj.Type()))], [callable] for
    [iface.summary.callable]. *)
Record structInfo := { sobj : string; smethods : list Func }.
Record interfaceInfo := { iobj : string; callable : list Func }.

(** The fields of [Generator] that the C# backend reads. *)
Record Generator := {
  pkgPrefix : string;
  funcs : list Func;
  structs : list structInfo;
  interfaces : list interfaceInfo
}.

Definition proxyFuncName (g : Generator) (objName funcName : string) : string :=
  "proxy" +:+ pkgPrefix g +:+ "_" +:+ objName +:+ "_" +:+ funcName.

Definition cproxyName (g : Generator) (ifaceName methodName : string) : string :=
  "cproxy" +:+ pkgPrefix g +:+ "_" +:+ ifaceName +:+ "_" +:+ methodName.

(** *** Constructors *)

Section Constructors.

(** [g.isSigSupported] and [g.constructorType] are methods of the
    [Generator] of bind/gen.go; the backend is verified for any such pair.
    [constructorType f] is the struct that [f] constructs, if any. *)
Variable isSigSupported : Signature -> bool.
Variable constructorType : Func -> option string.

Definition isConsSigSupported (sig : Signature) : bool :=
  if negb (isSigSupported sig) then false
  else
    match Params sig with
    | [p] =>
        match vtype p with
        | Basic KInt32 | Basic KUint32 => false
        | _ => true
        end
    | _ => true
    end.

(** The loop of [genStructClass] over [g.funcs] (lines 885 to 897): the
    constructors kept, in order, and [hasDefaultConstructor]. *)
Fixpoint collectConstructors (fs : list Func) (s : string) : list Func * bool :=
  match fs with
  | [] => ([], false)
  | f :: rest =>
      let '(cs, hasDefault) := collectConstructors rest s in
      match constructorType f with
      | Some t =>
          if String.eqb t s then
            if negb (isConsSigSupported (Sig f)) then (cs, hasDefault)
            else (f :: cs,
                  (Nat.eqb (length (Params (Sig f))) 0) || hasDefault)
          else (cs, hasDefault)
      | None => (cs, hasDefault)
      end
  end.

(** The constructors that [genStructClass] prints for a struct, in the order
    printed: the internal one that takes a refnum, the default one that
    calls [new_<pkg>_<struct>] ([newName], empty when [g.Pkg] is nil), and
    one public constructor for each function kept. *)
Inductive Constructor :=
  | RefnumConstructor
  | DefaultConstructor (newName : string)
  | PublicConstructor (f : Func).

Definition structConstructors (g : Generator) (newName : string) (s : structInfo)
  : list Constructor :=
  let '(cs, hasDefault) := collectConstructors (funcs g) (sobj s) in
  RefnumConstructor ::
  (if negb hasDefault && negb (String.eqb newName "")
   then [DefaultConstructor newName] else []) ++
  (PublicConstructor <$> cs).

(** A signature whose only parameter is an [int32] or a [uint32]. *)
Definition clashesWithRefnum (sig : Signature) : Prop :=
  exists p, Params sig = [p] /\ (vtype p = Basic KInt32 \/ vtype p = Basic KUint32).

End Constructors.

(** *** Return shapes *)

(** [collectStruct], the closure of [collectReturnStructs]. *)
Definition collectStruct (returnStructs : gmap string (list GoType))
    (cName : string) (res : list GoType) : gmap string (list GoType) :=
  if (length res <=? 1)%nat then returnStructs
  else
    match returnStructs !! cName with
    | Some _ => returnStructs
    | None => <[cName := res]> returnStructs
    end.

Definition collectFuncs (g : Generator) (m : gmap string (list GoType)) :=
  foldl (fun m f => collectStruct m (proxyFuncName g "" (Name f)) (Results (Sig f)))
        m (funcs g).

Definition collectStructs (g : Generator) (m : gmap string (list GoType)) :=
  foldl (fun m s =>
           foldl (fun m f =>
                    collectStruct m (proxyFuncName g (sobj s) (Name f)) (Results (Sig f)))
                 m (smethods s))
        m (structs g).

Definition collectInterfaces (g : Generator) (m : gmap string (list GoType)) :=
  foldl (fun m i =>
           foldl (fun m f =>
                    collectStruct
                      (collectStruct m (proxyFuncName g (iobj i) (Name f)) (Results (Sig f)))
                      (cproxyName g (iobj i) (Name f)) (Results (Sig f)))
                 m (callable i))
        m (interfaces g).

Definition collectReturnStructs (g : Generator) : gmap string (list GoType) :=
  collectInterfaces g (collectStructs g (collectFuncs g ∅)).

(** [sort.Strings] of the Go standard library orders strings byte by byte;
    it is modelled by a merge sort on that order. *)
Definition str_le (a b : string) : Prop := String.leb a b = true.

Global Instance str_le_dec : RelDecision str_le.
Proof. intros a b. unfold str_le. apply _. Defined.

Definition sortStrings (l : list string) : list string := merge_sort str_le l.

(** One printed field, [public <ftype> r<findex>;], and one printed record. *)
Record Field := { ftype : string; findex : nat }.
Record ReturnStruct := { cName : string; structName : string; fields : list Field }.

Section Emit.

Variable IsLetterHigh : Z -> bool.

Definition csReturnStructName (cName : string) : string :=
  Sanitizer.csIdentifier IsLetterHigh ("CProxy_" +:+ cName +:+ "_Return").

(** [emitReturnStructs].  Go ranges over the map in an order of its own
    choosing; [structNames] is the list of keys in that order. *)
Definition emitReturnStructsFrom (structNames : list string)
    (returnStructs : gmap string (list GoType)) : list ReturnStruct :=
  (fun name =>
     {| cName := name;
        structName := csReturnStructName name;
        fields := imap (fun i field => {| ftype := csNativeType field; findex := i |})
                       (default [] (returnStructs !! name)) |})
  <$> sortStrings structNames.

Definition emitReturnStructs (returnStructs : gmap string (list GoType)) :=
  emitReturnStructsFrom (elements (dom returnStructs)) returnStructs.

End Emit.

(** *** The constructor loop *)

Section ConstructorFacts.

Variable isSigSupported : Signature -> bool.
Variable constructorType : Func -> option string.
Local Abbreviation isConsSigSupported := (isConsSigSupported isSigSupported).
Local Abbreviation collectConstructors :=
  (collectConstructors isSigSupported constructorType).
Local Abbreviation structConstructors :=
  (structConstructors isSigSupported constructorType).

Lemma isConsSigSupported_spec sig :
  isConsSigSupported sig = true <->
  isSigSupported sig = true /\ ~ clashesWithRefnum sig.
Proof.
  unfold Collector.isConsSigSupported, clashesWithRefnum.
  destruct (isSigSupported sig); simpl; [|split; [discriminate|intros [? _]; discriminate]].
  destruct (Params sig) as [|p [|q rest]] eqn:E.
  - split; [intros _; split; [reflexivity|intros (? & ? & _); discriminate]|reflexivity].
  - destruct (vtype p) as [[]| | | |] eqn:Ep;
      (split;
       [ first [ discriminate
               | intros _; split; [reflexivity|];
                 intros (p' & [= <-] & [H|H]); rewrite Ep in H; discriminate ]
       | first [ reflexivity
               | intros [_ H]; exfalso; apply H; exists p; split; auto ] ]).
  - split; [intros _; split; [reflexivity|intros (? & ? & _); discriminate]|reflexivity].
Qed.

Lemma collectConstructors_spec fs s f :
  f ∈ (collectConstructors fs s).1 <->
  f ∈ fs /\ constructorType f = Some s /\ isConsSigSupported (Sig f) = true.
Proof.
  induction fs as [|f0 rest IH]; simpl.
  - rewrite elem_of_nil. tauto.
  - destruct (Collector.collectConstructors _ _ rest s) as [cs hd] eqn:E.
    simpl in IH. rewrite elem_of_cons.
    assert (Hskip : (constructorType f0 <> Some s \/ isConsSigSupported (Sig f0) = false) ->
                    (f ∈ cs <->
                     (f = f0 \/ f ∈ rest) /\ constructorType f = Some s /\
                     isConsSigSupported (Sig f) = true)).
    { intros Hno. rewrite IH. split; [tauto|].
      intros ([->|Hin] & Hc & Hs); [|tauto]. destruct Hno; congruence. }
    destruct (constructorType f0) as [t|] eqn:Et; [|apply Hskip; left; discriminate].
    destruct (String.eqb_spec t s) as [->|Hne];
      [|simpl; apply Hskip; left; congruence].
    destruct (isConsSigSupported (Sig f0)) eqn:Es; simpl; [|apply Hskip; now right].
    rewrite elem_of_cons, IH. split.
    + intros [->|H]; [|tauto]. tauto.
    + intros ([->|Hin] & Hc & Hs); [now left|right; tauto].
Qed.

Lemma structConstructors_public g newName s f :
  PublicConstructor f ∈ structConstructors g newName s <->
  f ∈ (collectConstructors (funcs g) (sobj s)).1.
Proof.
  unfold Collector.structConstructors.
  destruct (Collector.collectConstructors _ _ (funcs g) (sobj s)) as [cs hd]. simpl.
  rewrite elem_of_cons, elem_of_app, list_elem_of_fmap. split.
  - intros [H|[H|(f' & [= ->] & H)]]; [discriminate| |exact H].
    destruct (negb hd && negb (String.eqb newName ""));
      [apply list_elem_of_singleton in H; discriminate|apply elem_of_nil in H; contradiction].
  - intros H. right. right. now exists f.
Qed.

(** C7.  Of the functions that construct a struct, the one whose only
    parameter is an [int32] or a [uint32] gets no public constructor; every
    other one whose signature the generator supports gets one. *)
Theorem constructor_clash_exclusion g newName s f :
  f ∈ funcs g -> constructorType f = Some (sobj s) ->
  (clashesWithRefnum (Sig f) ->
   PublicConstructor f ∉ structConstructors g newName s) /\
  (isSigSupported (Sig f) = true -> ~ clashesWithRefnum (Sig f) ->
   PublicConstructor f ∈ structConstructors g newName s).
Proof.
  intros Hin Hc. rewrite structConstructors_public, collectConstructors_spec.
  rewrite isConsSigSupported_spec. tauto.
Qed.

End ConstructorFacts.

(** Scenario S6: [NewFoo(int32) *Foo] and [NewFooWide(int64) *Foo]. *)
Definition Foo : GoType := Named (Some "example/pkg") "Foo" UStruct.
Definition NewFoo : Func :=
  {| Name := "NewFoo";
     Sig := {| Params := [ {| vname := "n"; vtype := Basic KInt32 |} ];
               Results := [Pointer Foo] |} |}.
Definition NewFooWide : Func :=
  {| Name := "NewFooWide";
     Sig := {| Params := [ {| vname := "n"; vtype := Basic KInt64 |} ];
               Results := [Pointer Foo] |} |}.
Definition fooPackage : Generator :=
  {| pkgPrefix := "pkg"; funcs := [NewFoo; NewFooWide];
     structs := [ {| sobj := "Foo"; smethods := [] |} ]; interfaces := [] |}.

(** Modelled from the spec: [constructorType] belongs to bind/gen.go.  The
    specification calls a constructor function a top-level function whose
    result is a pointer to [T], optionally with an error after it, [T]
    itself being allowed before the error. *)
Definition constructorTypeOf (f : Func) : option string :=
  match Results (Sig f) with
  | [Pointer (Named _ n _)] => Some n
  | [Pointer (Named _ n _); e] | [Named _ n UStruct; e] =>
      if isErrorType e then Some n else None
  | _ => None
  end.

Lemma constructor_clash_exclusion_witness :
  (PublicConstructor NewFoo ∉
     structConstructors isSigSupported constructorTypeOf fooPackage "new_pkg_Foo"
       {| sobj := "Foo"; smethods := [] |}) /\
  (PublicConstructor NewFooWide ∈
     structConstructors isSigSupported constructorTypeOf fooPackage "new_pkg_Foo"
       {| sobj := "Foo"; smethods := [] |}).
Proof.
  split.
  - apply (constructor_clash_exclusion isSigSupported constructorTypeOf fooPackage
             "new_pkg_Foo" {| sobj := "Foo"; smethods := [] |} NewFoo).
    + apply list_elem_of_here.
    + reflexivity.
    + exists {| vname := "n"; vtype := Basic KInt32 |}. split; [reflexivity|now left].
  - apply (constructor_clash_exclusion isSigSupported constructorTypeOf fooPackage
             "new_pkg_Foo" {| sobj := "Foo"; smethods := [] |} NewFooWide).
    + apply list_elem_of_further, list_elem_of_here.
    + reflexivity.
    + reflexivity.
    + intros (p & [= <-] & [H|H]); discriminate.
Defined.

Example fooPackage_constructors :
  structConstructors isSigSupported constructorTypeOf fooPackage "new_pkg_Foo"
    {| sobj := "Foo"; smethods := [] |}
  = [RefnumConstructor; DefaultConstructor "new_pkg_Foo"; PublicConstructor NewFooWide].
Proof. reflexivity. Qed.

(** *** The return-shape collector *)

(** Every call of [collectStruct] that [collectReturnStructs] makes, in the
    order made: the canonical C name and the result types. *)
Definition registrations (g : Generator) : list (string * list GoType) :=
  ((fun f => (proxyFuncName g "" (Name f), Results (Sig f))) <$> funcs g) ++
  (s ← structs g;
   (fun f => (proxyFuncName g (sobj s) (Name f), Results (Sig f))) <$> smethods s) ++
  (i ← interfaces g; f ← callable i;
   [ (proxyFuncName g (iobj i) (Name f), Results (Sig f));
     (cproxyName g (iobj i) (Name f), Results (Sig f)) ]).

(** The first registration under [name] that has more than one result. *)
Fixpoint firstShape (name : string) (rs : list (string * list GoType))
  : option (list GoType) :=
  match rs with
  | [] => None
  | (n, res) :: rest =>
      if String.eqb n name && (1 <? length res)%nat then Some res
      else firstShape name rest
  end.

Definition collectAll (m : gmap string (list GoType)) (rs : list (string * list GoType)) :=
  foldl (fun m r => collectStruct m r.1 r.2) m rs.

Lemma collectAll_app m rs1 rs2 :
  collectAll m (rs1 ++ rs2) = collectAll (collectAll m rs1) rs2.
Proof. apply foldl_app. Qed.

Lemma collectFuncs_all g m :
  collectFuncs g m =
  collectAll m ((fun f => (proxyFuncName g "" (Name f), Results (Sig f))) <$> funcs g).
Proof.
  unfold collectFuncs, collectAll. revert m.
  induction (funcs g) as [|f fs IH]; intros m; simpl; [reflexivity|apply IH].
Qed.

Lemma collectStructs_all g m :
  collectStructs g m =
  collectAll m (s ← structs g;
                (fun f => (proxyFuncName g (sobj s) (Name f), Results (Sig f))) <$> smethods s).
Proof.
  unfold collectStructs. revert m.
  induction (structs g) as [|s ss IH]; intros m; simpl; [reflexivity|].
  rewrite collectAll_app, IH. f_equal.
  generalize m. induction (smethods s) as [|f fs IHf]; intros m'; simpl; [reflexivity|apply IHf].
Qed.

Lemma collectInterfaces_all g m :
  collectInterfaces g m =
  collectAll m (i ← interfaces g; f ← callable i;
                [ (proxyFuncName g (iobj i) (Name f), Results (Sig f));
                  (cproxyName g (iobj i) (Name f), Results (Sig f)) ]).
Proof.
  unfold collectInterfaces. revert m.
  induction (interfaces g) as [|i rest IH]; intros m; simpl; [reflexivity|].
  rewrite collectAll_app, IH. f_equal.
  generalize m. induction (callable i) as [|f fs IHf]; intros m'; simpl; [reflexivity|apply IHf].
Qed.

Lemma collectReturnStructs_all g :
  collectReturnStructs g = collectAll ∅ (registrations g).
Proof.
  unfold collectReturnStructs, registrations.
  now rewrite collectInterfaces_all, collectStructs_all, collectFuncs_all, !collectAll_app.
Qed.

Lemma collectAll_lookup rs : forall m name,
  collectAll m rs !! name =
  match m !! name with Some res => Some res | None => firstShape name rs end.
Proof.
  induction rs as [|[n res] rest IH]; intros m name; simpl.
  - now destruct (m !! name).
  - rewrite IH. unfold collectStruct. simpl.
    destruct (Nat.leb_spec (length res) 1) as [Hle|Hgt].
    + replace (1 <? length res)%nat with false by (symmetry; apply Nat.ltb_ge; lia).
      now rewrite andb_false_r.
    + replace (1 <? length res)%nat with true by (symmetry; apply Nat.ltb_lt; lia).
      rewrite andb_true_r. destruct (String.eqb_spec n name) as [->|Hne].
      * destruct (m !! name) eqn:E; [now rewrite E|]. now rewrite lookup_insert_eq.
      * destruct (m !! n) eqn:E; [reflexivity|]. now rewrite lookup_insert_ne.
Qed.

Lemma firstShape_Some name rs res :
  firstShape name rs = Some res -> (1 < length res)%nat /\ (name, res) ∈ rs.
Proof.
  induction rs as [|[n r] rest IH]; simpl; [discriminate|].
  destruct (String.eqb_spec n name) as [->|Hne]; simpl.
  - destruct (Nat.ltb_spec 1 (length r)).
    + intros [= ->]. split; [assumption|apply list_elem_of_here].
    + intros H'. destruct (IH H'). split; [assumption|now apply list_elem_of_further].
  - intros H'. destruct (IH H'). split; [assumption|now apply list_elem_of_further].
Qed.

(** *** The order of the printed records *)

Global Instance str_le_trans : Transitive str_le.
Proof.
  unfold str_le, String.leb. intros a.
  induction a as [|x a IH]; intros [|y b] [|z c]; simpl; try congruence.
  unfold Ascii.compare in *.
  destruct (N.compare_spec (N_of_ascii x) (N_of_ascii y)) as [E1|E1|E1];
  destruct (N.compare_spec (N_of_ascii y) (N_of_ascii z)) as [E2|E2|E2];
  try congruence.
  - rewrite E1, E2, N.compare_refl. apply IH.
  - intros _ _. rewrite E1. now rewrite (proj2 (N.compare_lt_iff _ _) E2).
  - intros _ _. rewrite <- E2. now rewrite (proj2 (N.compare_lt_iff _ _) E1).
  - intros _ _. now rewrite (proj2 (N.compare_lt_iff _ _) (N.lt_trans _ _ _ E1 E2)).
Qed.

Global Instance str_le_antisym : AntiSymm (=) str_le.
Proof. intros a b. apply String.leb_antisym. Qed.

Global Instance str_le_total : Total str_le.
Proof. intros a b. apply String.leb_total. Qed.

Lemma sortStrings_order (l1 l2 : list string) :
  l1 ≡ₚ l2 -> sortStrings l1 = sortStrings l2.
Proof.
  intros H. unfold sortStrings. apply (Sorted_unique str_le).
  - apply (Sorted_merge_sort str_le).
  - apply (Sorted_merge_sort str_le).
  - now rewrite !merge_sort_Permutation.
Qed.

Section EmitFacts.

Variable IsLetterHigh : Z -> bool.
Local Abbreviation emitReturnStructsFrom := (emitReturnStructsFrom IsLetterHigh).

Lemma emitted_names order m :
  cName <$> emitReturnStructsFrom order m = sortStrings order.
Proof.
  unfold Collector.emitReturnStructsFrom. rewrite <- list_fmap_compose.
  induction (sortStrings order) as [|n ns IH]; simpl; [reflexivity|now f_equal].
Qed.

(** C8.  A record is collected under a canonical name exactly for the first
    callable registered under that name with more than one result, and holds
    that callable's result types; whatever order Go ranges over the map in,
    the records are printed once each, sorted by canonical name, and field
    [i] of a record has the wire type of result [i]. *)
Theorem return_shape_collection (g : Generator) :
  let m := collectReturnStructs g in
  (forall name, m !! name = firstShape name (registrations g)) /\
  (forall name res, m !! name = Some res ->
     (1 < length res)%nat /\ (name, res) ∈ registrations g) /\
  (forall order, order ≡ₚ elements (dom m) ->
     let out := emitReturnStructsFrom order m in
     (cName <$> out) = sortStrings (elements (dom m)) /\
     Sorted str_le (cName <$> out) /\
     NoDup (cName <$> out) /\
     (forall name, name ∈ (cName <$> out) <-> is_Some (m !! name)) /\
     (forall r, r ∈ out ->
        exists res, m !! cName r = Some res /\
          forall i, fields r !! i =
                    (fun t => {| ftype := csNativeType t; findex := i |}) <$> res !! i)).
Proof.
  intros m.
  assert (Hm : forall name, m !! name = firstShape name (registrations g)).
  { intros name. unfold m. rewrite collectReturnStructs_all, collectAll_lookup.
    now rewrite lookup_empty. }
  split; [exact Hm|]. split.
  { intros name res H. rewrite Hm in H. now apply firstShape_Some. }
  intros order Hperm out.
  assert (Hnames : cName <$> out = sortStrings (elements (dom m))).
  { unfold out. rewrite emitted_names. now apply sortStrings_order. }
  assert (Hp : (cName <$> out) ≡ₚ elements (dom m)).
  { rewrite Hnames. apply merge_sort_Permutation. }
  split; [exact Hnames|]. split.
  { rewrite Hnames. apply (Sorted_merge_sort str_le). }
  split.
  { rewrite Hp. apply NoDup_elements. }
  split.
  { intros name. rewrite Hp, elem_of_elements. apply elem_of_dom. }
  intros r Hr.
  assert (Hin : cName r ∈ (cName <$> out)) by now apply list_elem_of_fmap_2.
  rewrite Hp, elem_of_elements, elem_of_dom in Hin. destruct Hin as [res Hres].
  exists res. split; [exact Hres|]. intros i.
  unfold out, Collector.emitReturnStructsFrom in Hr.
  apply list_elem_of_fmap in Hr as (name & -> & _). simpl in *.
  rewrite Hres. simpl. now rewrite list_lookup_imap.
Qed.

End EmitFacts.

(** Two methods of an interface [Store], one with the shape [(string, error)]
    and one with the shape [(error)]. *)
Definition storePackage : Generator :=
  {| pkgPrefix := "kv"; funcs := []; structs := [];
     interfaces :=
       [ {| iobj := "Store";
            callable :=
              [ {| Name := "Get";
                   Sig := {| Params := [ {| vname := "key"; vtype := Basic KString |} ];
                             Results := [Basic KString; errorType] |} |};
                {| Name := "Close";
                   Sig := {| Params := []; Results := [errorType] |} |} ] |} ] |}.

Example storePackage_records :
  emitReturnStructs (fun _ => false) (collectReturnStructs storePackage) =
  [ {| cName := "cproxykv_Store_Get"; structName := "CProxy_cproxykv_Store_Get_Return";
       fields := [ {| ftype := "NString"; findex := 0 |}; {| ftype := "int"; findex := 1 |} ] |};
    {| cName := "proxykv_Store_Get"; structName := "CProxy_proxykv_Store_Get_Return";
       fields := [ {| ftype := "NString"; findex := 0 |}; {| ftype := "int"; findex := 1 |} ] |} ].
Proof. vm_compute. reflexivity. Qed.

Lemma return_shape_collection_witness :
  cName <$> emitReturnStructsFrom (fun _ => false)
              ["proxykv_Store_Get"; "cproxykv_Store_Get"]
              (collectReturnStructs storePackage)
  = sortStrings (elements (dom (collectReturnStructs storePackage))).
Proof.
  destruct (return_shape_collection (fun _ => false) storePackage) as (_ & _ & H).
  apply (H ["proxykv_Store_Get"; "cproxykv_Store_Get"]).
  vm_compute. apply Permutation_swap.
Defined.

End Collector.

(* ===================================================================== *)
(** ** The reference runtime printed by [genSeqSupport] *)
(* ===================================================================== *)

Module Runtime.

(** C# [int] is a signed 32-bit integer; arithmetic wraps around. *)
Definition int_MaxValue : Z := 2147483647.
Definition int_MinValue : Z := -2147483648.
Definition wrap32 (z : Z) : Z := (z + 2147483648) mod 4294967296 - 2147483648.

Definition NullRefNum : Z := 41.
Definition RefOffset : Z := 42.

(** A managed [object] reference: [null] or the address of an object.
    Reference equality is equality of addresses. *)
Inductive Object :=
  | Null
  | Obj (a : positive).

Global Instance Object_eq_dec : EqDecision Object.
Proof. solve_decision. Defined.

(** The exceptions the emitted code throws or passes on.
    [PendingCallbackException m ex] is the [InvalidOperationException] of
    [ThrowIfPendingException], whose inner exception is [ex];
    [GoException error message] is the exception that [new
    GoException(error)] builds, with the message its constructor hands to
    [base]; [InvalidCastException] is what a failed cast throws;
    [UserException] is any other exception, raised by user code or by the
    .NET runtime, under a name. *)
Inductive Exception :=
  | InvalidOperationException (message : string)
  | PendingCallbackException (method : string) (ex : Exception)
  | ObjectDisposedException
  | InvalidCastException
  | GoException (error : Object) (message : string)
  | UserException (name : string).

(** How a call ends: with a value, with an exception, or with the process
    terminated by [Environment.FailFast]. *)
Inductive Result (A : Type) :=
  | Ok (a : A)
  | Throw (e : Exception)
  | FailFast.
Arguments Ok {A} a.
Arguments Throw {A} e.
Arguments FailFast {A}.

(** *** [RefTracker] and [Ref] *)

Record Ref := { Value : positive; Count : Z }.

Record RefTracker := {
  nextRefnum : Z;
  refs : gmap Z Ref;
  objectRefs : gmap positive Z
}.

(** [new RefTracker()]. *)
Definition newTracker : RefTracker :=
  {| nextRefnum := RefOffset; refs := ∅; objectRefs := ∅ |}.

(** [Ref.Inc] and [Ref.Dec]. *)
Definition Ref_Inc (entry : Ref) : Result Ref :=
  if Count entry =? int_MaxValue
  then Throw (InvalidOperationException "Ref: refcount overflow")
  else Ok {| Value := Value entry; Count := Count entry + 1 |}.

Definition Ref_Dec (entry : Ref) : Ref :=
  {| Value := Value entry; Count := wrap32 (Count entry - 1) |}.

(** [RefTracker.Inc].  A [Result] comes with the tracker as the call left
    it; the [lock] makes each method one step. *)
Definition Tracker_Inc (t : RefTracker) (value : Object) : Result Z * RefTracker :=
  match value with
  | Null => (Ok NullRefNum, t)
  | Obj v =>
      let lookup :=
        match objectRefs t !! v with
        | Some refnum => Ok (refnum, t)
        | None =>
            if nextRefnum t =? int_MaxValue
            then Throw (InvalidOperationException "RefTracker: refnum overflow")
            else Ok (nextRefnum t,
                     {| nextRefnum := nextRefnum t + 1;
                        refs := refs t;
                        objectRefs := <[v := nextRefnum t]> (objectRefs t) |})
        end in
      match lookup with
      | Ok (refnum, t1) =>
          let '(entry, t2) :=
            match refs t1 !! refnum with
            | Some entry => (entry, t1)
            | None =>
                let entry := {| Value := v; Count := 0 |} in
                (entry, {| nextRefnum := nextRefnum t1;
                           refs := <[refnum := entry]> (refs t1);
                           objectRefs := objectRefs t1 |})
            end in
          match Ref_Inc entry with
          | Ok entry' =>
              (Ok refnum, {| nextRefnum := nextRefnum t2;
                             refs := <[refnum := entry']> (refs t2);
                             objectRefs := objectRefs t2 |})
          | Throw e => (Throw e, t2)
          | FailFast => (FailFast, t2)
          end
      | Throw e => (Throw e, t)
      | FailFast => (FailFast, t)
      end
  end.

(** [RefTracker.IncRefnum]. *)
Definition Tracker_IncRefnum (t : RefTracker) (refnum : Z) : Result unit * RefTracker :=
  if (refnum <=? 0) || (refnum =? NullRefNum) then (Ok tt, t)
  else
    match refs t !! refnum with
    | None => (Throw (InvalidOperationException "unknown reference"), t)
    | Some entry =>
        match Ref_Inc entry with
        | Ok entry' =>
            (Ok tt, {| nextRefnum := nextRefnum t;
                       refs := <[refnum := entry']> (refs t);
                       objectRefs := objectRefs t |})
        | Throw e => (Throw e, t)
        | FailFast => (FailFast, t)
        end
    end.

(** [RefTracker.DecRefnum]. *)
Definition Tracker_DecRefnum (t : RefTracker) (refnum : Z) : Result unit * RefTracker :=
  if (refnum <=? 0) || (refnum =? NullRefNum) then (Ok tt, t)
  else
    match refs t !! refnum with
    | None => (Ok tt, t)
    | Some entry =>
        let entry' := Ref_Dec entry in
        if Count entry' <=? 0
        then (Ok tt, {| nextRefnum := nextRefnum t;
                        refs := delete refnum (refs t);
                        objectRefs := delete (Value entry') (objectRefs t) |})
        else (Ok tt, {| nextRefnum := nextRefnum t;
                        refs := <[refnum := entry']> (refs t);
                        objectRefs := objectRefs t |})
    end.

(** [RefTracker.GetRef]. *)
Definition Tracker_GetRef (t : RefTracker) (refnum : Z) : Result Object :=
  if refnum =? NullRefNum then Ok Null
  else
    match refs t !! refnum with
    | None => Throw (InvalidOperationException "unknown reference")
    | Some entry => Ok (Obj (Value entry))
    end.

(** *** Schedules of tracker calls *)

(** One call from outside: [Seq.IncRef] of an ordinary object reaches
    [Tracker.Inc]; the Go side reaches [IncRefnum] and [DecRefnum] through
    the two registered callbacks. *)
Inductive Op :=
  | OpInc (value : Object)
  | OpIncRefnum (refnum : Z)
  | OpDecRefnum (refnum : Z).

Inductive Outcome :=
  | Returned (refnum : Z)
  | Done
  | Threw (e : Exception)
  | Died.

Definition step (t : RefTracker) (op : Op) : Outcome * RefTracker :=
  match op with
  | OpInc value =>
      match Tracker_Inc t value with
      | (Ok r, t') => (Returned r, t')
      | (Throw e, t') => (Threw e, t')
      | (FailFast, t') => (Died, t')
      end
  | OpIncRefnum r =>
      match Tracker_IncRefnum t r with
      | (Ok _, t') => (Done, t')
      | (Throw e, t') => (Threw e, t')
      | (FailFast, t') => (Died, t')
      end
  | OpDecRefnum r =>
      match Tracker_DecRefnum t r with
      | (Ok _, t') => (Done, t')
      | (Throw e, t') => (Threw e, t')
      | (FailFast, t') => (Died, t')
      end
  end.

(** Running a schedule: every call with how it ended, and the tracker at the
    end.  A call that throws leaves the tracker to the calls after it. *)
Fixpoint run (t : RefTracker) (ops : list Op) : list (Op * Outcome) * RefTracker :=
  match ops with
  | [] => ([], t)
  | op :: rest =>
      let '(out, t') := step t op in
      let '(tr, t'') := run t' rest in
      ((op, out) :: tr, t'')
  end.

(** What one completed call adds to the count of refnum [r]: an [Inc] that
    returned [r] and an [IncRefnum r] that returned add one, a
    [DecRefnum r] takes one away, a call that threw changes nothing. *)
Definition delta (r : Z) (c : Op * Outcome) : Z :=
  match c with
  | (OpInc _, Returned r') => if r' =? r then 1 else 0
  | (OpIncRefnum r', Done) => if r' =? r then 1 else 0
  | (OpDecRefnum r', Done) => if r' =? r then -1 else 0
  | _ => 0
  end.

(** Increments minus decrements of [r] over a trace. *)
Definition net (tr : list (Op * Outcome)) (r : Z) : Z :=
  foldr (fun c acc => delta r c + acc) 0 tr.

(** A decrement answers an increment: [DecRefnum r] is only issued for a
    refnum that an earlier [Inc] of the schedule has handed out, or for one
    that the tracker passes over (zero, negative, the sentinel). *)
Definition released (handed : list Z) (r : Z) : bool :=
  (r <=? 0) || (r =? NullRefNum) || bool_decide (r ∈ handed).

Fixpoint decsFollowIncs (handed : list Z) (tr : list (Op * Outcome)) : bool :=
  match tr with
  | [] => true
  | (OpDecRefnum r, _) :: rest =>
      released handed r && decsFollowIncs handed rest
  | (OpInc _, Returned r) :: rest => decsFollowIncs (r :: handed) rest
  | _ :: rest => decsFollowIncs handed rest
  end.

(** *** The invariant of the tracker *)

(** [handed] lists the refnums handed out so far and [n] counts, for every
    refnum, the increments minus the decrements so far. *)
Record tracker_inv (t : RefTracker) (handed : list Z) (n : Z -> Z) : Prop := {
  inv_next : RefOffset <= nextRefnum t <= int_MaxValue;
  inv_refs : forall r e, refs t !! r = Some e ->
    RefOffset <= r < nextRefnum t /\ 1 <= Count e <= int_MaxValue /\
    Count e = n r /\ objectRefs t !! Value e = Some r;
  inv_objs : forall x r, objectRefs t !! x = Some r ->
    exists e, refs t !! r = Some e /\ Value e = x;
  inv_handed : forall r, r ∈ handed -> r < nextRefnum t;
  inv_fresh : forall r, nextRefnum t <= r -> n r = 0
}.

Definition handedAfter (handed : list Z) (c : Op * Outcome) : list Z :=
  match c with
  | (OpInc _, Returned r) => r :: handed
  | _ => handed
  end.

Lemma wrap32_small z : int_MinValue <= z <= int_MaxValue -> wrap32 z = z.
Proof.
  unfold wrap32, int_MinValue, int_MaxValue. intros H.
  rewrite Z.mod_small; lia.
Qed.

Lemma tracker_inv_new : tracker_inv newTracker [] (fun _ => 0).
Proof.
  constructor; simpl.
  - unfold RefOffset, int_MaxValue. lia.
  - intros r e H. now rewrite lookup_empty in H.
  - intros x r H. now rewrite lookup_empty in H.
  - intros r H. now apply elem_of_nil in H.
  - reflexivity.
Qed.

Lemma tracker_inv_ext t handed n n' :
  (forall r, n r = n' r) -> tracker_inv t handed n -> tracker_inv t handed n'.
Proof.
  intros E [H1 H2 H3 H4 H5]. constructor; auto.
  - intros r e H. destruct (H2 r e H) as (? & ? & ? & ?). rewrite <- E. auto.
  - intros r H. rewrite <- E. auto.
Qed.

Lemma step_inc_inv t handed n value out t' :
  tracker_inv t handed n ->
  step t (OpInc value) = (out, t') ->
  tracker_inv t' (handedAfter handed (OpInc value, out))
              (fun r => n r + delta r (OpInc value, out)).
Proof.
  intros [H1 H2 H3 H4 H5]. unfold step, Tracker_Inc.
  destruct value as [|v].
  { intros [= <- <-]. constructor; cbn -[Z.eqb]; auto.
    - intros r e H. destruct (H2 r e H) as (Hr & ? & ? & ?).
      repeat split; try tauto. unfold NullRefNum, RefOffset in *.
      destruct (Z.eqb_spec 41 r); lia.
    - intros r [->|H]%elem_of_cons; [unfold NullRefNum, RefOffset in *; lia|auto].
    - intros r H. rewrite (H5 r H). unfold NullRefNum, RefOffset in *.
      destruct (Z.eqb_spec 41 r); lia. }
  destruct (objectRefs t !! v) as [r0|] eqn:Ho.
  - destruct (H3 _ _ Ho) as (e & He & Hv). rewrite He.
    destruct (H2 _ _ He) as (Hr & Hc & Hn & _).
    unfold Ref_Inc. destruct (Z.eqb_spec (Count e) int_MaxValue) as [Hmax|Hmax].
    + intros [= <- <-]. apply (tracker_inv_ext _ _ n); [intros; cbn -[Z.eqb]; lia|].
      now constructor.
    + intros [= <- <-]. constructor; cbn -[Z.eqb]; auto.
      * intros r e' H. destruct (decide (r = r0)) as [->|Hne].
        -- rewrite lookup_insert_eq in H. injection H as <-. cbn -[Z.eqb].
           rewrite Z.eqb_refl. rewrite Hv. repeat split; try lia. exact Ho.
        -- rewrite lookup_insert_ne in H by congruence.
           destruct (H2 r e' H) as (? & ? & ? & ?).
           destruct (Z.eqb_spec r0 r); [congruence|]. repeat split; try lia. assumption.
      * intros x r H. destruct (H3 x r H) as (e' & He' & Hv').
        destruct (decide (r = r0)) as [->|Hne].
        -- rewrite lookup_insert_eq. eexists. split; [reflexivity|]. simpl. congruence.
        -- rewrite lookup_insert_ne by congruence. eauto.
      * intros r [->|H]%elem_of_cons; [lia|auto].
      * intros r H. rewrite (H5 r H). destruct (Z.eqb_spec r0 r); lia.
  - destruct (Z.eqb_spec (nextRefnum t) int_MaxValue) as [Hmax|Hmax].
    + intros [= <- <-]. apply (tracker_inv_ext _ _ n); [intros; cbn -[Z.eqb]; lia|].
      now constructor.
    + simpl.
      assert (Hnone : refs t !! nextRefnum t = None).
      { destruct (refs t !! nextRefnum t) as [e|] eqn:E; [|reflexivity].
        destruct (H2 _ _ E). lia. }
      rewrite Hnone. simpl. intros [= <- <-]. constructor; cbn -[Z.eqb].
      * lia.
      * intros r e H. rewrite insert_insert_eq in H.
        destruct (decide (r = nextRefnum t)) as [->|Hne].
        -- rewrite lookup_insert_eq in H. injection H as <-. cbn -[Z.eqb].
           rewrite Z.eqb_refl, lookup_insert_eq, (H5 (nextRefnum t)) by lia.
           unfold int_MaxValue. repeat split; lia.
        -- rewrite lookup_insert_ne in H by congruence.
           destruct (H2 r e H) as (? & ? & ? & Hobj).
           destruct (Z.eqb_spec (nextRefnum t) r); [congruence|].
           repeat split; try lia.
           rewrite lookup_insert_ne; [assumption|]. intros ->. congruence.
      * intros x r H. rewrite insert_insert_eq.
        destruct (decide (x = v)) as [->|Hne].
        -- rewrite lookup_insert_eq in H. injection H as <-.
           rewrite lookup_insert_eq. eexists. split; reflexivity.
        -- rewrite lookup_insert_ne in H by congruence.
           destruct (H3 x r H) as (e & He & Hv). exists e. split; [|assumption].
           rewrite lookup_insert_ne; [assumption|]. intros <-. congruence.
      * intros r [->|H]%elem_of_cons; [lia|]. specialize (H4 r H). lia.
      * intros r H. rewrite (H5 r) by lia.
        destruct (Z.eqb_spec (nextRefnum t) r); lia.
Qed.

Lemma step_incRefnum_inv t handed n r0 out t' :
  tracker_inv t handed n ->
  step t (OpIncRefnum r0) = (out, t') ->
  tracker_inv t' handed (fun r => n r + delta r (OpIncRefnum r0, out)).
Proof.
  intros [H1 H2 H3 H4 H5]. unfold step, Tracker_IncRefnum.
  destruct ((r0 <=? 0) || (r0 =? NullRefNum)) eqn:Hg.
  { intros [= <- <-]. constructor; cbn -[Z.eqb]; auto.
    - intros r e H. destruct (H2 r e H) as (Hr & ? & ? & ?).
      repeat split; try tauto. unfold NullRefNum, RefOffset in *.
      destruct (Z.eqb_spec r0 r); lia.
    - intros r H. rewrite (H5 r H). unfold NullRefNum, RefOffset in *.
      destruct (Z.eqb_spec r0 r); lia. }
  destruct (refs t !! r0) as [e|] eqn:He.
  - destruct (H2 _ _ He) as (Hr & Hc & Hn & Hobj).
    unfold Ref_Inc. destruct (Z.eqb_spec (Count e) int_MaxValue) as [Hmax|Hmax].
    + intros [= <- <-]. apply (tracker_inv_ext _ _ n); [intros; cbn -[Z.eqb]; lia|].
      now constructor.
    + intros [= <- <-]. constructor; cbn -[Z.eqb]; auto.
      * intros r e' H. destruct (decide (r = r0)) as [->|Hne].
        -- rewrite lookup_insert_eq in H. injection H as <-. cbn -[Z.eqb].
           rewrite Z.eqb_refl. repeat split; try lia. exact Hobj.
        -- rewrite lookup_insert_ne in H by congruence.
           destruct (H2 r e' H) as (? & ? & ? & ?).
           destruct (Z.eqb_spec r0 r); [congruence|]. repeat split; try lia. assumption.
      * intros x r H. destruct (H3 x r H) as (e' & He' & Hv').
        destruct (decide (r = r0)) as [->|Hne].
        -- rewrite lookup_insert_eq. eexists. split; [reflexivity|]. simpl. congruence.
        -- rewrite lookup_insert_ne by congruence. eauto.
      * intros r H. rewrite (H5 r H). destruct (Z.eqb_spec r0 r); lia.
  - intros [= <- <-]. apply (tracker_inv_ext _ _ n); [intros; cbn -[Z.eqb]; lia|].
    now constructor.
Qed.

Lemma step_decRefnum_inv t handed n r0 out t' :
  tracker_inv t handed n ->
  released handed r0 = true ->
  step t (OpDecRefnum r0) = (out, t') ->
  tracker_inv t' handed (fun r => n r + delta r (OpDecRefnum r0, out)).
Proof.
  intros [H1 H2 H3 H4 H5] Hin. unfold step, Tracker_DecRefnum.
  assert (Hlt : r0 < nextRefnum t).
  { unfold released in Hin.
    apply orb_prop in Hin as [[Hin|Hin]%orb_prop|Hin].
    - unfold RefOffset in *. lia.
    - unfold RefOffset, NullRefNum in *. lia.
    - apply bool_decide_eq_true in Hin. auto. }
  destruct ((r0 <=? 0) || (r0 =? NullRefNum)) eqn:Hg.
  { intros [= <- <-]. constructor; cbn -[Z.eqb]; auto.
    - intros r e H. destruct (H2 r e H) as (Hr & ? & ? & ?).
      repeat split; try tauto. unfold NullRefNum, RefOffset in *.
      destruct (Z.eqb_spec r0 r); lia.
    - intros r H. rewrite (H5 r H). destruct (Z.eqb_spec r0 r); lia. }
  destruct (refs t !! r0) as [e|] eqn:He.
  - destruct (H2 _ _ He) as (Hr & Hc & Hn & Hobj).
    unfold Ref_Dec. simpl.
    rewrite wrap32_small by (unfold int_MinValue, int_MaxValue in *; lia).
    destruct (Z.leb_spec (Count e - 1) 0) as [Hz|Hz].
    + intros [= <- <-]. constructor; cbn -[Z.eqb]; auto.
      * intros r e' H. apply lookup_delete_Some in H as [Hne H].
        destruct (H2 r e' H) as (? & ? & ? & Hobj').
        destruct (Z.eqb_spec r0 r); [congruence|]. repeat split; try lia.
        rewrite lookup_delete_ne; [assumption|]. intros E. congruence.
      * intros x r H. apply lookup_delete_Some in H as [Hne H].
        destruct (H3 x r H) as (e' & He' & Hv'). exists e'. split; [|assumption].
        rewrite lookup_delete_ne; [assumption|]. intros <-. congruence.
      * intros r H. rewrite (H5 r H). destruct (Z.eqb_spec r0 r); lia.
    + intros [= <- <-]. constructor; cbn -[Z.eqb]; auto.
      * intros r e' H. destruct (decide (r = r0)) as [->|Hne].
        -- rewrite lookup_insert_eq in H. injection H as <-. cbn -[Z.eqb].
           rewrite Z.eqb_refl. repeat split; try lia. exact Hobj.
        -- rewrite lookup_insert_ne in H by congruence.
           destruct (H2 r e' H) as (? & ? & ? & ?).
           destruct (Z.eqb_spec r0 r); [congruence|]. repeat split; try lia. assumption.
      * intros x r H. destruct (H3 x r H) as (e' & He' & Hv').
        destruct (decide (r = r0)) as [->|Hne].
        -- rewrite lookup_insert_eq. eexists. split; [reflexivity|]. simpl. congruence.
        -- rewrite lookup_insert_ne by congruence. eauto.
      * intros r H. rewrite (H5 r H). destruct (Z.eqb_spec r0 r); lia.
  - intros [= <- <-]. constructor; cbn -[Z.eqb]; auto.
    + intros r e H. destruct (H2 r e H) as (? & ? & ? & ?).
      destruct (Z.eqb_spec r0 r); [congruence|]. repeat split; try lia. assumption.
    + intros r H. rewrite (H5 r H). destruct (Z.eqb_spec r0 r); lia.
Qed.

Lemma step_inv t handed n op out t' :
  tracker_inv t handed n ->
  (forall r, op = OpDecRefnum r -> released handed r = true) ->
  step t op = (out, t') ->
  tracker_inv t' (handedAfter handed (op, out)) (fun r => n r + delta r (op, out)).
Proof.
  intros Hinv Hdec Hstep. destruct op as [value|r0|r0].
  - now apply step_inc_inv with (t := t).
  - now apply step_incRefnum_inv with (t := t).
  - apply step_decRefnum_inv with (t := t); auto.
Qed.

Lemma decsFollowIncs_cons handed op out tr :
  decsFollowIncs handed ((op, out) :: tr) = true ->
  (forall r, op = OpDecRefnum r -> released handed r = true) /\
  decsFollowIncs (handedAfter handed (op, out)) tr = true.
Proof.
  destruct op as [value|r0|r0]; simpl.
  - destruct out; intros H; (split; [discriminate|exact H]).
  - intros H; (split; [discriminate|exact H]).
  - intros [Hin H]%andb_prop. split; [|exact H].
    now intros r [= <-].
Qed.

Lemma run_inv ops : forall t handed n,
  tracker_inv t handed n ->
  decsFollowIncs handed (run t ops).1 = true ->
  exists handed', tracker_inv (run t ops).2 handed' (fun r => n r + net (run t ops).1 r).
Proof.
  induction ops as [|op rest IH]; intros t handed n Hinv Hwf; simpl in *.
  - exists handed. apply (tracker_inv_ext _ _ n); [intros; lia|assumption].
  - destruct (step t op) as [out t1] eqn:Hstep.
    destruct (run t1 rest) as [tr t2] eqn:Hrun. simpl in *.
    apply decsFollowIncs_cons in Hwf as [Hdec Hwf].
    pose proof (step_inv _ _ _ _ _ _ Hinv Hdec Hstep) as Hinv1.
    specialize (IH t1 _ _ Hinv1). rewrite Hrun in IH. simpl in IH.
    destruct (IH Hwf) as [handed' Hinv2]. exists handed'.
    eapply tracker_inv_ext; [|exact Hinv2].
    intros r. cbn -[Z.eqb]. lia.
Qed.

(** *** Counts under any schedule *)

(** The count that the tracker holds for a refnum: that of its entry, zero
    when there is none. *)
Definition countOf (t : RefTracker) (r : Z) : Z :=
  match refs t !! r with
  | Some e => Count e
  | None => 0
  end.

(** What one completed call makes of the count [n] of the refnum [r]: an
    [Inc] of an object that returned [r] and an [IncRefnum r] that returned
    add one; a [DecRefnum r] takes one away when there is one to take. *)
Definition liveAfter (r : Z) (n : Z) (c : Op * Outcome) : Z :=
  match c with
  | (OpInc (Obj _), Returned r') => if r' =? r then n + 1 else n
  | (OpIncRefnum r', Done) => if r' =? r then n + 1 else n
  | (OpDecRefnum r', Done) => if r' =? r then Z.max 0 (n - 1) else n
  | _ => n
  end.

Definition live (tr : list (Op * Outcome)) (r : Z) : Z :=
  foldl (liveAfter r) 0 tr.

Record tracker_live (t : RefTracker) (n : Z -> Z) : Prop := {
  live_next : RefOffset <= nextRefnum t <= int_MaxValue;
  live_refs : forall r e, refs t !! r = Some e ->
    RefOffset <= r < nextRefnum t /\ 1 <= Count e <= int_MaxValue /\
    objectRefs t !! Value e = Some r;
  live_objs : forall x r, objectRefs t !! x = Some r ->
    exists e, refs t !! r = Some e /\ Value e = x;
  live_count : forall r, RefOffset <= r -> countOf t r = n r
}.

Lemma tracker_live_new : tracker_live newTracker (fun _ => 0).
Proof.
  constructor; simpl.
  - unfold RefOffset, int_MaxValue. lia.
  - intros r e H. now rewrite lookup_empty in H.
  - intros x r H. now rewrite lookup_empty in H.
  - intros r _. unfold countOf. simpl. now rewrite lookup_empty.
Qed.

Lemma tracker_live_ext t n n' :
  (forall r, n r = n' r) -> tracker_live t n -> tracker_live t n'.
Proof.
  intros E [H1 H2 H3 H4]. constructor; auto.
  intros r Hr. rewrite <- E. auto.
Qed.

Lemma countOf_insert t r r0 e next objs :
  countOf {| nextRefnum := next; refs := <[r0 := e]> (refs t); objectRefs := objs |} r =
  if r0 =? r then Count e else countOf t r.
Proof.
  unfold countOf. simpl. destruct (Z.eqb_spec r0 r) as [->|Hne].
  - now rewrite lookup_insert_eq.
  - now rewrite lookup_insert_ne.
Qed.

Lemma countOf_delete t r r0 next objs :
  countOf {| nextRefnum := next; refs := delete r0 (refs t); objectRefs := objs |} r =
  if r0 =? r then 0 else countOf t r.
Proof.
  unfold countOf. simpl. destruct (Z.eqb_spec r0 r) as [->|Hne].
  - now rewrite lookup_delete_eq.
  - now rewrite lookup_delete_ne.
Qed.

Lemma step_live t n op out t' :
  tracker_live t n ->
  step t op = (out, t') ->
  tracker_live t' (fun r => liveAfter r (n r) (op, out)).
Proof.
  intros Hlive. pose proof Hlive as [H1 H2 H3 H4].
  assert (Hsame : forall op' out',
            (forall r, RefOffset <= r -> liveAfter r (n r) (op', out') = n r) ->
            tracker_live t (fun r => liveAfter r (n r) (op', out'))).
  { intros op' out' E. constructor; auto. intros r Hr. rewrite E by assumption. auto. }
  unfold step. destruct op as [value|r0|r0].
  - unfold Tracker_Inc. destruct value as [|v].
    { intros [= <- <-]. apply Hsame. reflexivity. }
    destruct (objectRefs t !! v) as [r0|] eqn:Ho.
    + destruct (H3 _ _ Ho) as (e & He & Hv). rewrite He.
      destruct (H2 _ _ He) as (Hr & Hc & Hobj).
      unfold Ref_Inc. destruct (Z.eqb_spec (Count e) int_MaxValue) as [Hmax|Hmax].
      { intros [= <- <-]. apply Hsame. reflexivity. }
      intros [= <- <-]. constructor; cbn -[Z.eqb countOf]; auto.
      * intros r e' H. destruct (decide (r = r0)) as [->|Hne].
        -- rewrite lookup_insert_eq in H. injection H as <-. simpl.
           repeat split; try lia. now rewrite Hv.
        -- rewrite lookup_insert_ne in H by congruence. auto.
      * intros x r H. destruct (H3 x r H) as (e' & He' & Hv').
        destruct (decide (r = r0)) as [->|Hne].
        -- rewrite lookup_insert_eq. eexists. split; [reflexivity|]. simpl. congruence.
        -- rewrite lookup_insert_ne by congruence. eauto.
      * intros r Hr'. rewrite countOf_insert. cbn [Count].
        destruct (Z.eqb_spec r0 r) as [<-|Hne]; [|auto].
        rewrite <- (H4 r0) by lia. unfold countOf. now rewrite He.
    + destruct (Z.eqb_spec (nextRefnum t) int_MaxValue) as [Hmax|Hmax].
      { intros [= <- <-]. apply Hsame. reflexivity. }
      simpl.
      assert (Hnone : refs t !! nextRefnum t = None).
      { destruct (refs t !! nextRefnum t) as [e|] eqn:E; [|reflexivity].
        destruct (H2 _ _ E). lia. }
      rewrite Hnone. simpl. intros [= <- <-]. constructor; cbn -[Z.eqb countOf].
      * lia.
      * intros r e H. rewrite insert_insert_eq in H.
        destruct (decide (r = nextRefnum t)) as [->|Hne].
        -- rewrite lookup_insert_eq in H. injection H as <-. simpl.
           rewrite lookup_insert_eq. unfold int_MaxValue. repeat split; lia.
        -- rewrite lookup_insert_ne in H by congruence.
           destruct (H2 r e H) as (? & ? & Hobj).
           repeat split; try lia.
           rewrite lookup_insert_ne; [assumption|]. intros ->. congruence.
      * intros x r H. rewrite insert_insert_eq.
        destruct (decide (x = v)) as [->|Hne].
        -- rewrite lookup_insert_eq in H. injection H as <-.
           rewrite lookup_insert_eq. eexists. split; reflexivity.
        -- rewrite lookup_insert_ne in H by congruence.
           destruct (H3 x r H) as (e & He & Hv). exists e. split; [|assumption].
           rewrite lookup_insert_ne; [assumption|]. intros <-. congruence.
      * intros r Hr'. rewrite insert_insert_eq.
        rewrite (countOf_insert t r (nextRefnum t)). cbn [Count].
        destruct (Z.eqb_spec (nextRefnum t) r) as [<-|Hne]; [|auto].
        rewrite <- (H4 (nextRefnum t)) by lia. unfold countOf. now rewrite Hnone.
  - unfold Tracker_IncRefnum.
    destruct ((r0 <=? 0) || (r0 =? NullRefNum)) eqn:Hg.
    { intros [= <- <-]. apply Hsame. intros r Hr. cbn -[Z.eqb].
      destruct (Z.eqb_spec r0 r); [|reflexivity].
      unfold RefOffset, NullRefNum in *. lia. }
    destruct (refs t !! r0) as [e|] eqn:He;
      [|intros [= <- <-]; apply Hsame; reflexivity].
    destruct (H2 _ _ He) as (Hr & Hc & Hobj).
    unfold Ref_Inc. destruct (Z.eqb_spec (Count e) int_MaxValue) as [Hmax|Hmax].
    { intros [= <- <-]. apply Hsame. reflexivity. }
    intros [= <- <-]. constructor; cbn -[Z.eqb countOf]; auto.
    + intros r e' H. destruct (decide (r = r0)) as [->|Hne].
      * rewrite lookup_insert_eq in H. injection H as <-. simpl.
        repeat split; try lia; auto.
      * rewrite lookup_insert_ne in H by congruence. auto.
    + intros x r H. destruct (H3 x r H) as (e' & He' & Hv').
      destruct (decide (r = r0)) as [->|Hne].
      * rewrite lookup_insert_eq. eexists. split; [reflexivity|]. simpl. congruence.
      * rewrite lookup_insert_ne by congruence. eauto.
    + intros r Hr'. rewrite countOf_insert. cbn [Count].
      destruct (Z.eqb_spec r0 r) as [<-|Hne]; [|auto].
      rewrite <- (H4 r0) by lia. unfold countOf. now rewrite He.
  - unfold Tracker_DecRefnum.
    destruct ((r0 <=? 0) || (r0 =? NullRefNum)) eqn:Hg.
    { intros [= <- <-]. apply Hsame. intros r Hr. cbn -[Z.eqb Z.max].
      destruct (Z.eqb_spec r0 r); [|reflexivity].
      unfold RefOffset, NullRefNum in *. lia. }
    destruct (refs t !! r0) as [e|] eqn:He.
    2: { intros [= <- <-]. apply Hsame. intros r Hr. cbn -[Z.eqb Z.max].
         destruct (Z.eqb_spec r0 r) as [<-|]; [|reflexivity].
         rewrite <- (H4 r0) by assumption. unfold countOf. rewrite He. reflexivity. }
    destruct (H2 _ _ He) as (Hr & Hc & Hobj).
    unfold Ref_Dec. simpl.
    rewrite wrap32_small by (unfold int_MinValue, int_MaxValue in *; lia).
    destruct (Z.leb_spec (Count e - 1) 0) as [Hz|Hz].
    + intros [= <- <-]. constructor; cbn -[Z.eqb Z.max countOf]; auto.
      * intros r e' H. apply lookup_delete_Some in H as [Hne H].
        destruct (H2 r e' H) as (? & ? & Hobj'). repeat split; auto; try lia.
        rewrite lookup_delete_ne; [assumption|]. intros E. congruence.
      * intros x r H. apply lookup_delete_Some in H as [Hne H].
        destruct (H3 x r H) as (e' & He' & Hv'). exists e'. split; [|assumption].
        rewrite lookup_delete_ne; [assumption|]. intros <-. congruence.
      * intros r Hr'. rewrite countOf_delete.
        destruct (Z.eqb_spec r0 r) as [<-|Hne]; [|auto].
        rewrite <- (H4 r0) by lia. unfold countOf. rewrite He. lia.
    + intros [= <- <-]. constructor; cbn -[Z.eqb Z.max countOf]; auto.
      * intros r e' H. destruct (decide (r = r0)) as [->|Hne].
        -- rewrite lookup_insert_eq in H. injection H as <-. simpl.
           repeat split; try lia; auto.
        -- rewrite lookup_insert_ne in H by congruence. auto.
      * intros x r H. destruct (H3 x r H) as (e' & He' & Hv').
        destruct (decide (r = r0)) as [->|Hne].
        -- rewrite lookup_insert_eq. eexists. split; [reflexivity|]. simpl. congruence.
        -- rewrite lookup_insert_ne by congruence. eauto.
      * intros r Hr'. rewrite countOf_insert. cbn [Count].
        destruct (Z.eqb_spec r0 r) as [<-|Hne]; [|auto].
        rewrite <- (H4 r0) by lia. unfold countOf. rewrite He. lia.
Qed.

Lemma run_live ops : forall t n,
  tracker_live t n ->
  tracker_live (run t ops).2 (fun r => foldl (liveAfter r) (n r) (run t ops).1).
Proof.
  induction ops as [|op rest IH]; intros t n Hlive; simpl.
  - assumption.
  - destruct (step t op) as [out t1] eqn:Hstep.
    specialize (IH t1 _ (step_live _ _ _ _ _ Hlive Hstep)).
    destruct (run t1 rest) as [tr t2]. exact IH.
Qed.

Lemma reachable_live ops :
  tracker_live (run newTracker ops).2 (live (run newTracker ops).1).
Proof. exact (run_live ops _ _ tracker_live_new). Qed.

(** What an [Inc] that returns leaves behind, on a tracker in order. *)
Lemma tracker_live_Inc t n x r t' :
  tracker_live t n -> Tracker_Inc t (Obj x) = (Ok r, t') ->
  RefOffset <= r /\ r <> NullRefNum /\
  refs t' !! r = Some {| Value := x; Count := countOf t r + 1 |} /\
  objectRefs t' !! x = Some r.
Proof.
  intros [H1 H2 H3 H4]. unfold Tracker_Inc.
  destruct (objectRefs t !! x) as [r0|] eqn:Ho.
  - destruct (H3 _ _ Ho) as (e & He & Hv). rewrite He.
    destruct (H2 _ _ He) as (Hr & Hc & Hobj).
    unfold Ref_Inc. destruct (Z.eqb_spec (Count e) int_MaxValue); [discriminate|].
    intros [= <- <-]. simpl. rewrite lookup_insert_eq. unfold countOf. rewrite He, Hv.
    repeat split; try assumption; unfold RefOffset, NullRefNum in *; lia.
  - destruct (Z.eqb_spec (nextRefnum t) int_MaxValue); [discriminate|].
    assert (Hnone : refs t !! nextRefnum t = None).
    { destruct (refs t !! nextRefnum t) as [e|] eqn:E; [|reflexivity].
      destruct (H2 _ _ E). lia. }
    simpl. rewrite Hnone. simpl. intros [= <- <-]. simpl.
    rewrite !lookup_insert_eq. unfold countOf. rewrite Hnone.
    repeat split; unfold RefOffset, NullRefNum in *; lia.
Qed.

(** [Inc] returns as long as neither the refnums nor the count run out. *)
Lemma tracker_live_Inc_returns t n x :
  tracker_live t n -> nextRefnum t < int_MaxValue ->
  (forall r, countOf t r < int_MaxValue) ->
  exists r, (Tracker_Inc t (Obj x)).1 = Ok r.
Proof.
  intros [H1 H2 H3 H4] Hnext Hcount. unfold Tracker_Inc.
  destruct (objectRefs t !! x) as [r0|] eqn:Ho.
  - destruct (H3 _ _ Ho) as (e & He & Hv). rewrite He.
    specialize (Hcount r0). unfold countOf in Hcount. rewrite He in Hcount.
    unfold Ref_Inc. destruct (Z.eqb_spec (Count e) int_MaxValue); [lia|].
    eexists; reflexivity.
  - destruct (Z.eqb_spec (nextRefnum t) int_MaxValue); [lia|].
    assert (Hnone : refs t !! nextRefnum t = None).
    { destruct (refs t !! nextRefnum t) as [e|] eqn:E; [|reflexivity].
      destruct (H2 _ _ E). lia. }
    simpl. rewrite Hnone. simpl. eexists; reflexivity.
Qed.

(** C5 (as the code has it).  Take any schedule of [Inc], [IncRefnum] and
    [DecRefnum] on a new tracker.  The count of a refnum, zero when it has
    no entry, is what the completed calls make of it one after the other:
    an increment adds one and a decrement takes one away when there is one
    to take, for [DecRefnum] does nothing on a refnum without an entry.  The
    two maps go together: an entry has a count of at least one and its
    object maps back to its refnum, and every object in the map has its
    entry; so when the counts are all zero both maps are empty.  An [Inc]
    of an object that returns gives a refnum of at least 42 and leaves the
    entry of that object with one more than the count before, and it returns
    as long as neither refnums nor counts run out.  A further [DecRefnum]
    removes an entry from both maps exactly when its count falls to zero,
    and [Inc] of an object whose entry is live returns the refnum it
    already has.  When every decrement names a refnum that an earlier [Inc]
    handed out (or one that the tracker passes over), the count of every
    entry is the number of its increments minus the number of its
    decrements, and a schedule in which they match leaves both maps
    empty. *)
Theorem refcount_conservation (ops : list Op) :
  let tr := (run newTracker ops).1 in
  let t := (run newTracker ops).2 in
  (forall r, RefOffset <= r -> countOf t r = live tr r) /\
  (forall r e, refs t !! r = Some e ->
     RefOffset <= r /\ 0 < Count e /\ objectRefs t !! Value e = Some r) /\
  (forall x r, objectRefs t !! x = Some r ->
     exists e, refs t !! r = Some e /\ Value e = x) /\
  ((forall r, RefOffset <= r -> live tr r = 0) -> refs t = ∅ /\ objectRefs t = ∅) /\
  (forall x r t', Tracker_Inc t (Obj x) = (Ok r, t') ->
     RefOffset <= r /\ r <> NullRefNum /\
     refs t' !! r = Some {| Value := x; Count := countOf t r + 1 |} /\
     objectRefs t' !! x = Some r) /\
  (forall x, nextRefnum t < int_MaxValue ->
     (forall r, countOf t r < int_MaxValue) ->
     exists r, (Tracker_Inc t (Obj x)).1 = Ok r) /\
  (forall r e, refs t !! r = Some e ->
     let t' := (Tracker_DecRefnum t r).2 in
     if Count e =? 1
     then refs t' !! r = None /\ objectRefs t' !! Value e = None
     else refs t' !! r = Some {| Value := Value e; Count := Count e - 1 |} /\
          objectRefs t' !! Value e = Some r) /\
  (forall x r, objectRefs t !! x = Some r ->
     exists e, refs t !! r = Some e /\ Value e = x /\
       (Count e < int_MaxValue -> (Tracker_Inc t (Obj x)).1 = Ok r)) /\
  (decsFollowIncs [] tr = true ->
     (forall r e, refs t !! r = Some e -> Count e = net tr r) /\
     ((forall r, net tr r = 0) -> refs t = ∅ /\ objectRefs t = ∅)).
Proof.
  intros tr t.
  pose proof (reachable_live ops) as Hlive. fold tr t in Hlive.
  pose proof Hlive as [L1 L2 L3 L4].
  assert (Hempty : (forall r e, refs t !! r = Some e -> False) ->
                   refs t = ∅ /\ objectRefs t = ∅).
  { intros Hno.
    assert (Hrefs : refs t = ∅).
    { apply map_empty. intros r. destruct (refs t !! r) as [e|] eqn:He; [|reflexivity].
      destruct (Hno r e He). }
    split; [exact Hrefs|].
    apply map_empty. intros x. destruct (objectRefs t !! x) as [r|] eqn:Ho; [|reflexivity].
    destruct (L3 x r Ho) as (e & He & _).
    rewrite Hrefs, lookup_empty in He. discriminate. }
  split; [exact L4|]. split; [|split; [exact L3|split; [|split; [|split; [|split; [|split]]]]]].
  - intros r e He. destruct (L2 r e He) as (? & ? & ?). repeat split; try lia. assumption.
  - intros Hzero. apply Hempty. intros r e He.
    destruct (L2 r e He) as (Hr & Hc & _).
    pose proof (L4 r (proj1 Hr)) as E. unfold countOf in E. rewrite He in E.
    rewrite Hzero in E by lia. lia.
  - intros x r t' H. exact (tracker_live_Inc _ _ _ _ _ Hlive H).
  - intros x Hnext Hcount. exact (tracker_live_Inc_returns _ _ x Hlive Hnext Hcount).
  - intros r e He. destruct (L2 r e He) as (Hr & Hc & Hobj).
    unfold Tracker_DecRefnum.
    replace ((r <=? 0) || (r =? NullRefNum)) with false
      by (unfold RefOffset, NullRefNum in *; lia).
    rewrite He. unfold Ref_Dec. cbn -[Z.eqb Z.leb wrap32].
    rewrite wrap32_small by (unfold int_MinValue, int_MaxValue in *; lia).
    destruct (Z.eqb_spec (Count e) 1) as [E|E].
    + replace (Count e - 1 <=? 0) with true by lia. simpl.
      now rewrite !lookup_delete_eq.
    + replace (Count e - 1 <=? 0) with false by lia. simpl.
      now rewrite lookup_insert_eq.
  - intros x r Ho. destruct (L3 _ _ Ho) as (e & He & Hv).
    exists e. split; [assumption|]. split; [assumption|]. intros Hlt.
    unfold Tracker_Inc. rewrite Ho, He. unfold Ref_Inc.
    now replace (Count e =? int_MaxValue) with false by lia.
  - intros Hwf.
    destruct (run_inv ops newTracker [] (fun _ => 0) tracker_inv_new Hwf) as [handed Hinv].
    fold tr t in Hinv.
    assert (Hcount : forall r e, refs t !! r = Some e -> Count e = net tr r).
    { intros r e He. destruct (inv_refs _ _ _ Hinv r e He) as (_ & _ & Hn & _). lia. }
    split; [exact Hcount|].
    intros Hbal. apply Hempty. intros r e He.
    destruct (L2 r e He) as (_ & Hc & _).
    rewrite (Hcount r e He), Hbal in Hc. lia.
Qed.

(** One object passed to Go twice, retained once more by Go, and released
    three times. *)
Definition balancedSchedule : list Op :=
  [ OpInc (Obj 1); OpInc (Obj 1); OpIncRefnum 42;
    OpDecRefnum 42; OpDecRefnum 42; OpDecRefnum 42 ].

Lemma refcount_conservation_witness :
  refs (run newTracker balancedSchedule).2 = ∅ /\
  objectRefs (run newTracker balancedSchedule).2 = ∅.
Proof.
  destruct (refcount_conservation balancedSchedule) as (_ & _ & _ & _ & _ & _ & _ & _ & H).
  destruct H as [_ H].
  - vm_compute. reflexivity.
  - apply H. intros r. vm_compute run. cbn -[Z.eqb].
    destruct (Z.eqb_spec 42 r); lia.
Defined.

Example unbalanced_schedule :
  refs (run newTracker [OpInc (Obj 1); OpInc (Obj 1); OpDecRefnum 42]).2 !! 42
  = Some {| Value := 1; Count := 1 |}.
Proof. vm_compute. reflexivity. Qed.

(** C5 as stated fails for a schedule that starts with a decrement: [Dec]
    finds no entry under 42 and returns without a word (line 1692), the
    [Inc] after it hands out 42, and at the end the one increment of 42 is
    matched by one decrement while its entry is in both maps with the
    count 1. *)
Lemma stray_decrement_is_not_counted :
  (run newTracker [OpDecRefnum 42; OpInc (Obj 1)]).1 =
    [(OpDecRefnum 42, Done); (OpInc (Obj 1), Returned 42)] /\
  (forall r, net (run newTracker [OpDecRefnum 42; OpInc (Obj 1)]).1 r = 0) /\
  refs (run newTracker [OpDecRefnum 42; OpInc (Obj 1)]).2 !! 42 =
    Some {| Value := 1; Count := 1 |} /\
  objectRefs (run newTracker [OpDecRefnum 42; OpInc (Obj 1)]).2 !! 1%positive = Some 42.
Proof.
  split; [vm_compute; reflexivity|]. split; [|split; vm_compute; reflexivity].
  intros r. vm_compute run. cbn -[Z.eqb]. destruct (Z.eqb_spec 42 r); lia.
Qed.

(** *** The state of the class [Seq] *)

(** Values on the wire: an integer of some width (a [bool] is the byte 0 or
    1, a reference is a refnum), an [NString] or [NByteslice] with its
    pointer and length, or a return record with its fields [r0] and [r1].
    Floating point numbers are not modelled. *)
Inductive NVal :=
  | NInt (z : Z)
  | NString (ptr len : Z)
  | NByteslice (ptr len : Z)
  | NRecord (r0 r1 : NVal).

(** Values of the managed surface types.  A managed string is kept as its
    UTF-8 bytes, so that [Encoding.UTF8.GetBytes] and
    [Marshal.PtrToStringUTF8] are the two conversions between a string and
    a list of bytes; [None] is [null]. *)
Inductive MVal :=
  | MBool (b : bool)
  | MInt (z : Z)
  | MString (s : option string)
  | MBytes (b : option (list ascii))
  | MObject (o : Object).

(** What lives at an address of the managed heap: a proxy printed by
    [genStructClass] or [genInterface] (its class, refnum and [disposed]
    flag), a [GoError] (the exception it wraps), or an object of the user. *)
Inductive ObjKind :=
  | ProxyObject (class : string) (refnum : Z) (disposed : bool)
  | GoErrorObject (ex : Exception)
  | UserObject.

(** The calls that leave the printed code, in the order made: into the
    native library, into the hook of the user, to the console and to
    [Environment]. *)
Inductive Event :=
  | Native_DestroyRef (refnum : Z)
  | Native_IncGoRef (refnum : Z)
  | Native_GoSeqAlloc (size ptr : Z)
  | Native_GoSeqFree (ptr : Z)
  | Native_Call (name : string) (args : list NVal)
  | Native_SetCallback (setter handler : string)
  | Hook_Call (ex : Exception) (method : string)
  | Console_Error (method : string) (ex : Exception)
  | Environment_FailFast (method : string) (ex : Exception).

(** The static fields of [Seq], the managed heap, the native heap (blocks
    of bytes by their address), the [registered] flags of the interface
    proxies, and the log of outside calls.  The hook
    [UnhandledCallbackException] is [null] or a delegate of the user, held
    by its address. *)
Record State := {
  Tracker : RefTracker;
  pendingExceptions : list (Exception * string);
  FailFastOnUnhandledCallbackException : bool;
  UnhandledCallbackException : option positive;
  objects : gmap positive ObjKind;
  nextObject : positive;
  memory : gmap Z (list ascii);
  nextBlock : Z;
  registered : gset string;
  log : list Event
}.

Definition set_Tracker (t : RefTracker) (st : State) : State :=
  {| Tracker := t; pendingExceptions := pendingExceptions st;
     FailFastOnUnhandledCallbackException := FailFastOnUnhandledCallbackException st;
     UnhandledCallbackException := UnhandledCallbackException st;
     objects := objects st; nextObject := nextObject st;
     memory := memory st; nextBlock := nextBlock st;
     registered := registered st; log := log st |}.

Definition set_pending (q : list (Exception * string)) (st : State) : State :=
  {| Tracker := Tracker st; pendingExceptions := q;
     FailFastOnUnhandledCallbackException := FailFastOnUnhandledCallbackException st;
     UnhandledCallbackException := UnhandledCallbackException st;
     objects := objects st; nextObject := nextObject st;
     memory := memory st; nextBlock := nextBlock st;
     registered := registered st; log := log st |}.

Definition set_objects (os : gmap positive ObjKind) (next : positive) (st : State) : State :=
  {| Tracker := Tracker st; pendingExceptions := pendingExceptions st;
     FailFastOnUnhandledCallbackException := FailFastOnUnhandledCallbackException st;
     UnhandledCallbackException := UnhandledCallbackException st;
     objects := os; nextObject := next;
     memory := memory st; nextBlock := nextBlock st;
     registered := registered st; log := log st |}.

Definition set_memory (m : gmap Z (list ascii)) (next : Z) (st : State) : State :=
  {| Tracker := Tracker st; pendingExceptions := pendingExceptions st;
     FailFastOnUnhandledCallbackException := FailFastOnUnhandledCallbackException st;
     UnhandledCallbackException := UnhandledCallbackException st;
     objects := objects st; nextObject := nextObject st;
     memory := m; nextBlock := next;
     registered := registered st; log := log st |}.

Definition set_registered (r : gset string) (st : State) : State :=
  {| Tracker := Tracker st; pendingExceptions := pendingExceptions st;
     FailFastOnUnhandledCallbackException := FailFastOnUnhandledCallbackException st;
     UnhandledCallbackException := UnhandledCallbackException st;
     objects := objects st; nextObject := nextObject st;
     memory := memory st; nextBlock := nextBlock st;
     registered := r; log := log st |}.

(** The setters of the two public properties (lines 1603 and 1604). *)
Definition set_FailFast (b : bool) (st : State) : State :=
  {| Tracker := Tracker st; pendingExceptions := pendingExceptions st;
     FailFastOnUnhandledCallbackException := b;
     UnhandledCallbackException := UnhandledCallbackException st;
     objects := objects st; nextObject := nextObject st;
     memory := memory st; nextBlock := nextBlock st;
     registered := registered st; log := log st |}.

Definition set_hook (h : option positive) (st : State) : State :=
  {| Tracker := Tracker st; pendingExceptions := pendingExceptions st;
     FailFastOnUnhandledCallbackException := FailFastOnUnhandledCallbackException st;
     UnhandledCallbackException := h;
     objects := objects st; nextObject := nextObject st;
     memory := memory st; nextBlock := nextBlock st;
     registered := registered st; log := log st |}.

Definition emit (e : Event) (st : State) : State :=
  {| Tracker := Tracker st; pendingExceptions := pendingExceptions st;
     FailFastOnUnhandledCallbackException := FailFastOnUnhandledCallbackException st;
     UnhandledCallbackException := UnhandledCallbackException st;
     objects := objects st; nextObject := nextObject st;
     memory := memory st; nextBlock := nextBlock st;
     registered := registered st; log := log st ++ [e] |}.

(** The state after the static constructor of [Seq]. *)
Definition initialState : State :=
  {| Tracker := newTracker; pendingExceptions := [];
     FailFastOnUnhandledCallbackException := false;
     UnhandledCallbackException := None;
     objects := ∅; nextObject := 1%positive;
     memory := ∅; nextBlock := 4096;
     registered := ∅; log := [] |}.

(** *** Computations of the emitted code *)

Definition M (A : Type) : Type := State -> Result A * State.

Definition ret {A} (a : A) : M A := fun st => (Ok a, st).
Definition throw {A} (e : Exception) : M A := fun st => (Throw e, st).
Definition bind {A B} (m : M A) (k : A -> M B) : M B :=
  fun st =>
    match m st with
    | (Ok a, st') => k a st'
    | (Throw e, st') => (Throw e, st')
    | (FailFast, st') => (FailFast, st')
    end.
Definition gets {A} (f : State -> A) : M A := fun st => (Ok (f st), st).
Definition modify (f : State -> State) : M unit := fun st => (Ok tt, f st).
Definition native (e : Event) : M unit := modify (emit e).

Notation "x <- m ;; k" := (bind m (fun x => k))
  (at level 100, m at next level, right associativity).
Notation "m ;;; k" := (bind m (fun _ => k))
  (at level 100, right associativity).

(** A method of the tracker, under its lock. *)
Definition locked {A} (f : RefTracker -> Result A * RefTracker) : M A :=
  fun st => let '(r, t) := f (Tracker st) in (r, set_Tracker t st).

(** [new C(...)]: a fresh address on the managed heap. *)
Definition new (k : ObjKind) : M Object :=
  fun st =>
    (Ok (Obj (nextObject st)),
     set_objects (<[nextObject st := k]> (objects st)) (Pos.succ (nextObject st)) st).

(** *** The methods of [Seq] *)

Definition Alloc (size : Z) : M Z :=
  fun st =>
    let ptr := nextBlock st in
    (Ok ptr,
     emit (Native_GoSeqAlloc size ptr)
       (set_memory (<[ptr := replicate (Z.to_nat size) zero]> (memory st))
                   (ptr + Z.max size 1) st)).

Definition Free (ptr : Z) : M unit :=
  if ptr =? 0 then ret tt
  else fun st =>
    (Ok tt, emit (Native_GoSeqFree ptr)
              (set_memory (delete ptr (memory st)) (nextBlock st) st)).

(** [Marshal.Copy(bytes, 0, ptr, bytes.Length)]. *)
Definition Marshal_Copy_to (bytes : list ascii) (ptr : Z) : M unit :=
  modify (fun st => set_memory (<[ptr := bytes]> (memory st)) (nextBlock st) st).

(** The [len] bytes at [ptr]; what lies outside a block reads as zero. *)
Definition readBytes (ptr len : Z) : M (list ascii) :=
  gets (fun st => resize (Z.to_nat len) zero (default [] (memory st !! ptr))).

Definition StringToNString (value : option string) : M NVal :=
  match value with
  | None | Some EmptyString => ret (NString 0 0)
  | Some s =>
      let bytes := list_ascii_of_string s in
      ptr <- Alloc (Z.of_nat (length bytes)) ;;
      Marshal_Copy_to bytes ptr ;;;
      ret (NString ptr (Z.of_nat (length bytes)))
  end.

(** A negative length makes [Marshal.PtrToStringUTF8] and [new byte[n]]
    throw an exception of the system. *)
Definition NStringToString (ptr len : Z) : M string :=
  if (ptr =? 0) || (len =? 0) then ret EmptyString
  else if len <? 0 then throw (UserException "ArgumentOutOfRangeException")
  else
    bytes <- readBytes ptr len ;;
    Free ptr ;;;
    ret (string_of_list_ascii bytes).

Definition BytesToNByteslice (value : option (list ascii)) : M NVal :=
  match value with
  | None | Some [] => ret (NByteslice 0 0)
  | Some bytes =>
      ptr <- Alloc (Z.of_nat (length bytes)) ;;
      Marshal_Copy_to bytes ptr ;;;
      ret (NByteslice ptr (Z.of_nat (length bytes)))
  end.

Definition NBytesliceToBytes (ptr len : Z) (free : bool) : M (option (list ascii)) :=
  if (ptr =? 0) || (len =? 0) then ret (Some [])
  else if len <? 0 then throw (UserException "OverflowException")
  else
    result <- readBytes ptr len ;;
    (if free then Free ptr else ret tt) ;;;
    ret (Some result).

Definition IncGoRef (refnum : Z) : M unit := native (Native_IncGoRef refnum).
Definition DestroyRef (refnum : Z) : M unit := native (Native_DestroyRef refnum).
Definition GetRef (refnum : Z) : M Object :=
  locked (fun t => (Tracker_GetRef t refnum, t)).
Definition IncRefnum (refnum : Z) : M unit := locked (fun t => Tracker_IncRefnum t refnum).
Definition DecRefnum (refnum : Z) : M unit := locked (fun t => Tracker_DecRefnum t refnum).

(** [IncRefnum()] of a proxy: [ThrowIfDisposed(); Seq.IncGoRef(refnum,
    this); return refnum;]. *)
Definition Proxy_IncRefnum (refnum : Z) (disposed : bool) : M Z :=
  if disposed then throw ObjectDisposedException
  else IncGoRef refnum ;;; ret refnum.

Definition IncRef (value : Object) : M Z :=
  match value with
  | Null => ret NullRefNum
  | Obj a =>
      k <- gets (fun st => objects st !! a) ;;
      match k with
      | Some (ProxyObject _ refnum disposed) => Proxy_IncRefnum refnum disposed
      | _ => locked (fun t => Tracker_Inc t value)
      end
  end.

(** [FromRefnum] of the class that [genStructClass] prints (lines 935 to
    940). *)
Definition Struct_FromRefnum (name : string) (refnum : Z) : M Object :=
  if refnum =? NullRefNum then ret Null
  else new (ProxyObject name refnum false).

Definition ThrowIfPendingException : M unit :=
  fun st =>
    match pendingExceptions st with
    | (ex, method) :: rest =>
        (Throw (PendingCallbackException method ex), set_pending rest st)
    | [] => (Ok tt, st)
    end.

(** The C# compiler sees to it that a value has the type it is read at; the
    defaults below stand for the cases that cannot arise. *)
Definition intOf (n : NVal) : Z := match n with NInt z => z | _ => 0 end.
Definition ptrOf (n : NVal) : Z :=
  match n with NString p _ | NByteslice p _ => p | _ => 0 end.
Definition lenOf (n : NVal) : Z :=
  match n with NString _ l | NByteslice _ l => l | _ => 0 end.
Definition r0Of (n : NVal) : NVal := match n with NRecord a _ => a | _ => NInt 0 end.
Definition r1Of (n : NVal) : NVal := match n with NRecord _ b => b | _ => NInt 0 end.

Definition asBool (v : MVal) : bool := match v with MBool b => b | _ => false end.
Definition asInt (v : MVal) : Z := match v with MInt z => z | _ => 0 end.
Definition asString (v : MVal) : option string :=
  match v with MString s => s | _ => None end.
Definition asBytes (v : MVal) : option (list ascii) :=
  match v with MBytes b => b | _ => None end.
Definition asObject (v : MVal) : Object := match v with MObject o => o | _ => Null end.

Section Surroundings.

(** What the printed runtime meets but the generator does not print: [go]
    is what the Go side does on a native call and [impl] what the user's
    object at an address does when a method of it is called; [implements a
    proxyName] tells whether the class of the user's object at [a]
    implements the interface that the proxy class [proxyName] stands for;
    [delegate h] is what the delegate at the address [h] does when it is
    invoked; [describe] is the [Message] of an exception that the .NET
    runtime or the user has built; [universe] is the generator whose [Pkg]
    is [nil], the one that prints [ProxyError]. *)
Variable go : string -> list NVal -> M NVal.
Variable impl : positive -> string -> list MVal -> M MVal.
Variable implements : positive -> string -> bool.
Variable delegate : positive -> Exception -> string -> M unit.
Variable describe : Exception -> string.
Variable universe : Collector.Generator.

(** Whether the object at [a] is an instance of the interface of the proxy
    class [proxyName].  Of the printed classes only [proxyName] itself
    implements that interface (line 1168), and [GoError] implements [Error],
    the interface of [ProxyError] (line 1747). *)
Definition instanceOf (proxyName : string) (a : positive) (st : State) : bool :=
  match objects st !! a with
  | Some (ProxyObject class _ _) => bool_decide (class = proxyName)
  | Some (GoErrorObject _) => bool_decide (proxyName = "ProxyError")
  | Some UserObject | None => implements a proxyName
  end.

(** The cast [(I)o] to that interface: [null] passes, and an object that is
    no instance makes the cast throw. *)
Definition castTo (proxyName : string) (o : Object) : M Object :=
  match o with
  | Null => ret Null
  | Obj a =>
      ok <- gets (instanceOf proxyName a) ;;
      if ok then ret o else throw InvalidCastException
  end.

(** [FromRefnum] of the proxy class that [genInterface] prints (lines 1196
    to 1202). *)
Definition Proxy_FromRefnum (proxyName : string) (refnum : Z) : M Object :=
  if refnum =? NullRefNum then ret Null
  else if refnum <? 0 then new (ProxyObject proxyName refnum false)
  else o <- GetRef refnum ;; castTo proxyName o.

(** [ex.Message]: the text handed to the constructor where the printed code
    builds the exception (lines 1620, 1653, 1678, 1710, 1724 and 1742). *)
Fixpoint Message (ex : Exception) : string :=
  match ex with
  | InvalidOperationException message => message
  | PendingCallbackException method inner =>
      "Unhandled exception in previous callback " +:+ method +:+ ": " +:+
      Message inner
  | GoException _ message => message
  | _ => describe ex
  end.

(** [Error()] of [ProxyError], the method that [genInterface] prints for
    the one method of the universe's [error] (lines 1233 to 1273): the
    prologue, the native call with the refnum, and the string that comes
    back. *)
Definition ProxyError_Error (refnum : Z) (disposed : bool) : M string :=
  (if disposed then throw ObjectDisposedException else ret tt) ;;;
  ThrowIfPendingException ;;;
  IncGoRef refnum ;;;
  let cName := Collector.proxyFuncName universe "error" "Error" in
  native (Native_Call cName [NInt refnum]) ;;;
  res <- go cName [NInt refnum] ;;
  NStringToString (ptrOf res) (lenOf res).

(** The call [error.Error()] on the object at [a]: the method of
    [ProxyError] on a proxy, the stored message on a [GoError] (lines 1750
    and 1751), and the method of the user's class otherwise. *)
Definition Error_Error (a : positive) : M (option string) :=
  k <- gets (fun st => objects st !! a) ;;
  match k with
  | Some (ProxyObject _ refnum disposed) =>
      s <- ProxyError_Error refnum disposed ;; ret (Some s)
  | Some (GoErrorObject ex) => ret (Some (Message ex))
  | Some UserObject | None => v <- impl a "Error" [] ;; ret (asString v)
  end.

(** [new GoException(error)] (line 1742): the message is
    [error?.Error() ?? "Go error"]. *)
Definition new_GoException (error : Object) : M Exception :=
  message <- match error with
             | Null => ret None
             | Obj a => Error_Error a
             end ;;
  ret (GoException error (default "Go error" message)).

Definition ThrowIfError (refnum : Z) : M unit :=
  if refnum =? NullRefNum then ret tt
  else
    error <- Proxy_FromRefnum "ProxyError" refnum ;;
    ex <- new_GoException error ;;
    throw ex.

Definition ReportUnhandledException (ex : Exception) (methodName : string) : M unit :=
  modify (fun st => set_pending (pendingExceptions st ++ [(ex, methodName)]) st) ;;;
  handler <- gets UnhandledCallbackException ;;
  match handler with
  | Some h => native (Hook_Call ex methodName) ;;; delegate h ex methodName
  | None => ret tt
  end ;;;
  native (Console_Error methodName ex) ;;;
  failFast <- gets FailFastOnUnhandledCallbackException ;;
  if failFast
  then native (Environment_FailFast methodName ex) ;;; (fun st => (FailFast, st))
  else ret tt.

End Surroundings.

(** [ReportUnhandledException] step by step: the entry is queued; the hook,
    if there is one, runs on the state with the entry queued, and what it
    throws goes on to the caller; after it the line for the console, and
    [FailFast] if the switch is set when the hook has returned. *)
Lemma report_steps delegate ex method s :
  ReportUnhandledException delegate ex method s =
  let s0 := set_pending (pendingExceptions s ++ [(ex, method)]) s in
  let finish := fun s1 =>
    let s' := emit (Console_Error method ex) s1 in
    if FailFastOnUnhandledCallbackException s1
    then (FailFast, emit (Environment_FailFast method ex) s')
    else (Ok tt, s') in
  match UnhandledCallbackException s with
  | None => finish s0
  | Some h =>
      match delegate h ex method (emit (Hook_Call ex method) s0) with
      | (Ok _, s1) => finish s1
      | (Throw e, s1) => (Throw e, s1)
      | (FailFast, s1) => (FailFast, s1)
      end
  end.
Proof.
  unfold ReportUnhandledException, bind, modify, gets, native, modify, ret.
  cbn [UnhandledCallbackException set_pending].
  destruct (UnhandledCallbackException s) as [h|].
  - destruct (delegate h ex method _) as [[[]|e|] s1]; try reflexivity.
    cbn [FailFastOnUnhandledCallbackException emit].
    destruct (FailFastOnUnhandledCallbackException s1); reflexivity.
  - cbn [FailFastOnUnhandledCallbackException emit set_pending].
    destruct (FailFastOnUnhandledCallbackException s); reflexivity.
Qed.

(** *** Errors of the runtime *)

(** C9 (as the code has it).  [GetRef] throws on every refnum that is
    neither the sentinel nor tracked; [IncRefnum] throws on such a refnum
    when it is positive, and ignores every refnum that is zero or negative;
    [Inc] throws when a new object would take the refnum [int.MaxValue], and
    [Inc] and [IncRefnum] throw when the count of the entry is
    [int.MaxValue].  A call that throws leaves the tracker as it was. *)
Theorem runtime_invariant_errors (t : RefTracker) (r : Z) :
  (r <> NullRefNum -> refs t !! r = None ->
   Tracker_GetRef t r = Throw (InvalidOperationException "unknown reference")) /\
  (0 < r -> r <> NullRefNum -> refs t !! r = None ->
   Tracker_IncRefnum t r = (Throw (InvalidOperationException "unknown reference"), t)) /\
  (r <= 0 -> Tracker_IncRefnum t r = (Ok tt, t)) /\
  (forall x, objectRefs t !! x = None -> nextRefnum t = int_MaxValue ->
   Tracker_Inc t (Obj x) =
   (Throw (InvalidOperationException "RefTracker: refnum overflow"), t)) /\
  (forall e, 0 < r -> r <> NullRefNum -> refs t !! r = Some e ->
   Count e = int_MaxValue ->
   Tracker_IncRefnum t r =
   (Throw (InvalidOperationException "Ref: refcount overflow"), t)) /\
  (forall x e, objectRefs t !! x = Some r -> refs t !! r = Some e ->
   Count e = int_MaxValue ->
   Tracker_Inc t (Obj x) =
   (Throw (InvalidOperationException "Ref: refcount overflow"), t)).
Proof.
  repeat split.
  - intros Hr Hnone. unfold Tracker_GetRef.
    destruct (Z.eqb_spec r NullRefNum); [contradiction|]. now rewrite Hnone.
  - intros Hpos Hr Hnone. unfold Tracker_IncRefnum.
    destruct (Z.leb_spec r 0); [lia|].
    destruct (Z.eqb_spec r NullRefNum); [contradiction|]. simpl. now rewrite Hnone.
  - intros Hle. unfold Tracker_IncRefnum.
    destruct (Z.leb_spec r 0); [reflexivity|lia].
  - intros x Ho Hmax. unfold Tracker_Inc. rewrite Ho, Hmax. reflexivity.
  - intros e Hpos Hr He Hmax. unfold Tracker_IncRefnum.
    destruct (Z.leb_spec r 0); [lia|].
    destruct (Z.eqb_spec r NullRefNum); [contradiction|]. simpl.
    rewrite He. unfold Ref_Inc. rewrite Hmax. reflexivity.
  - intros x e Ho He Hmax. unfold Tracker_Inc. rewrite Ho, He.
    unfold Ref_Inc. rewrite Hmax. reflexivity.
Qed.

Lemma runtime_invariant_errors_witness :
  Tracker_GetRef newTracker 99 = Throw (InvalidOperationException "unknown reference") /\
  Tracker_IncRefnum newTracker 99 =
    (Throw (InvalidOperationException "unknown reference"), newTracker).
Proof.
  destruct (runtime_invariant_errors newTracker 99) as (H1 & H2 & _).
  split; [apply H1|apply H2]; solve [reflexivity | discriminate].
Defined.

(** C9 as stated fails at a negative refnum: -7 is neither tracked nor the
    sentinel, and line 1675 makes [IncRefnum] return without a word. *)
Lemma incRefnum_ignores_unknown_negative :
  refs newTracker !! (-7) = None /\ -7 <> NullRefNum /\
  Tracker_IncRefnum newTracker (-7) = (Ok tt, newTracker).
Proof. repeat split. discriminate. Qed.

(** *** The sign of a refnum *)

Definition managed_refnums (t : RefTracker) : Prop :=
  RefOffset <= nextRefnum t /\
  forall x r, objectRefs t !! x = Some r -> RefOffset <= r.

Lemma managed_refnums_Inc t value r t' :
  managed_refnums t -> Tracker_Inc t value = (r, t') ->
  managed_refnums t' /\ (forall z, r = Ok z -> value <> Null -> RefOffset <= z).
Proof.
  intros [Hn Ho]. unfold Tracker_Inc. destruct value as [|v].
  { intros [= <- <-]. split; [now split|]. intros z _ H. contradiction. }
  destruct (objectRefs t !! v) as [r0|] eqn:E.
  - pose proof (Ho _ _ E) as Hr0.
    destruct (refs t !! r0) as [e|]; cbn -[Ref_Inc];
      (destruct (Ref_Inc _) as [e'| |]; intros [= <- <-];
       (split; [now split|]); intros z [= <-] _; try assumption).
  - destruct (Z.eqb_spec (nextRefnum t) int_MaxValue).
    { intros [= <- <-]. split; [now split|]. discriminate. }
    simpl.
    assert (Hnew : managed_refnums
              {| nextRefnum := nextRefnum t + 1; refs := refs t;
                 objectRefs := <[v:=nextRefnum t]> (objectRefs t) |}).
    { split; simpl; [lia|]. intros x r0 H.
      destruct (decide (x = v)) as [->|Hne].
      - rewrite lookup_insert_eq in H. injection H as <-. assumption.
      - rewrite lookup_insert_ne in H by congruence. eauto. }
    destruct (refs t !! nextRefnum t) as [e|]; cbn -[Ref_Inc];
      (destruct (Ref_Inc _) as [e'| |]; intros [= <- <-];
       (split; [exact Hnew|]); intros z [= <-] _; try assumption).
Qed.

Lemma managed_refnums_step t op out t' :
  managed_refnums t -> step t op = (out, t') -> managed_refnums t'.
Proof.
  intros H. unfold step. destruct op as [value|r0|r0].
  - destruct (Tracker_Inc t value) as [r t1] eqn:E.
    destruct (managed_refnums_Inc _ _ _ _ H E) as [H' _].
    destruct r; intros [= <- <-]; exact H'.
  - unfold Tracker_IncRefnum. destruct H as [Hn Ho].
    destruct ((r0 <=? 0) || (r0 =? NullRefNum)); [intros [= <- <-]; now split|].
    destruct (refs t !! r0) as [e|]; [|intros [= <- <-]; now split].
    destruct (Ref_Inc e); intros [= <- <-]; now split.
  - unfold Tracker_DecRefnum. destruct H as [Hn Ho].
    destruct ((r0 <=? 0) || (r0 =? NullRefNum)); [intros [= <- <-]; now split|].
    destruct (refs t !! r0) as [e|]; [|intros [= <- <-]; now split].
    destruct (Count (Ref_Dec e) <=? 0); intros [= <- <-]; split; simpl; auto.
    intros x r H. apply lookup_delete_Some in H as [_ H]. eauto.
Qed.

Lemma managed_refnums_run ops : forall t,
  managed_refnums t -> managed_refnums (run t ops).2.
Proof.
  induction ops as [|op rest IH]; intros t H; simpl; [assumption|].
  destruct (step t op) as [out t1] eqn:E.
  specialize (IH t1 (managed_refnums_step _ _ _ _ H E)).
  now destruct (run t1 rest).
Qed.

Lemma set_Tracker_same st : set_Tracker (Tracker st) st = st.
Proof. now destruct st. Qed.

(** C1 (as the code has it).  [FromRefnum] of an interface proxy returns
    [null] on the sentinel, makes a new proxy for a negative refnum, which
    names an object of the Go side, and for any other refnum asks the
    tracker: it returns the object held under the refnum when that object
    is an instance of the interface, throws [InvalidCastException] when it
    is not, and throws [InvalidOperationException] when the tracker holds
    nothing under the refnum.  The tracker hands out refnums from
    [RefOffset = 42] upward: the first one is 42, and after any schedule a
    refnum that [Inc] returns for an object is at least 42, so a managed
    object always has a positive one. *)
Theorem refnum_sign_convention (implements : positive -> string -> bool)
    (proxyName : string) (st : State) (r : Z) :
  Proxy_FromRefnum implements proxyName NullRefNum st = (Ok Null, st) /\
  (r < 0 ->
   Proxy_FromRefnum implements proxyName r st =
   (Ok (Obj (nextObject st)),
    set_objects (<[nextObject st := ProxyObject proxyName r false]> (objects st))
                (Pos.succ (nextObject st)) st)) /\
  (forall e, 0 <= r -> r <> NullRefNum -> refs (Tracker st) !! r = Some e ->
   Proxy_FromRefnum implements proxyName r st =
   if instanceOf implements proxyName (Value e) st
   then (Ok (Obj (Value e)), st)
   else (Throw InvalidCastException, st)) /\
  (0 <= r -> r <> NullRefNum -> refs (Tracker st) !! r = None ->
   Proxy_FromRefnum implements proxyName r st =
   (Throw (InvalidOperationException "unknown reference"), st)) /\
  RefOffset = 42 /\
  (forall x, (Tracker_Inc newTracker (Obj x)).1 = Ok 42) /\
  (forall ops x z t',
     Tracker_Inc (run newTracker ops).2 (Obj x) = (Ok z, t') -> 42 <= z).
Proof.
  split; [reflexivity|]. split; [|split; [|split; [|split; [|split]]]].
  - intros Hneg. unfold Proxy_FromRefnum.
    destruct (Z.eqb_spec r NullRefNum); [unfold NullRefNum in *; lia|].
    destruct (Z.ltb_spec r 0); [reflexivity|lia].
  - intros e Hpos Hr He. unfold Proxy_FromRefnum.
    destruct (Z.eqb_spec r NullRefNum); [contradiction|].
    destruct (Z.ltb_spec r 0); [lia|].
    unfold bind, GetRef, locked, Tracker_GetRef.
    destruct (Z.eqb_spec r NullRefNum); [contradiction|].
    rewrite He, set_Tracker_same. unfold castTo, bind, gets.
    destruct (instanceOf implements proxyName (Value e) st); reflexivity.
  - intros Hpos Hr He. unfold Proxy_FromRefnum.
    destruct (Z.eqb_spec r NullRefNum); [contradiction|].
    destruct (Z.ltb_spec r 0); [lia|].
    unfold bind, GetRef, locked, Tracker_GetRef.
    destruct (Z.eqb_spec r NullRefNum); [contradiction|].
    now rewrite He, set_Tracker_same.
  - reflexivity.
  - intros x. reflexivity.
  - intros ops x z t' H.
    assert (Hm : managed_refnums (run newTracker ops).2).
    { apply managed_refnums_run. split; simpl; [reflexivity|].
      intros y r0 Hy. now rewrite lookup_empty in Hy. }
    destruct (managed_refnums_Inc _ _ _ _ Hm H) as [_ Hz].
    apply (Hz z); [reflexivity|discriminate].
Qed.

(** The state in which the object at address 7 has been passed to Go once;
    it is an object of the user, of a class that implements [Sink] and
    nothing else that is bound. *)
Definition sinkPassed : State := (IncRef (Obj 7) initialState).2.

Definition sinkAt7 (a : positive) (proxyName : string) : bool :=
  Pos.eqb a 7 && String.eqb proxyName "ProxySink".

Lemma refnum_sign_convention_witness :
  Proxy_FromRefnum sinkAt7 "ProxySink" (-3) sinkPassed =
    (Ok (Obj 1),
     set_objects (<[1%positive := ProxyObject "ProxySink" (-3) false]> ∅) 2%positive
                 sinkPassed) /\
  Proxy_FromRefnum sinkAt7 "ProxySink" 42 sinkPassed = (Ok (Obj 7), sinkPassed) /\
  Proxy_FromRefnum sinkAt7 "ProxyError" 42 sinkPassed =
    (Throw InvalidCastException, sinkPassed).
Proof.
  destruct (refnum_sign_convention sinkAt7 "ProxySink" sinkPassed (-3)) as (_ & H1 & _).
  destruct (refnum_sign_convention sinkAt7 "ProxySink" sinkPassed 42) as (_ & _ & H2 & _).
  destruct (refnum_sign_convention sinkAt7 "ProxyError" sinkPassed 42) as (_ & _ & H3 & _).
  split; [|split].
  - apply H1. reflexivity.
  - apply (H2 {| Value := 7; Count := 1 |}); [discriminate|discriminate|].
    vm_compute. reflexivity.
  - apply (H3 {| Value := 7; Count := 1 |}); [discriminate|discriminate|].
    vm_compute. reflexivity.
Defined.

(** C1 as stated fails on both signs: the positive refnum 42 yields the
    managed object that the tracker holds, not a new proxy, and the negative
    refnum -3 yields a new proxy although the tracker is never asked. *)
Lemma fromRefnum_signs_reversed :
  (Proxy_FromRefnum sinkAt7 "ProxySink" 42 sinkPassed).1 = Ok (Obj 7) /\
  objects sinkPassed !! 7%positive = None /\
  (Proxy_FromRefnum sinkAt7 "ProxySink" (-3) sinkPassed).1 = Ok (Obj 1) /\
  objects (Proxy_FromRefnum sinkAt7 "ProxySink" (-3) sinkPassed).2 !! 1%positive
    = Some (ProxyObject "ProxySink" (-3) false) /\
  (forall r e, refs (Tracker sinkPassed) !! r = Some e -> 0 < r).
Proof.
  repeat split; try (vm_compute; reflexivity).
  intros r e.
  change (refs (Tracker sinkPassed))
    with (<[42 := {| Value := 7; Count := 1 |}]>
            (<[42 := {| Value := 7; Count := 0 |}]> (∅ : gmap Z Ref))).
  destruct (decide (r = 42)) as [->|Hne]; [reflexivity|].
  rewrite !lookup_insert_ne by congruence. now rewrite lookup_empty.
Qed.

(** *** Null and empty values on the wire *)

(** C10.  A null or empty array goes out as the zero [NByteslice] and a
    wire value with a zero pointer or a zero length comes in as an empty
    array; the same holds for strings; whatever comes in is never [null];
    and a null array or string that Go sends back as it got it comes back
    empty. *)
Theorem null_empty_normalization (st : State) (free : bool) (ptr len : Z) :
  BytesToNByteslice None st = (Ok (NByteslice 0 0), st) /\
  BytesToNByteslice (Some []) st = (Ok (NByteslice 0 0), st) /\
  (ptr = 0 \/ len = 0 -> NBytesliceToBytes ptr len free st = (Ok (Some []), st)) /\
  StringToNString None st = (Ok (NString 0 0), st) /\
  StringToNString (Some "") st = (Ok (NString 0 0), st) /\
  (ptr = 0 \/ len = 0 -> NStringToString ptr len st = (Ok "", st)) /\
  (NBytesliceToBytes ptr len free st).1 <> Ok None /\
  (v <- BytesToNByteslice None ;;
   match v with
   | NByteslice p l => NBytesliceToBytes p l free
   | _ => ret None
   end) st = (Ok (Some []), st) /\
  (v <- StringToNString None ;;
   match v with
   | NString p l => NStringToString p l
   | _ => ret "x"
   end) st = (Ok "", st).
Proof.
  repeat split; try reflexivity.
  - intros [-> | ->]; unfold NBytesliceToBytes; [reflexivity|].
    now rewrite orb_true_r.
  - intros [-> | ->]; unfold NStringToString; [reflexivity|].
    now rewrite orb_true_r.
  - unfold NBytesliceToBytes.
    destruct ((ptr =? 0) || (len =? 0)); [discriminate|].
    destruct (len <? 0); [discriminate|].
    unfold bind, readBytes, gets. simpl.
    destruct free; simpl; [|discriminate].
    unfold Free. destruct (ptr =? 0); discriminate.
Qed.

Lemma null_empty_normalization_witness :
  NBytesliceToBytes 0 5 true initialState = (Ok (Some []), initialState) /\
  NStringToString 4096 0 initialState = (Ok "", initialState).
Proof.
  destruct (null_empty_normalization initialState true 0 5) as (_ & _ & H1 & _).
  destruct (null_empty_normalization initialState true 4096 0) as (_ & _ & _ & _ & _ & H2 & _).
  split; [apply H1; now left|apply H2; now right].
Defined.

Example bytes_round_trip :
  (v <- BytesToNByteslice (Some ["a"; "b"]%char) ;;
   match v with
   | NByteslice p l => NBytesliceToBytes p l true
   | _ => ret None
   end) initialState
  = (Ok (Some ["a"; "b"]%char),
     emit (Native_GoSeqFree 4096)
       (emit (Native_GoSeqAlloc 2 4096) (set_memory ∅ 4098 initialState))).
Proof. vm_compute. reflexivity. Qed.

End Runtime.

(* ===================================================================== *)
(** ** The method bodies the generator prints *)
(* ===================================================================== *)

Module Emit.
Import GoTypes Collector Runtime.

(** Where a printed expression reads a wire value from: a local variable,
    a field of the record [res], or the field [refnum] of [this]. *)
Inductive Source :=
  | SrcVar (name : string)
  | SrcR0
  | SrcR1
  | SrcRefnum.

(** The first field of a printed return record: the result of
    [nativeValueExpression] or of [defaultNativeReturn]. *)
Inductive R0Expr :=
  | R0ToNative (name : string) (t : GoType)
  | R0Default (t : GoType).

Local Set Warnings "-register-all".

(** One constructor for each statement that the generator prints into a
    method body; the comment gives the C# text, with [Seq] for
    [<root>.Seq] and [Native] for [<root>.Native]. *)
Inductive Stmt :=
  | ThrowIfDisposed_          (* ThrowIfDisposed(); *)
  | ThrowIfPending            (* Seq.ThrowIfPendingException(); *)
  | IncGoRefThis              (* Seq.IncGoRef(refnum, this); *)
  | EnsureRegistered (proxyName : string)
                              (* <proxyName>.EnsureRegistered(); *)
  | ToNativeParam (name : string) (t : GoType)
                              (* var _<name> = <conversion of name to the wire>; *)
  | CallNative (cName : string) (withRefnum : bool) (args : list string)
               (bindRes : bool)
                              (* [var res = ] Native.<cName>([refnum, ]<args>); *)
  | FreeNativeParam (name : string)
                              (* if (_<name>.ptr != IntPtr.Zero) { Seq.Free(_<name>.ptr); } *)
  | ReturnFromNative (src : Source) (t : GoType) (freeBytes : bool)
                              (* return <managedFromNativeExpr>; *)
  | VarFromNative (target : string) (src : Source) (t : GoType) (freeBytes : bool)
                              (* var <target> = <managedFromNativeExpr>; *)
  | IfErrorSet (body : list Stmt)
                              (* if (res.r1 != Seq.NullRefNum) { <body> } *)
  | DestroyRefOf (src : Source)
                              (* Seq.DestroyRef(<src>); *)
  | ThrowIfErrorOf (src : Source)
                              (* Seq.ThrowIfError(<src>); *)
  | ReturnVar (name : string) (* return <name>; *)
  | AssignRefnum (src : Source)
                              (* refnum = <src>; *)
  | Try (body handler : list Stmt)
                              (* try { <body> } catch (Exception ex) { <handler> } *)
  | GetInstance               (* var instance = (I)Seq.GetRef(refnum); *)
  | FromNativeParam (name : string) (t : GoType)
                              (* var <name>Value = <conversion of name from the wire>; *)
  | CallInstance (method : string) (args : list string) (target : option string)
                              (* [var <target> = ] instance.<method>(<args>); *)
  | ReturnNullRefNum          (* return Seq.NullRefNum; *)
  | ReturnIncRefGoError       (* return Seq.IncRef(new GoError(ex)); *)
  | ReportUnhandled (method : string)
                              (* Seq.ReportUnhandledException(ex, "<method>"); *)
  | ReturnDefault (t : GoType)
                              (* return <defaultNativeReturn>; *)
  | ReturnToNative (name : string) (t : GoType)
                              (* return <nativeValueExpression>; *)
  | VarErrorNull              (* var error = Seq.NullRefNum; *)
  | VarErrorIncRefGoError     (* var error = Seq.IncRef(new GoError(ex)); *)
  | ReturnRecord (structName : string) (r0 : R0Expr)
                              (* return new <structName> { r0 = <r0>, r1 = error }; *)
  | ReturnVoid.               (* return; *)

(** A statement with the statements printed inside its blocks, and all the
    statements of a body. *)
Fixpoint statements (s : Stmt) : list Stmt :=
  s :: match s with
       | IfErrorSet body =>
           (fix all (l : list Stmt) : list Stmt :=
              match l with
              | [] => []
              | x :: rest => statements x ++ all rest
              end) body
       | Try body handler =>
           (fix all (l : list Stmt) : list Stmt :=
              match l with
              | [] => []
              | x :: rest => statements x ++ all rest
              end) body ++
           (fix all (l : list Stmt) : list Stmt :=
              match l with
              | [] => []
              | x :: rest => statements x ++ all rest
              end) handler
       | _ => []
       end.

Definition allStatements (body : list Stmt) : list Stmt := body ≫= statements.

Definition indirectNamed (t : GoType) : option (option string * string * Underlying) :=
  (fix go (t : GoType) :=
     match t with
     | Pointer elem => go elem
     | Named pkg name under => Some (pkg, name, under)
     | _ => None
     end) t.

Definition nativeParamName (name : string) : string := "_" +:+ name.

Definition shouldFreeAfterCall (t : GoType) (retained : bool) : bool :=
  if retained then false
  else match t with
       | Slice (Basic KUint8) => true
       | _ => false
       end.

Section Emitters.

(** [g.isSigSupported], [g.isSupported] and [basicParamName] come from
    bind/gen.go; the bodies are described for any such functions. *)
Variable isSigSupported : Signature -> bool.
Variable isSupported : GoType -> bool.
Variable basicParamName : list Var -> nat -> string.
Variable IsLetterHigh : Z -> bool.

Definition csIdentifier := Sanitizer.csIdentifier IsLetterHigh.

Definition paramName (params : list Var) (pos : nat) : string :=
  csIdentifier (basicParamName params pos).

(** [csProxyInterfaceName], and [interfaceProxyQualifiedName] without the
    namespace that it puts before a type of another package. *)
Definition csProxyInterfaceName (pkg : option string) (name : string) : string :=
  match pkg, name with
  | None, "error" => "ProxyError"
  | _, _ => csIdentifier ("Proxy" +:+ name)
  end.

(** [emitToNativeParam]; the mode changes nothing in what it prints. *)
Definition emitToNativeParam (name : string) (t : GoType) : list Stmt :=
  match t with
  | Pointer _ | Named _ _ _ =>
      match indirectNamed t with
      | Some (pkg, n, UInterface true) =>
          [EnsureRegistered (csProxyInterfaceName pkg n); ToNativeParam name t]
      | _ => [ToNativeParam name t]
      end
  | _ => [ToNativeParam name t]
  end.

Definition emitEnsureRegisteredForReturn (t : GoType) : list Stmt :=
  match indirectNamed t with
  | Some (pkg, n, UInterface true) => [EnsureRegistered (csProxyInterfaceName pkg n)]
  | _ => []
  end.

Definition positions (params : list Var) : list nat := seq 0 (length params).

(** The three loops over the parameters that every wrapper has. *)
Definition toNativeParams (params : list Var) : list Stmt :=
  i ← positions params;
  match params !! i with
  | Some p => emitToNativeParam (paramName params i) (vtype p)
  | None => []
  end.

Definition nativeArgs (params : list Var) : list string :=
  (fun i => nativeParamName (paramName params i)) <$> positions params.

Definition freeParams (params : list Var) : list Stmt :=
  i ← positions params;
  match params !! i with
  | Some p =>
      if shouldFreeAfterCall (vtype p) false
      then [FreeNativeParam (paramName params i)] else []
  | None => []
  end.

(** The [switch res.Len()] at the head of a wrapper: [None] when the member
    is skipped with a diagnostic, otherwise [returnsError].
    [tooManyIsError] tells the switch with a [default] case (package
    functions, struct methods) from the one without (interface methods). *)
Definition returnsErrorOf (tooManyIsError : bool) (res : list GoType) : option bool :=
  match res with
  | [] => Some false
  | [t] => Some (isErrorType t)
  | [_; e] => if isErrorType e then Some true else None
  | _ => if tooManyIsError then None else Some false
  end.

(** What a wrapper prints after the call and the frees (lines 697 to 728,
    and the same text at 1034 to 1065 and 1263 to 1294). *)
Definition resultTail (res : list GoType) (returnsError : bool) : list Stmt :=
  match res with
  | [] => []
  | [t] =>
      if negb returnsError then [ReturnFromNative (SrcVar "res") t true]
      else [ThrowIfErrorOf (SrcVar "res")]
  | [t; _] =>
      if returnsError then
        (if isRefnumType t
         then [IfErrorSet [DestroyRefOf SrcR0; ThrowIfErrorOf SrcR1]] else []) ++
        [VarFromNative "value" SrcR0 t true] ++
        (if negb (isRefnumType t) then [ThrowIfErrorOf SrcR1] else []) ++
        [ReturnVar "value"]
      else []
  | _ => []
  end.

Definition hasResults (res : list GoType) : bool := negb (Nat.eqb (length res) 0).

(** The body of one static method of the package class
    ([emitPackageFunctions]); [None] when the function is skipped. *)
Definition packageFunctionBody (g : Generator) (f : Func) : option (list Stmt) :=
  if negb (isSigSupported (Sig f)) then None
  else
    let params := Params (Sig f) in
    let res := Results (Sig f) in
    match returnsErrorOf true res with
    | None => None
    | Some returnsError =>
        Some (toNativeParams params ++
              [CallNative (proxyFuncName g "" (Name f)) false (nativeArgs params)
                          (hasResults res)] ++
              freeParams params ++
              resultTail res returnsError)
    end.

(** The accessors of a package variable ([emitPackageVariables]). *)
Definition packageVariableGet (g : Generator) (v : Var) : option (list Stmt) :=
  if negb (isSupported (vtype v)) then None
  else Some [CallNative ("var_get" +:+ pkgPrefix g +:+ "_" +:+ vname v) false [] true;
             ReturnFromNative (SrcVar "res") (vtype v) true].

Definition packageVariableSet (g : Generator) (v : Var) : option (list Stmt) :=
  if negb (isSupported (vtype v)) then None
  else Some (emitToNativeParam "value" (vtype v) ++
             [CallNative ("var_set" +:+ pkgPrefix g +:+ "_" +:+ vname v) false
                         [nativeParamName "value"] false]).

(** The accessors of a field of a struct ([genStructClass], lines 943 to
    968). *)
Definition structFieldGet (g : Generator) (s : structInfo) (f : Var) : option (list Stmt) :=
  if negb (isSupported (vtype f)) then None
  else Some [ThrowIfDisposed_; ThrowIfPending; IncGoRefThis;
             CallNative (proxyFuncName g (sobj s) (vname f) +:+ "_Get") true [] true;
             ReturnFromNative (SrcVar "res") (vtype f) true].

Definition structFieldSet (g : Generator) (s : structInfo) (f : Var) : option (list Stmt) :=
  if negb (isSupported (vtype f)) then None
  else Some ([ThrowIfDisposed_; ThrowIfPending; IncGoRefThis] ++
             emitToNativeParam "value" (vtype f) ++
             [CallNative (proxyFuncName g (sobj s) (vname f) +:+ "_Set") true
                         [nativeParamName "value"] false]).

(** The body of a method of a struct class (lines 971 to 1069) and of a
    method of an interface proxy (lines 1205 to 1297): [objName] is the Go
    name of the struct or interface. *)
Definition instanceMethodBody (tooManyIsError : bool) (g : Generator)
    (objName : string) (m : Func) : option (list Stmt) :=
  if negb (isSigSupported (Sig m)) then None
  else
    let params := Params (Sig m) in
    let res := Results (Sig m) in
    match returnsErrorOf tooManyIsError res with
    | None => None
    | Some returnsError =>
        Some ([ThrowIfDisposed_; ThrowIfPending; IncGoRefThis] ++
              toNativeParams params ++
              [CallNative (proxyFuncName g objName (Name m)) true (nativeArgs params)
                          (hasResults res)] ++
              freeParams params ++
              resultTail res returnsError)
    end.

Definition structMethodBody (g : Generator) (s : structInfo) (m : Func) :=
  instanceMethodBody true g (sobj s) m.

Definition interfaceMethodBody (g : Generator) (i : interfaceInfo) (m : Func) :=
  instanceMethodBody false g (iobj i) m.

(** [genConstructorFromFunc]. *)
Definition constructorBody (g : Generator) (f : Func) : list Stmt :=
  let params := Params (Sig f) in
  let res := Results (Sig f) in
  let returnsError :=
    match res with
    | [_; e] => isErrorType e
    | _ => false
    end in
  toNativeParams params ++
  [CallNative (proxyFuncName g "" (Name f)) false (nativeArgs params) true] ++
  freeParams params ++
  (if returnsError
   then [AssignRefnum SrcR0;
         IfErrorSet [DestroyRefOf SrcRefnum; ThrowIfErrorOf SrcR1]]
   else [AssignRefnum (SrcVar "res")]).

(** The parameters of a callback, wire to managed ([emitFromNativeParam]),
    and the arguments of the call ([callArgs]). *)
Definition fromNativeParams (params : list Var) : list Stmt :=
  i ← positions params;
  match params !! i with
  | Some p => [FromNativeParam (paramName params i) (vtype p)]
  | None => []
  end.

Definition callArgs (params : list Var) : list string :=
  (fun i => paramName params i +:+ "Value") <$> positions params.

(** The body of the callback trampoline of one method of an interface
    (lines 1347 to 1425).  For a result list that is none of [()], [(T)],
    [(error)] and [(T, error)] the generator prints a [try] without a
    [catch], which is no method body: [None]. *)
Definition trampolineBody (g : Generator) (i : interfaceInfo) (m : Func)
  : option (list Stmt) :=
  if negb (isSigSupported (Sig m)) then None
  else
    let params := Params (Sig m) in
    let res := Results (Sig m) in
    let prefix := GetInstance :: fromNativeParams params in
    let method := csIdentifier (Name m) in
    let label := iobj i +:+ "." +:+ Name m in
    match res with
    | [] =>
        Some [Try (prefix ++ [CallInstance method (callArgs params) None])
                  [ReportUnhandled label];
              ReturnVoid]
    | [t] =>
        if isErrorType t then
          Some [Try (prefix ++ [CallInstance method (callArgs params) None;
                                ReturnNullRefNum])
                    [EnsureRegistered "ProxyError"; ReturnIncRefGoError]]
        else
          Some [Try (prefix ++ emitEnsureRegisteredForReturn t ++
                     [CallInstance method (callArgs params) (Some "result");
                      ReturnToNative "result" t])
                    [ReportUnhandled label; ReturnDefault t]]
    | [t; e] =>
        if isErrorType e then
          let structName :=
            Collector.csReturnStructName IsLetterHigh (cproxyName g (iobj i) (Name m)) in
          Some [Try (prefix ++ emitEnsureRegisteredForReturn t ++
                     [CallInstance method (callArgs params) (Some "value");
                      VarErrorNull;
                      ReturnRecord structName (R0ToNative "value" t)])
                    [EnsureRegistered "ProxyError";
                     VarErrorIncRefGoError;
                     ReturnRecord structName (R0Default t)]]
        else None
    | _ => None
    end.

(** The setters that [EnsureRegistered] of the proxy of [i] calls, with the
    delegate handed to each (lines 1304 to 1311). *)
Definition registrationsOf (g : Generator) (i : interfaceInfo) : list (string * string) :=
  m ← callable i;
  if negb (isSigSupported (Sig m)) then []
  else [("go_seq_set_cproxy" +:+ pkgPrefix g +:+ "_" +:+ iobj i +:+ "_" +:+ Name m,
         csIdentifier ("Callback_" +:+ Name m +:+ "Handler"))].

End Emitters.

(** *** What the printed statements do *)

(** The value of a local variable: a wire value, a managed value, or the
    exception that a [catch] binds. *)
Inductive Val :=
  | VN (n : NVal)
  | VM (m : MVal)
  | VEx (ex : Exception).

(** How a statement ends when it does not throw: control goes on with the
    local variables, or the method returns. *)
Inductive Outcome :=
  | Continue (env : gmap string Val)
  | Return (v : option Val).

(** The C# compiler sees to it that a variable is assigned before it is
    read; the defaults below stand for the cases that cannot arise. *)
Definition nvar (env : gmap string Val) (x : string) : NVal :=
  match env !! x with Some (VN n) => n | _ => NInt 0 end.
Definition mvar (env : gmap string Val) (x : string) : MVal :=
  match env !! x with Some (VM m) => m | _ => MObject Null end.
Definition exvar (env : gmap string Val) : Exception :=
  match env !! "ex" with Some (VEx e) => e | _ => UserException "" end.

(** [defaultNativeReturn]: [0], [new NString()], [new NByteslice()] or
    [Seq.NullRefNum]. *)
Definition defaultNativeReturn (t : GoType) : NVal :=
  match t with
  | Basic KString | Basic KUntypedString => NString 0 0
  | Basic _ => NInt 0
  | Slice _ => NByteslice 0 0
  | Pointer _ | Named _ _ _ => NInt NullRefNum
  | Unsupported => NInt 0
  end.

Section Semantics.

(** The world around one method: [go] is what the Go side does on a native
    call, [impl] what the managed object at an address does when a method
    of it is called, [callbacks] the setters that [EnsureRegistered] of a
    proxy class calls, [this] the address of the proxy whose method runs,
    and [proxyClass] the proxy class into which [genInterface] prints the
    method, whose interface a trampoline casts its target to.
    [implements], [delegate], [describe] and [universe] are those of the
    runtime. *)
Variable IsLetterHigh : Z -> bool.
Variable go : string -> list NVal -> M NVal.
Variable impl : positive -> string -> list MVal -> M MVal.
Variable callbacks : string -> list (string * string).
Variable this : positive.
Variable implements : positive -> string -> bool.
Variable delegate : positive -> Exception -> string -> M unit.
Variable describe : Exception -> string.
Variable universe : Generator.
Variable proxyClass : string.

Local Abbreviation csIdentifier := (csIdentifier IsLetterHigh).
Local Abbreviation csProxyInterfaceName := (csProxyInterfaceName IsLetterHigh).
Local Abbreviation Proxy_FromRefnum := (Proxy_FromRefnum implements).
Local Abbreviation ThrowIfError := (ThrowIfError go impl implements describe universe).
Local Abbreviation ReportUnhandledException := (ReportUnhandledException delegate).

Definition thisRefnum : M Z :=
  gets (fun st => match objects st !! this with
                  | Some (ProxyObject _ r _) => r
                  | _ => 0
                  end).

Definition thisDisposed : M bool :=
  gets (fun st => match objects st !! this with
                  | Some (ProxyObject _ _ d) => d
                  | _ => false
                  end).

Definition readSource (src : Source) (env : gmap string Val) : M NVal :=
  match src with
  | SrcVar x => ret (nvar env x)
  | SrcR0 => ret (r0Of (nvar env "res"))
  | SrcR1 => ret (r1Of (nvar env "res"))
  | SrcRefnum => r <- thisRefnum ;; ret (NInt r)
  end.

(** [EnsureRegistered] of a proxy class: the compare-and-swap on
    [registered], then one setter call for each callback. *)
Definition ensureRegistered (proxyName : string) : M unit :=
  fun st =>
    if bool_decide (proxyName ∈ registered st) then (Ok tt, st)
    else (Ok tt,
          foldl (fun st c => emit (Native_SetCallback c.1 c.2) st)
                (set_registered ({[proxyName]} ∪ registered st) st)
                (callbacks proxyName)).

(** The conversion printed by [emitToNativeParam] and
    [nativeValueExpression]. *)
Definition toNative (t : GoType) (v : MVal) : M NVal :=
  match t with
  | Basic KBool | Basic KUntypedBool => ret (NInt (if asBool v then 1 else 0))
  | Basic KString | Basic KUntypedString => StringToNString (asString v)
  | Basic _ => ret (NInt (asInt v))
  | Slice _ => BytesToNByteslice (asBytes v)
  | Pointer _ | Named _ _ _ => r <- IncRef (asObject v) ;; ret (NInt r)
  | Unsupported => ret (NInt (asInt v))
  end.

(** The conversion printed by [managedFromNativeExpr]. *)
Definition fromNative (t : GoType) (n : NVal) (freeBytes : bool) : M MVal :=
  match t with
  | Basic KBool | Basic KUntypedBool => ret (MBool (negb (intOf n =? 0)))
  | Basic KString | Basic KUntypedString =>
      s <- NStringToString (ptrOf n) (lenOf n) ;; ret (MString (Some s))
  | Basic _ => ret (MInt (intOf n))
  | Slice _ =>
      b <- NBytesliceToBytes (ptrOf n) (lenOf n) freeBytes ;; ret (MBytes b)
  | Pointer _ | Named _ _ _ =>
      match indirectNamed t with
      | Some (pkg, name, UInterface _) =>
          o <- Proxy_FromRefnum (csProxyInterfaceName pkg name) (intOf n) ;;
          ret (MObject o)
      | Some (pkg, name, _) =>
          o <- Struct_FromRefnum (csIdentifier name) (intOf n) ;; ret (MObject o)
      | None => ret (MObject Null)
      end
  | Unsupported => ret (MObject Null)
  end.

(** The conversion printed by [emitFromNativeParam]: byte slices are not
    freed, and what is no named type is cast. *)
Definition fromNativeParam (t : GoType) (n : NVal) : M MVal :=
  match t with
  | Pointer _ | Named _ _ _ =>
      match indirectNamed t with
      | Some _ => fromNative t n false
      | None => ret (MInt (intOf n))
      end
  | Unsupported => ret (MInt (intOf n))
  | _ => fromNative t n false
  end.

Definition incRefGoError (env : gmap string Val) : M Z :=
  o <- new (GoErrorObject (exvar env)) ;; IncRef o.

Definition continue_ (env : gmap string Val) : M Outcome := ret (Continue env).

Definition execSeq (exec : Stmt -> gmap string Val -> M Outcome) :=
  fix seq (l : list Stmt) (env : gmap string Val) : M Outcome :=
    match l with
    | [] => continue_ env
    | s :: rest =>
        o <- exec s env ;;
        match o with
        | Continue env' => seq rest env'
        | Return v => ret (Return v)
        end
    end.

Fixpoint exec (s : Stmt) (env : gmap string Val) {struct s} : M Outcome :=
  match s with
  | ThrowIfDisposed_ =>
      d <- thisDisposed ;;
      if d then throw ObjectDisposedException else continue_ env
  | ThrowIfPending => ThrowIfPendingException ;;; continue_ env
  | IncGoRefThis => r <- thisRefnum ;; IncGoRef r ;;; continue_ env
  | EnsureRegistered proxyName => ensureRegistered proxyName ;;; continue_ env
  | ToNativeParam name t =>
      n <- toNative t (mvar env name) ;;
      continue_ (<[nativeParamName name := VN n]> env)
  | CallNative cName withRefnum args bindRes =>
      r <- thisRefnum ;;
      let argv := (if withRefnum then [NInt r] else []) ++ (nvar env <$> args) in
      native (Native_Call cName argv) ;;;
      res <- go cName argv ;;
      continue_ (if bindRes then <["res" := VN res]> env else env)
  | FreeNativeParam name =>
      (if ptrOf (nvar env (nativeParamName name)) =? 0 then ret tt
       else Free (ptrOf (nvar env (nativeParamName name)))) ;;;
      continue_ env
  | ReturnFromNative src t freeBytes =>
      n <- readSource src env ;;
      v <- fromNative t n freeBytes ;;
      ret (Return (Some (VM v)))
  | VarFromNative target src t freeBytes =>
      n <- readSource src env ;;
      v <- fromNative t n freeBytes ;;
      continue_ (<[target := VM v]> env)
  | IfErrorSet body =>
      if intOf (r1Of (nvar env "res")) =? NullRefNum then continue_ env
      else
        o <- execSeq exec body env ;;
        match o with
        | Continue _ => continue_ env
        | Return v => ret (Return v)
        end
  | DestroyRefOf src =>
      n <- readSource src env ;; DestroyRef (intOf n) ;;; continue_ env
  | ThrowIfErrorOf src =>
      n <- readSource src env ;; ThrowIfError (intOf n) ;;; continue_ env
  | ReturnVar name => ret (Return (env !! name))
  | AssignRefnum src =>
      n <- readSource src env ;;
      modify (fun st =>
                match objects st !! this with
                | Some (ProxyObject c _ d) =>
                    set_objects (<[this := ProxyObject c (intOf n) d]> (objects st))
                                (nextObject st) st
                | _ => st
                end) ;;;
      continue_ env
  | Try body handler =>
      fun st =>
        match execSeq exec body env st with
        | (Throw ex, st') =>
            (o <- execSeq exec handler (<["ex" := VEx ex]> env) ;;
             match o with
             | Continue _ => continue_ env
             | Return v => ret (Return v)
             end) st'
        | (Ok (Continue _), st') => (Ok (Continue env), st')
        | other => other
        end
  | GetInstance =>
      o <- GetRef (intOf (nvar env "refnum")) ;;
      instance <- castTo implements proxyClass o ;;
      continue_ (<["instance" := VM (MObject instance)]> env)
  | FromNativeParam name t =>
      v <- fromNativeParam t (nvar env name) ;;
      continue_ (<[name +:+ "Value" := VM v]> env)
  | CallInstance method args target =>
      match asObject (mvar env "instance") with
      | Null => throw (UserException "NullReferenceException")
      | Obj a =>
          v <- impl a method (mvar env <$> args) ;;
          continue_ (match target with
                     | Some x => <[x := VM v]> env
                     | None => env
                     end)
      end
  | ReturnNullRefNum => ret (Return (Some (VN (NInt NullRefNum))))
  | ReturnIncRefGoError =>
      r <- incRefGoError env ;; ret (Return (Some (VN (NInt r))))
  | ReportUnhandled method =>
      ReportUnhandledException (exvar env) method ;;; continue_ env
  | ReturnDefault t => ret (Return (Some (VN (defaultNativeReturn t))))
  | ReturnToNative name t =>
      n <- toNative t (mvar env name) ;; ret (Return (Some (VN n)))
  | VarErrorNull => continue_ (<["error" := VN (NInt NullRefNum)]> env)
  | VarErrorIncRefGoError =>
      r <- incRefGoError env ;; continue_ (<["error" := VN (NInt r)]> env)
  | ReturnRecord _ r0 =>
      n <- match r0 with
           | R0ToNative name t => toNative t (mvar env name)
           | R0Default t => ret (defaultNativeReturn t)
           end ;;
      ret (Return (Some (VN (NRecord n (nvar env "error")))))
  | ReturnVoid => ret (Return None)
  end.

(** Running a method body. *)
Definition run_body (body : list Stmt) (env : gmap string Val) : M Outcome :=
  execSeq exec body env.

End Semantics.

(** *** The crossings from managed code into Go *)

(** Every member through which managed code calls Go: the static members of
    the package class, the members of a struct class, the methods of an
    interface proxy, and the public constructors. *)
Inductive Crossing :=
  | PackageFunction (f : Func)
  | PackageVariableGet (v : Var)
  | PackageVariableSet (v : Var)
  | PublicConstructorOf (f : Func)
  | StructFieldGet (s : structInfo) (f : Var)
  | StructFieldSet (s : structInfo) (f : Var)
  | StructMethod (s : structInfo) (m : Func)
  | InterfaceMethod (i : interfaceInfo) (m : Func).

(** The members of an instance, as opposed to the static ones and the
    constructors. *)
Definition isInstanceMember (c : Crossing) : bool :=
  match c with
  | StructFieldGet _ _ | StructFieldSet _ _ | StructMethod _ _
  | InterfaceMethod _ _ => true
  | _ => false
  end.

Section Crossings.

Variable isSigSupported : Signature -> bool.
Variable isSupported : GoType -> bool.
Variable basicParamName : list Var -> nat -> string.
Variable IsLetterHigh : Z -> bool.
Variable go : string -> list NVal -> M NVal.
Variable impl : positive -> string -> list MVal -> M MVal.
Variable callbacks : string -> list (string * string).
Variable this : positive.
Variable implements : positive -> string -> bool.
Variable delegate : positive -> Exception -> string -> M unit.
Variable describe : Exception -> string.
Variable universe : Generator.
Variable proxyClass : string.

Local Abbreviation paramName := (paramName basicParamName IsLetterHigh).
Local Abbreviation toNativeParams := (toNativeParams basicParamName IsLetterHigh).
Local Abbreviation nativeArgs := (nativeArgs basicParamName IsLetterHigh).
Local Abbreviation freeParams := (freeParams basicParamName IsLetterHigh).
Local Abbreviation fromNativeParams := (fromNativeParams basicParamName IsLetterHigh).
Local Abbreviation callArgs := (callArgs basicParamName IsLetterHigh).
Local Abbreviation emitToNativeParam := (emitToNativeParam IsLetterHigh).
Local Abbreviation emitEnsureRegisteredForReturn :=
  (emitEnsureRegisteredForReturn IsLetterHigh).
Local Abbreviation packageFunctionBody :=
  (packageFunctionBody isSigSupported basicParamName IsLetterHigh).
Local Abbreviation packageVariableGet := (packageVariableGet isSupported).
Local Abbreviation packageVariableSet := (packageVariableSet isSupported IsLetterHigh).
Local Abbreviation structFieldGet := (structFieldGet isSupported).
Local Abbreviation structFieldSet := (structFieldSet isSupported IsLetterHigh).
Local Abbreviation structMethodBody :=
  (structMethodBody isSigSupported basicParamName IsLetterHigh).
Local Abbreviation interfaceMethodBody :=
  (interfaceMethodBody isSigSupported basicParamName IsLetterHigh).
Local Abbreviation constructorBody := (constructorBody basicParamName IsLetterHigh).
Local Abbreviation trampolineBody :=
  (trampolineBody isSigSupported basicParamName IsLetterHigh).
Local Abbreviation exec :=
  (exec IsLetterHigh go impl callbacks this implements delegate describe universe
        proxyClass).
Local Abbreviation run_body :=
  (run_body IsLetterHigh go impl callbacks this implements delegate describe universe
            proxyClass).
Local Abbreviation ensureRegistered := (ensureRegistered callbacks).
Local Abbreviation ThrowIfError := (ThrowIfError go impl implements describe universe).
Local Abbreviation ReportUnhandledException := (ReportUnhandledException delegate).

Definition crossingBody (g : Generator) (c : Crossing) : option (list Stmt) :=
  match c with
  | PackageFunction f => packageFunctionBody g f
  | PackageVariableGet v => packageVariableGet g v
  | PackageVariableSet v => packageVariableSet g v
  | PublicConstructorOf f => Some (constructorBody g f)
  | StructFieldGet s f => structFieldGet g s f
  | StructFieldSet s f => structFieldSet g s f
  | StructMethod s m => structMethodBody g s m
  | InterfaceMethod i m => interfaceMethodBody g i m
  end.

(** **** Sequences *)

Lemma run_body_nil env st : run_body [] env st = (Ok (Continue env), st).
Proof. reflexivity. Qed.

Lemma run_body_cons s rest env st :
  run_body (s :: rest) env st =
  match exec s env st with
  | (Ok (Continue env'), st') => run_body rest env' st'
  | (Ok (Return v), st') => (Ok (Return v), st')
  | (Throw e, st') => (Throw e, st')
  | (FailFast, st') => (FailFast, st')
  end.
Proof.
  unfold Emit.run_body. simpl. unfold bind.
  destruct (Emit.exec _ _ _ _ _ _ _ _ _ _ s env st) as [[[env'|v]|e|] st']; reflexivity.
Qed.

Lemma run_body_app a b env st :
  run_body (a ++ b) env st =
  match run_body a env st with
  | (Ok (Continue env'), st') => run_body b env' st'
  | other => other
  end.
Proof.
  revert env st. induction a as [|s a IH]; intros env st.
  - reflexivity.
  - rewrite <- app_comm_cons, !run_body_cons.
    destruct (exec s env st) as [[[env'|v]|e|] st']; auto.
Qed.

Lemma run_body_try body handler rest env st :
  run_body (Try body handler :: rest) env st =
  match run_body body env st with
  | (Ok (Continue _), st') => run_body rest env st'
  | (Ok (Return v), st') => (Ok (Return v), st')
  | (Throw ex, st') =>
      match run_body handler (<["ex" := VEx ex]> env) st' with
      | (Ok (Continue _), st'') => run_body rest env st''
      | other => other
      end
  | (FailFast, st') => (FailFast, st')
  end.
Proof.
  rewrite run_body_cons. simpl. unfold Emit.run_body.
  destruct (execSeq _ body env st) as [[[env'|v]|ex|] st']; try reflexivity.
  unfold bind.
  destruct (execSeq _ handler _ st') as [[[env''|v]|ex'|] st'']; reflexivity.
Qed.

(** **** Draining the queue of pending exceptions *)

Ltac not_among H :=
  repeat (apply elem_of_cons in H as [H|H]; [discriminate H|]);
  try (apply elem_of_nil in H; contradiction).

Lemma no_drain_in body :
  (forall s, s ∈ body -> ThrowIfPending ∉ statements s) ->
  ThrowIfPending ∉ allStatements body.
Proof.
  intros H Hin. unfold allStatements in Hin.
  apply list_elem_of_bind in Hin as (s & Hin & Hs). now apply (H s Hs).
Qed.

Lemma drain_not_in_emitToNativeParam name t s :
  s ∈ emitToNativeParam name t -> ThrowIfPending ∉ statements s.
Proof.
  intros H. unfold Emit.emitToNativeParam in H.
  assert (Hone : s = ToNativeParam name t \/ (exists p, s = EnsureRegistered p)).
  { destruct t as [k|e|e|pkg n u|];
      try (apply list_elem_of_singleton in H; now left).
    - destruct (indirectNamed (Pointer e)) as [[[pkg n] [|[]|]]|];
        repeat (apply elem_of_cons in H as [H|H]; [subst; eauto|]);
        now apply elem_of_nil in H.
    - destruct (indirectNamed (Named pkg n u)) as [[[pkg' n'] [|[]|]]|];
        repeat (apply elem_of_cons in H as [H|H]; [subst; eauto|]);
        now apply elem_of_nil in H. }
  destruct Hone as [->|[p ->]]; intros Hin; simpl in Hin; not_among Hin.
Qed.

Lemma drain_not_in_toNativeParams params s :
  s ∈ toNativeParams params -> ThrowIfPending ∉ statements s.
Proof.
  intros H. unfold Emit.toNativeParams in H.
  apply list_elem_of_bind in H as (i & H & _).
  destruct (params !! i); [|now apply elem_of_nil in H].
  now apply drain_not_in_emitToNativeParam in H.
Qed.

Lemma drain_not_in_freeParams params s :
  s ∈ freeParams params -> ThrowIfPending ∉ statements s.
Proof.
  intros H. unfold Emit.freeParams in H.
  apply list_elem_of_bind in H as (i & H & _).
  destruct (params !! i); [|now apply elem_of_nil in H].
  destruct (shouldFreeAfterCall _ _); [|now apply elem_of_nil in H].
  apply list_elem_of_singleton in H as ->. intros Hin. simpl in Hin. not_among Hin.
Qed.

Lemma drain_not_in_resultTail res returnsError s :
  s ∈ resultTail res returnsError -> ThrowIfPending ∉ statements s.
Proof.
  intros H Hin. unfold resultTail in H.
  destruct res as [|t [|e [|x rest]]]; try (now apply elem_of_nil in H).
  - destruct (negb returnsError);
      apply list_elem_of_singleton in H as ->; simpl in Hin; not_among Hin.
  - destruct returnsError; [|now apply elem_of_nil in H].
    destruct (isRefnumType t); simpl in H;
      repeat (apply elem_of_cons in H as [->|H]; [simpl in Hin; not_among Hin|]);
      now apply elem_of_nil in H.
Qed.

Lemma exec_live env st :
  thisDisposed this st = (Ok false, st) ->
  exec ThrowIfDisposed_ env st = (Ok (Continue env), st).
Proof. intros H. simpl. unfold bind. now rewrite H. Qed.

Lemma exec_drain env st ex method q :
  pendingExceptions st = (ex, method) :: q ->
  exec ThrowIfPending env st =
  (Throw (PendingCallbackException method ex), set_pending q st).
Proof. intros H. simpl. unfold bind, ThrowIfPendingException. now rewrite H. Qed.

(** C2 (as the code has it).  [ThrowIfPendingException] takes at most one
    entry off the queue and throws if there was one.  Every member of an
    instance (the accessors of a struct field, the methods of a struct and
    of an interface proxy) checks for disposal, then drains, and only then
    does anything else: with an entry queued, a call on a live proxy ends
    with that entry thrown and nothing else done.  In the static members
    (package functions, accessors of package variables) and in the public
    constructors no call of [ThrowIfPendingException] is printed, at the
    top or inside a block. *)
Theorem pending_exception_draining (g : Generator) (c : Crossing) (body : list Stmt) :
  crossingBody g c = Some body ->
  (forall st,
     match pendingExceptions st with
     | [] => ThrowIfPendingException st = (Ok tt, st)
     | (ex, method) :: q =>
         ThrowIfPendingException st =
         (Throw (PendingCallbackException method ex), set_pending q st)
     end) /\
  if isInstanceMember c then
    (exists rest, body = ThrowIfDisposed_ :: ThrowIfPending :: IncGoRefThis :: rest) /\
    (forall env st ex method q,
       thisDisposed this st = (Ok false, st) ->
       pendingExceptions st = (ex, method) :: q ->
       run_body body env st =
       (Throw (PendingCallbackException method ex), set_pending q st))
  else ThrowIfPending ∉ allStatements body.
Proof.
  intros Hbody. split.
  { intros st. unfold ThrowIfPendingException.
    destruct (pendingExceptions st) as [|[ex method] q]; reflexivity. }
  assert (Hdrain : forall rest env st ex method q,
            thisDisposed this st = (Ok false, st) ->
            pendingExceptions st = (ex, method) :: q ->
            run_body (ThrowIfDisposed_ :: ThrowIfPending :: IncGoRefThis :: rest) env st =
            (Throw (PendingCallbackException method ex), set_pending q st)).
  { intros rest env st ex method q Hd Hq.
    rewrite run_body_cons, (exec_live _ _ Hd).
    now rewrite run_body_cons, (exec_drain _ _ _ _ _ Hq). }
  destruct c as [f|v|v|f|s f|s f|s m|i m]; simpl in *.
  - unfold Emit.packageFunctionBody in Hbody.
    destruct (negb (isSigSupported (Sig f))); [discriminate|].
    destruct (returnsErrorOf true (Results (Sig f))) as [re|]; [|discriminate].
    injection Hbody as <-. apply no_drain_in. intros s H.
    apply elem_of_app in H as [H|H]; [now apply drain_not_in_toNativeParams in H|].
    apply elem_of_cons in H as [->|H]; [intros Hin; simpl in Hin; not_among Hin|].
    apply elem_of_app in H as [H|H]; [now apply drain_not_in_freeParams in H|].
    now apply drain_not_in_resultTail in H.
  - unfold Emit.packageVariableGet in Hbody.
    destruct (negb (isSupported (vtype v))); [discriminate|].
    injection Hbody as <-. apply no_drain_in. intros s H.
    repeat (apply elem_of_cons in H as [->|H]; [intros Hin; simpl in Hin; not_among Hin|]).
    now apply elem_of_nil in H.
  - unfold Emit.packageVariableSet in Hbody.
    destruct (negb (isSupported (vtype v))); [discriminate|].
    injection Hbody as <-. apply no_drain_in. intros s H.
    apply elem_of_app in H as [H|H]; [now apply drain_not_in_emitToNativeParam in H|].
    apply list_elem_of_singleton in H as ->. intros Hin. simpl in Hin. not_among Hin.
  - injection Hbody as <-. unfold Emit.constructorBody. apply no_drain_in. intros s H.
    apply elem_of_app in H as [H|H]; [now apply drain_not_in_toNativeParams in H|].
    apply elem_of_cons in H as [->|H]; [intros Hin; simpl in Hin; not_among Hin|].
    apply elem_of_app in H as [H|H]; [now apply drain_not_in_freeParams in H|].
    destruct (match Results (Sig f) with [_; e] => isErrorType e | _ => false end);
      repeat (apply elem_of_cons in H as [->|H]; [intros Hin; simpl in Hin; not_among Hin|]);
      now apply elem_of_nil in H.
  - unfold Emit.structFieldGet in Hbody.
    destruct (negb (isSupported (vtype f))); [discriminate|].
    injection Hbody as <-. split; [eexists; reflexivity|]. apply Hdrain.
  - unfold Emit.structFieldSet in Hbody.
    destruct (negb (isSupported (vtype f))); [discriminate|].
    injection Hbody as <-. split; [eexists; reflexivity|]. apply Hdrain.
  - unfold Emit.structMethodBody, instanceMethodBody in Hbody.
    destruct (negb (isSigSupported (Sig m))); [discriminate|].
    destruct (returnsErrorOf true (Results (Sig m))) as [re|]; [|discriminate].
    injection Hbody as <-. split; [eexists; reflexivity|]. apply Hdrain.
  - unfold Emit.interfaceMethodBody, instanceMethodBody in Hbody.
    destruct (negb (isSigSupported (Sig m))); [discriminate|].
    destruct (returnsErrorOf false (Results (Sig m))) as [re|]; [|discriminate].
    injection Hbody as <-. split; [eexists; reflexivity|]. apply Hdrain.
Qed.

(** **** The method [Error] of [ProxyError] *)

(** The one method of the universe's [error]. *)
Definition errorMethod : Func :=
  {| Name := "Error"; Sig := {| Params := []; Results := [Basic KString] |} |}.

(** What the runtime calls when it asks a [ProxyError] for its message is
    the body that [genInterface] prints for that method in the universe. *)
Lemma ProxyError_Error_printed (i : interfaceInfo) cls r d env st :
  isSigSupported (Sig errorMethod) = true -> iobj i = "error" ->
  objects st !! this = Some (ProxyObject cls r d) ->
  exists body,
    interfaceMethodBody universe i errorMethod = Some body /\
    run_body body env st =
    (s <- ProxyError_Error go universe r d ;;
     ret (Return (Some (VM (MString (Some s)))))) st.
Proof.
  intros Hsup Hi Hthis. eexists. split.
  { unfold Emit.interfaceMethodBody, instanceMethodBody. rewrite Hsup, Hi. reflexivity. }
  cbn [app Emit.toNativeParams Emit.freeParams Emit.nativeArgs positions
       errorMethod Sig Params Results length seq mbind list_bind fmap list_fmap
       resultTail negb hasResults Nat.eqb Name].
  unfold Emit.run_body. cbn [execSeq Emit.exec isErrorType negb].
  unfold ProxyError_Error, thisDisposed, thisRefnum, IncGoRef, native, readSource,
    continue_, bind, gets, modify, ret.
  rewrite Hthis. destruct d; [reflexivity|].
  destruct (ThrowIfPendingException st) as [[[]|e|] s1] eqn:Hp; try reflexivity.
  assert (Hs1 : objects s1 !! this = Some (ProxyObject cls r false)).
  { unfold ThrowIfPendingException in Hp.
    destruct (pendingExceptions st) as [|[ex m] q]; [|discriminate].
    injection Hp as <-. exact Hthis. }
  cbn [objects emit]. rewrite Hs1. cbn [app fmap list_fmap].
  destruct (go _ _ _) as [[res|e|] s2]; try reflexivity.
  unfold nvar. rewrite lookup_insert_eq. cbn [Emit.fromNative]. unfold bind, ret.
  destruct (NStringToString (ptrOf res) (lenOf res) s2) as [[v|e|] s3]; reflexivity.
Qed.

(** **** Cleaning up after an error *)

(** The function behind a call, for the crossings that call one. *)
Definition calleeOf (c : Crossing) : option Func :=
  match c with
  | PackageFunction f | PublicConstructorOf f => Some f
  | StructMethod _ m | InterfaceMethod _ m => Some m
  | _ => None
  end.

(** What such a crossing prints up to and with the frees after the call. *)
Definition callPrefix (g : Generator) (c : Crossing) : list Stmt :=
  match c with
  | PackageFunction f =>
      toNativeParams (Params (Sig f)) ++
      [CallNative (proxyFuncName g "" (Name f)) false (nativeArgs (Params (Sig f)))
                  (hasResults (Results (Sig f)))] ++
      freeParams (Params (Sig f))
  | PublicConstructorOf f =>
      toNativeParams (Params (Sig f)) ++
      [CallNative (proxyFuncName g "" (Name f)) false (nativeArgs (Params (Sig f))) true] ++
      freeParams (Params (Sig f))
  | StructMethod s m =>
      [ThrowIfDisposed_; ThrowIfPending; IncGoRefThis] ++
      toNativeParams (Params (Sig m)) ++
      [CallNative (proxyFuncName g (sobj s) (Name m)) true (nativeArgs (Params (Sig m)))
                  (hasResults (Results (Sig m)))] ++
      freeParams (Params (Sig m))
  | InterfaceMethod i m =>
      [ThrowIfDisposed_; ThrowIfPending; IncGoRefThis] ++
      toNativeParams (Params (Sig m)) ++
      [CallNative (proxyFuncName g (iobj i) (Name m)) true (nativeArgs (Params (Sig m)))
                  (hasResults (Results (Sig m)))] ++
      freeParams (Params (Sig m))
  | _ => []
  end.

(** What it prints after that when the results are [(t, error)] and [t] is
    represented by a refnum. *)
Definition cleanupTail (c : Crossing) (t : GoType) : list Stmt :=
  match c with
  | PublicConstructorOf _ =>
      [AssignRefnum SrcR0; IfErrorSet [DestroyRefOf SrcRefnum; ThrowIfErrorOf SrcR1]]
  | _ =>
      [IfErrorSet [DestroyRefOf SrcR0; ThrowIfErrorOf SrcR1];
       VarFromNative "value" SrcR0 t true;
       ReturnVar "value"]
  end.

(** [ThrowIfError] on a refnum that is not the sentinel never returns: it
    throws, or the process dies under it. *)
Lemma ThrowIfError_never_returns r1 st :
  r1 <> NullRefNum ->
  (exists ex st', ThrowIfError r1 st = (Throw ex, st')) \/
  (exists st', ThrowIfError r1 st = (FailFast, st')).
Proof.
  intros Hr. unfold Runtime.ThrowIfError.
  destruct (Z.eqb_spec r1 NullRefNum); [contradiction|].
  unfold bind.
  destruct (Proxy_FromRefnum implements "ProxyError" r1 st) as [[error|e|] s];
    [|left; eauto|right; eauto].
  destruct (new_GoException go impl describe universe error s) as [[ex|e|] s'];
    [left|left|right]; eauto.
Qed.

(** When [FromRefnum] finds the error and its [Error()] returns, what is
    thrown is the [GoException] of the two. *)
Lemma ThrowIfError_GoException r1 st error s message s' :
  r1 <> NullRefNum ->
  Proxy_FromRefnum implements "ProxyError" r1 st = (Ok error, s) ->
  match error with
  | Null => ret None
  | Obj a => Error_Error go impl describe universe a
  end s = (Ok message, s') ->
  ThrowIfError r1 st = (Throw (GoException error (default "Go error" message)), s').
Proof.
  intros Hr Hfrom Hmsg. unfold Runtime.ThrowIfError.
  destruct (Z.eqb_spec r1 NullRefNum); [contradiction|].
  unfold bind at 1. rewrite Hfrom. unfold new_GoException, bind.
  now rewrite Hmsg.
Qed.

Lemma cleanup_block src env st r0 r1 :
  readSource this src env st = (Ok (NInt r0), st) ->
  nvar env "res" = NRecord (NInt r0) (NInt r1) -> r1 <> NullRefNum ->
  forall rest,
    run_body (IfErrorSet [DestroyRefOf src; ThrowIfErrorOf SrcR1] :: rest) env st =
    match ThrowIfError r1 (emit (Native_DestroyRef r0) st) with
    | (Ok _, st2) => run_body rest env st2
    | (Throw ex, st2) => (Throw ex, st2)
    | (FailFast, st2) => (FailFast, st2)
    end.
Proof.
  intros Hsrc Hres Hr rest.
  rewrite run_body_cons. cbn [Emit.exec]. rewrite Hres. cbn [r1Of intOf].
  destruct (Z.eqb_spec r1 NullRefNum); [contradiction|].
  unfold bind at 1. cbn [execSeq]. unfold bind at 1.
  cbn [Emit.exec]. unfold bind at 1. rewrite Hsrc.
  unfold bind at 1. cbn [intOf]. unfold DestroyRef, native, modify at 1.
  unfold continue_ at 1, ret at 1. unfold bind at 1.
  cbn [Emit.exec]. unfold bind at 1. unfold readSource at 1, ret at 1.
  rewrite Hres. cbn [r1Of intOf]. unfold bind at 1.
  destruct (ThrowIfError r1 (emit (Native_DestroyRef r0) st)) as [[[]|ex|] st2];
    reflexivity.
Qed.

(** C4.  In the wrapper of a package function, of a method of a struct or
    of an interface proxy, and in a public constructor, when the results
    are [(t, error)] and [t] is represented by a refnum: once the call has
    come back with the record [(r0, r1)] and [r1] is not the sentinel, the
    wrapper calls [DestroyRef(r0)] and then, with nothing in between,
    [ThrowIfError(r1)], and ends as that call ends: it returns nothing.
    [ThrowIfError] builds the exception from the error, which calls
    [Error()] of it; when the error is found and that call returns, the
    wrapper throws the [GoException] of the error and its message.  (In a
    constructor [this] is the object under construction.) *)
Theorem refnum_error_cleanup (g : Generator) (c : Crossing) (f : Func)
    (body : list Stmt) (t e : GoType) :
  calleeOf c = Some f -> Results (Sig f) = [t; e] ->
  isErrorType e = true -> isRefnumType t = true ->
  crossingBody g c = Some body ->
  body = callPrefix g c ++ cleanupTail c t /\
  forall env0 st0 env st r0 r1,
    run_body (callPrefix g c) env0 st0 = (Ok (Continue env), st) ->
    nvar env "res" = NRecord (NInt r0) (NInt r1) -> r1 <> NullRefNum ->
    (forall f', c = PublicConstructorOf f' ->
       exists cls r d, objects st !! this = Some (ProxyObject cls r d)) ->
    exists st1,
      log st1 = log st ++ [Native_DestroyRef r0] /\
      pendingExceptions st1 = pendingExceptions st /\
      Tracker st1 = Tracker st /\
      ((exists ex st2, ThrowIfError r1 st1 = (Throw ex, st2) /\
                       run_body body env0 st0 = (Throw ex, st2)) \/
       (exists st2, ThrowIfError r1 st1 = (FailFast, st2) /\
                    run_body body env0 st0 = (FailFast, st2))) /\
      (forall error s message s',
         Proxy_FromRefnum implements "ProxyError" r1 st1 = (Ok error, s) ->
         match error with
         | Null => ret None
         | Obj a => Error_Error go impl describe universe a
         end s = (Ok message, s') ->
         run_body body env0 st0 =
         (Throw (GoException error (default "Go error" message)), s')).
Proof.
  intros Hf Hres He Ht Hbody.
  assert (Heq : body = callPrefix g c ++ cleanupTail c t).
  { destruct c as [f'|v|v|f'|s f'|s f'|s m|i m]; simpl in Hf; try discriminate;
      injection Hf as ->; simpl in Hbody.
    - unfold Emit.packageFunctionBody in Hbody.
      destruct (negb (isSigSupported (Sig f))); [discriminate|].
      rewrite Hres in *. simpl in Hbody. rewrite He in Hbody.
      injection Hbody as <-. cbn [resultTail]. rewrite Ht. simpl.
      rewrite ?Hres, <- ?app_assoc. reflexivity.
    - injection Hbody as <-. unfold Emit.constructorBody. rewrite Hres, He. simpl.
      rewrite <- ?app_assoc. reflexivity.
    - unfold Emit.structMethodBody, instanceMethodBody in Hbody.
      destruct (negb (isSigSupported (Sig f))); [discriminate|].
      rewrite Hres in *. simpl in Hbody. rewrite He in Hbody.
      injection Hbody as <-. cbn [resultTail]. rewrite Ht. simpl.
      rewrite ?Hres, <- ?app_assoc. reflexivity.
    - unfold Emit.interfaceMethodBody, instanceMethodBody in Hbody.
      destruct (negb (isSigSupported (Sig f))); [discriminate|].
      rewrite Hres in *. simpl in Hbody. rewrite He in Hbody.
      injection Hbody as <-. cbn [resultTail]. rewrite Ht. simpl.
      rewrite ?Hres, <- ?app_assoc. reflexivity. }
  split; [exact Heq|].
  intros env0 st0 env st r0 r1 Hpre Hrec Hr Hctor.
  rewrite Heq, run_body_app, Hpre.
  assert (Hends : forall st1 tail,
            run_body tail env st =
            match ThrowIfError r1 st1 with
            | (Ok _, st2) => (Ok (Continue env), st2)
            | (Throw ex, st2) => (Throw ex, st2)
            | (FailFast, st2) => (FailFast, st2)
            end ->
            ((exists ex st2, ThrowIfError r1 st1 = (Throw ex, st2) /\
                             run_body tail env st = (Throw ex, st2)) \/
             (exists st2, ThrowIfError r1 st1 = (FailFast, st2) /\
                          run_body tail env st = (FailFast, st2))) /\
            (forall error s message s',
               Proxy_FromRefnum implements "ProxyError" r1 st1 = (Ok error, s) ->
               match error with
               | Null => ret None
               | Obj a => Error_Error go impl describe universe a
               end s = (Ok message, s') ->
               run_body tail env st =
               (Throw (GoException error (default "Go error" message)), s'))).
  { intros st1 tail Hrun. split.
    - destruct (ThrowIfError_never_returns r1 st1 Hr) as [(ex & st2 & H)|(st2 & H)];
        rewrite H in Hrun; [left|right]; eauto.
    - intros error s message s' Hfrom Hmsg.
      now rewrite Hrun, (ThrowIfError_GoException _ _ _ _ _ _ Hr Hfrom Hmsg). }
  assert (Hweak : forall src st' tail,
            readSource this src env st' = (Ok (NInt r0), st') ->
            run_body (IfErrorSet [DestroyRefOf src; ThrowIfErrorOf SrcR1] :: tail) env st' =
            match ThrowIfError r1 (emit (Native_DestroyRef r0) st') with
            | (Ok _, st2) => (Ok (Continue env), st2)
            | (Throw ex, st2) => (Throw ex, st2)
            | (FailFast, st2) => (FailFast, st2)
            end).
  { intros src st' tail Hsrc.
    rewrite (cleanup_block src env st' r0 r1 Hsrc Hrec Hr tail).
    destruct (ThrowIfError_never_returns r1 (emit (Native_DestroyRef r0) st') Hr)
      as [(ex & st2 & H)|(st2 & H)]; now rewrite H. }
  destruct c as [f'|v|v|f'|s f'|s f'|s m|i m]; simpl in Hf; try discriminate;
    cbn [cleanupTail].
  2: { (* the constructor stores r0 in the field before the test *)
    destruct (Hctor f' eq_refl) as (cls & r & d & Hthis).
    set (st' := set_objects (<[this := ProxyObject cls r0 d]> (objects st))
                            (nextObject st) st).
    assert (Hassign : exec (AssignRefnum SrcR0) env st = (Ok (Continue env), st')).
    { cbn [Emit.exec]. unfold bind at 1. unfold readSource at 1, ret at 1.
      unfold bind at 1, modify at 1. rewrite Hthis, Hrec. reflexivity. }
    assert (Hsrc : readSource this SrcRefnum env st' = (Ok (NInt r0), st')).
    { unfold readSource, thisRefnum, bind, gets, ret. unfold st'. simpl.
      now rewrite lookup_insert_eq. }
    exists (emit (Native_DestroyRef r0) st').
    split; [reflexivity|]. split; [reflexivity|]. split; [reflexivity|].
    apply Hends. rewrite run_body_cons, Hassign. now apply Hweak. }
  all: exists (emit (Native_DestroyRef r0) st);
    (split; [reflexivity|]); (split; [reflexivity|]); (split; [reflexivity|]);
    apply Hends; apply Hweak; unfold readSource; now rewrite Hrec.
Qed.

(** **** Callbacks *)

(** What a trampoline does before it calls the managed method: it finds the
    target, converts the parameters, and registers the proxy class of a
    result that is an interface. *)
Definition trampolinePrefix (m : Func) : list Stmt :=
  GetInstance :: fromNativeParams (Params (Sig m)) ++
  match Results (Sig m) with
  | [t] => if isErrorType t then [] else emitEnsureRegisteredForReturn t
  | [t; _] => emitEnsureRegisteredForReturn t
  | _ => []
  end.

(** [ProxyError.EnsureRegistered(); ... Seq.IncRef(new GoError(ex))]. *)
Definition goErrorRefnum (ex : Exception) : M Z :=
  ensureRegistered "ProxyError" ;;;
  o <- new (GoErrorObject ex) ;;
  IncRef o.

Lemma exec_call env st a method args target r :
  asObject (mvar env "instance") = Obj a ->
  impl a method (mvar env <$> args) st = r ->
  exec (CallInstance method args target) env st =
  match r with
  | (Ok v, st') =>
      (Ok (Continue (match target with Some x => <[x := VM v]> env | None => env end)), st')
  | (Throw e, st') => (Throw e, st')
  | (FailFast, st') => (FailFast, st')
  end.
Proof.
  intros Ha <-. cbn [Emit.exec]. rewrite Ha. unfold bind.
  destruct (impl a method (mvar env <$> args) st) as [[v|e|] st']; reflexivity.
Qed.

Lemma exvar_bound env ex : exvar (<["ex" := VEx ex]> env) = ex.
Proof. unfold exvar. now rewrite lookup_insert_eq. Qed.

Lemma run_report label rest env ex st :
  run_body (ReportUnhandled label :: rest) (<["ex" := VEx ex]> env) st =
  match ReportUnhandledException ex label st with
  | (Ok _, st') => run_body rest (<["ex" := VEx ex]> env) st'
  | (Throw e, st') => (Throw e, st')
  | (FailFast, st') => (FailFast, st')
  end.
Proof.
  rewrite run_body_cons. cbn [Emit.exec]. rewrite exvar_bound. unfold bind at 1.
  destruct (ReportUnhandledException ex label st) as [[[]|e|] st']; reflexivity.
Qed.

Lemma run_goError env ex :
  incRefGoError (<["ex" := VEx ex]> env) =
  (o <- new (GoErrorObject ex) ;; IncRef o).
Proof. unfold incRefGoError. now rewrite exvar_bound. Qed.

Lemma ensureRegistered_ok name st : exists st', ensureRegistered name st = (Ok tt, st').
Proof.
  unfold Emit.ensureRegistered. destruct (bool_decide _); eexists; reflexivity.
Qed.

Lemma regroup (x : Stmt) (a b c : list Stmt) :
  x :: a ++ b ++ c = (x :: a ++ b) ++ c.
Proof. simpl. now rewrite app_assoc. Qed.

(** C6.  Take the trampoline of a method of an interface, at the point
    where it has found its target and converted the arguments.  Whatever
    exception the managed method throws, the trampoline catches it: with
    the results [(T, error)] it returns the record of the default wire
    value and the refnum of a new [GoError] of the exception, with
    [(error)] that refnum, and with no error among the results it reports
    the exception and returns the default wire value (nothing for [void]).
    When the method returns, the trampoline returns the converted value,
    with the sentinel where there is an error to report.  Reporting puts
    the exception at the end of the queue and then calls the hook if there
    is one, whatever the hook does; when the hook throws, the exception
    leaves the trampoline; when it returns, or there is none, the report
    writes to the console and fails fast if the switch is then set. *)
Theorem callback_exception_translation (g : Generator) (i : interfaceInfo) (m : Func)
    (body : list Stmt) (env env1 : gmap string Val) (st st1 : State) (a : positive) :
  trampolineBody g i m = Some body ->
  run_body (trampolinePrefix m) env st = (Ok (Continue env1), st1) ->
  asObject (mvar env1 "instance") = Obj a ->
  let call := impl a (csIdentifier IsLetterHigh (Name m))
                   (mvar env1 <$> callArgs (Params (Sig m))) in
  let label := iobj i +:+ "." +:+ Name m in
  (forall ex st2, call st1 = (Throw ex, st2) ->
     match Results (Sig m) with
     | [] =>
         run_body body env st =
         (ReportUnhandledException ex label ;;; ret (Return None)) st2
     | [t] =>
         if isErrorType t
         then run_body body env st =
              (r <- goErrorRefnum ex ;; ret (Return (Some (VN (NInt r))))) st2
         else run_body body env st =
              (ReportUnhandledException ex label ;;;
               ret (Return (Some (VN (defaultNativeReturn t))))) st2
     | [t; _] =>
         run_body body env st =
         (r <- goErrorRefnum ex ;;
          ret (Return (Some (VN (NRecord (defaultNativeReturn t) (NInt r)))))) st2
     | _ => True
     end) /\
  (forall v st2, call st1 = (Ok v, st2) ->
     match Results (Sig m) with
     | [] => run_body body env st = (Ok (Return None), st2)
     | [t] =>
         if isErrorType t
         then run_body body env st = (Ok (Return (Some (VN (NInt NullRefNum)))), st2)
         else forall w st3, toNative t v st2 = (Ok w, st3) ->
              run_body body env st = (Ok (Return (Some (VN w))), st3)
     | [t; _] =>
         forall w st3, toNative t v st2 = (Ok w, st3) ->
         run_body body env st =
         (Ok (Return (Some (VN (NRecord w (NInt NullRefNum))))), st3)
     | _ => True
     end) /\
  (forall ex method s,
     ReportUnhandledException ex method s =
     let s0 := set_pending (pendingExceptions s ++ [(ex, method)]) s in
     let finish := fun s1 =>
       let s' := emit (Console_Error method ex) s1 in
       if FailFastOnUnhandledCallbackException s1
       then (FailFast, emit (Environment_FailFast method ex) s')
       else (Ok tt, s') in
     match UnhandledCallbackException s with
     | None => finish s0
     | Some h =>
         match delegate h ex method (emit (Hook_Call ex method) s0) with
         | (Ok _, s1) => finish s1
         | (Throw e, s1) => (Throw e, s1)
         | (FailFast, s1) => (FailFast, s1)
         end
     end).
Proof.
  intros Hbody Hpre Ha. cbv zeta.
  unfold Emit.trampolineBody in Hbody.
  destruct (negb (isSigSupported (Sig m))); [discriminate|].
  unfold trampolinePrefix in Hpre.
  split; [|split].
  - intros ex st2 Hcall.
    destruct (Results (Sig m)) as [|t [|e [|x rest]]] eqn:Hres; [| | |exact I].
    + injection Hbody as <-. rewrite app_nil_r in Hpre.
      rewrite run_body_try, app_comm_cons, run_body_app, Hpre, run_body_cons.
      rewrite (exec_call _ _ _ _ _ _ _ Ha Hcall).
      rewrite run_report. unfold bind.
      destruct (ReportUnhandledException ex _ st2) as [[[]|e|] st']; reflexivity.
    + destruct (isErrorType t) eqn:Et; injection Hbody as <-.
      * rewrite app_nil_r in Hpre.
        rewrite run_body_try, app_comm_cons, run_body_app, Hpre, run_body_cons.
        rewrite (exec_call _ _ _ _ _ _ _ Ha Hcall).
        rewrite run_body_cons. cbn [Emit.exec]. unfold goErrorRefnum.
        destruct (ensureRegistered_ok "ProxyError" st2) as [st' Hreg].
        unfold bind at 1. rewrite Hreg. unfold continue_, ret at 1.
        rewrite run_body_cons. cbn [Emit.exec]. rewrite run_goError.
        unfold bind. rewrite Hreg.
        destruct (new (GoErrorObject ex) st') as [[o|e|] st''] eqn:Hnew;
          try reflexivity.
        destruct (IncRef o st'') as [[r|e|] st3]; reflexivity.
      * rewrite run_body_try, regroup, run_body_app, Hpre, run_body_cons.
        rewrite (exec_call _ _ _ _ _ _ _ Ha Hcall).
        rewrite run_report. unfold bind.
        destruct (ReportUnhandledException ex _ st2) as [[[]|e|] st']; reflexivity.
    + destruct (isErrorType e) eqn:Ee; [|discriminate]. injection Hbody as <-.
      rewrite run_body_try, regroup, run_body_app, Hpre, run_body_cons.
      rewrite (exec_call _ _ _ _ _ _ _ Ha Hcall).
      rewrite run_body_cons. cbn [Emit.exec]. unfold goErrorRefnum.
      destruct (ensureRegistered_ok "ProxyError" st2) as [st' Hreg].
      unfold bind at 1. rewrite Hreg. unfold continue_, ret at 1.
      rewrite run_body_cons. cbn [Emit.exec]. rewrite run_goError.
      unfold bind. rewrite Hreg.
      destruct (new (GoErrorObject ex) st') as [[o|e'|] st''] eqn:Hnew;
        try reflexivity.
      destruct (IncRef o st'') as [[r|e'|] st3]; [|reflexivity|reflexivity].
      unfold continue_, ret. rewrite run_body_cons. cbn [Emit.exec].
      unfold bind, ret, nvar. now rewrite lookup_insert_eq.
  - intros v st2 Hcall.
    destruct (Results (Sig m)) as [|t [|e [|x rest]]] eqn:Hres; [| | |exact I].
    + injection Hbody as <-. rewrite app_nil_r in Hpre.
      rewrite run_body_try, app_comm_cons, run_body_app, Hpre, run_body_cons.
      now rewrite (exec_call _ _ _ _ _ _ _ Ha Hcall).
    + destruct (isErrorType t) eqn:Et; injection Hbody as <-.
      * rewrite app_nil_r in Hpre.
        rewrite run_body_try, app_comm_cons, run_body_app, Hpre, run_body_cons.
        now rewrite (exec_call _ _ _ _ _ _ _ Ha Hcall).
      * intros w st3 Hw.
        rewrite run_body_try, regroup, run_body_app, Hpre, run_body_cons.
        rewrite (exec_call _ _ _ _ _ _ _ Ha Hcall).
        rewrite run_body_cons. cbn [Emit.exec]. unfold bind, mvar.
        now rewrite lookup_insert_eq, Hw.
    + destruct (isErrorType e) eqn:Ee; [|discriminate]. injection Hbody as <-.
      intros w st3 Hw.
      rewrite run_body_try, regroup, run_body_app, Hpre, run_body_cons.
      rewrite (exec_call _ _ _ _ _ _ _ Ha Hcall).
      rewrite run_body_cons. cbn [Emit.exec]. unfold continue_, ret at 1.
      rewrite run_body_cons. cbn [Emit.exec]. unfold bind, mvar, nvar.
      rewrite lookup_insert_ne by discriminate.
      now rewrite !lookup_insert_eq, Hw.
  - intros ex method s. apply report_steps.
Qed.

End Crossings.

(** *** A package at work *)

(** In the examples a parameter keeps its Go name, which is what
    [basicParamName] of bind/gen.go gives for a parameter that has one. *)
Definition paramNameOf (params : list Var) (pos : nat) : string :=
  default "" (vname <$> params !! pos).

Definition File : GoType := Named (Some "example/pkg") "File" UStruct.

(** The function [Poke] without parameters or results, the function [Open]
    that returns a pointer to a [File] and an error, the method [Inc] of
    the struct [Counter], and the interface method [Size], which returns an
    [int32] and an error. *)
Definition Poke : Func :=
  {| Name := "Poke"; Sig := {| Params := []; Results := [] |} |}.
Definition Open : Func :=
  {| Name := "Open"; Sig := {| Params := []; Results := [Pointer File; errorType] |} |}.
Definition Inc : Func :=
  {| Name := "Inc"; Sig := {| Params := []; Results := [] |} |}.
Definition Size : Func :=
  {| Name := "Size"; Sig := {| Params := []; Results := [Basic KInt32; errorType] |} |}.
Definition Counter : structInfo := {| sobj := "Counter"; smethods := [Inc] |}.
Definition Sink : interfaceInfo := {| iobj := "Sink"; callable := [Size] |}.

Definition pkg : Generator :=
  {| pkgPrefix := "pkg"; funcs := [Poke; Open]; structs := [Counter];
     interfaces := [Sink] |}.

(** The generator of the universe, with the prefix that bind/gen.go gives
    to a generator without a package: none. *)
Definition universePkg : Generator :=
  {| pkgPrefix := ""; funcs := []; structs := [];
     interfaces := [ {| iobj := "error";
                        callable := [ {| Name := "Error";
                                         Sig := {| Params := [];
                                                   Results := [Basic KString] |} |} ] |} ] |}.

(** Go answers [Error()] of an error with the four bytes of "gone", in a
    block of its own at 8192, and every other call with the record
    (-5, -6); the managed [Sink] throws; no interface has callbacks to
    register; no hook does anything; and an exception of the user has its
    name for a message. *)
Definition goSide (name : string) (args : list NVal) : M NVal :=
  if String.eqb name "proxy_error_Error"
  then fun st =>
         (Ok (NString 8192 4),
          set_memory (<[8192 := list_ascii_of_string "gone"]> (memory st))
                     (nextBlock st) st)
  else ret (NRecord (NInt (-5)) (NInt (-6))).
Definition throwingSink (a : positive) (method : string) (args : list MVal) : M MVal :=
  throw (UserException "boom").
Definition noCallbacks (proxyName : string) : list (string * string) := [].
Definition noHook (h : positive) (ex : Exception) (method : string) : M unit := ret tt.
Definition messageOf (ex : Exception) : string :=
  match ex with
  | UserException name => name
  | _ => ""
  end.

Definition bodyOf (c : Crossing) : option (list Stmt) :=
  crossingBody isSigSupported isSupported paramNameOf (fun _ => false) pkg c.
Definition runIn (this : positive) (body : list Stmt) (env : gmap string Val) : M Outcome :=
  run_body (fun _ => false) goSide throwingSink noCallbacks this sinkAt7 noHook
           messageOf universePkg "ProxySink" body env.

(** A live proxy of a [Counter] at address 1, and one callback exception
    waiting in the queue. *)
Definition pendingState : State :=
  set_pending [(UserException "boom", "Sink.Push")]
    (set_objects {[ 1%positive := ProxyObject "Counter" (-1) false ]} 2%positive
       initialState).

Lemma pending_exception_draining_witness :
  runIn 1 [ThrowIfDisposed_; ThrowIfPending; IncGoRefThis;
           CallNative "proxypkg_Counter_Inc" true [] false] ∅ pendingState =
  (Throw (PendingCallbackException "Sink.Push" (UserException "boom")),
   set_pending [] pendingState).
Proof.
  destruct (pending_exception_draining isSigSupported isSupported paramNameOf
              (fun _ => false) goSide throwingSink noCallbacks 1 sinkAt7 noHook
              messageOf universePkg "ProxySink" pkg
              (StructMethod Counter Inc)
              [ThrowIfDisposed_; ThrowIfPending; IncGoRefThis;
               CallNative "proxypkg_Counter_Inc" true [] false])
    as (_ & _ & H).
  - reflexivity.
  - apply H; reflexivity.
Defined.

(** C2 as stated fails for a package function: the wrapper of [Poke] is the
    native call alone, and with an exception queued the call goes through
    and the queue stays as it was. *)
Lemma package_function_does_not_drain :
  bodyOf (PackageFunction Poke) = Some [CallNative "proxypkg__Poke" false [] false] /\
  runIn 1 [CallNative "proxypkg__Poke" false [] false] ∅ pendingState =
    (Ok (Continue ∅), emit (Native_Call "proxypkg__Poke" []) pendingState) /\
  pendingExceptions (emit (Native_Call "proxypkg__Poke" []) pendingState) =
    [(UserException "boom", "Sink.Push")].
Proof. repeat split. Qed.

Definition openBody : list Stmt :=
  [ CallNative "proxypkg__Open" false [] true;
    IfErrorSet [DestroyRefOf SrcR0; ThrowIfErrorOf SrcR1];
    VarFromNative "value" SrcR0 (Pointer File) true;
    ReturnVar "value" ].

Lemma refnum_error_cleanup_witness :
  exists st1,
    log st1 = [Native_Call "proxypkg__Open" []] ++ [Native_DestroyRef (-5)] /\
    ((exists ex st2,
        ThrowIfError goSide throwingSink sinkAt7 messageOf universePkg (-6) st1 =
          (Throw ex, st2) /\
        runIn 1 openBody ∅ initialState = (Throw ex, st2)) \/
     (exists st2,
        ThrowIfError goSide throwingSink sinkAt7 messageOf universePkg (-6) st1 =
          (FailFast, st2) /\
        runIn 1 openBody ∅ initialState = (FailFast, st2))).
Proof.
  destruct (refnum_error_cleanup isSigSupported isSupported paramNameOf
              (fun _ => false) goSide throwingSink noCallbacks 1 sinkAt7 noHook
              messageOf universePkg "ProxySink" pkg
              (PackageFunction Open) Open openBody (Pointer File) errorType)
    as [_ H]; try reflexivity.
  destruct (H ∅ initialState
              (<["res" := VN (NRecord (NInt (-5)) (NInt (-6)))]> ∅)
              (emit (Native_Call "proxypkg__Open" []) initialState) (-5) (-6))
    as (st1 & Hlog & _ & _ & Hends & _).
  - reflexivity.
  - reflexivity.
  - discriminate.
  - intros f' [=].
  - exists st1. split; [exact Hlog|exact Hends].
Defined.

Example open_fails :
  (runIn 1 openBody ∅ initialState).1 = Throw (GoException (Obj 1) "gone") /\
  log (runIn 1 openBody ∅ initialState).2 =
    [Native_Call "proxypkg__Open" []; Native_DestroyRef (-5);
     Native_IncGoRef (-6); Native_Call "proxy_error_Error" [NInt (-6)];
     Native_GoSeqFree 8192].
Proof. split; vm_compute; reflexivity. Qed.

(** With a callback exception waiting, the failing [Open] ends with that
    exception and not with the [GoException]: the constructor of the
    [GoException] asks the error for its message, and [Error()] of the
    proxy drains the queue. *)
Example open_fails_with_pending :
  (runIn 1 openBody ∅ pendingState).1 =
    Throw (PendingCallbackException "Sink.Push" (UserException "boom")) /\
  pendingExceptions (runIn 1 openBody ∅ pendingState).2 = [] /\
  log (runIn 1 openBody ∅ pendingState).2 =
    [Native_Call "proxypkg__Open" []; Native_DestroyRef (-5)].
Proof. repeat split; vm_compute; reflexivity. Qed.

(** The trampoline of [Sink.Size], called by Go on the refnum 42 that
    [sinkPassed] has given to the object at address 7. *)
Definition sizeTrampoline : list Stmt :=
  [ Try [ GetInstance;
          CallInstance "Size" [] (Some "value");
          VarErrorNull;
          ReturnRecord "CProxy_cproxypkg_Sink_Size_Return" (R0ToNative "value" (Basic KInt32)) ]
        [ EnsureRegistered "ProxyError";
          VarErrorIncRefGoError;
          ReturnRecord "CProxy_cproxypkg_Sink_Size_Return" (R0Default (Basic KInt32)) ] ].

Lemma callback_exception_translation_witness :
  runIn 1 sizeTrampoline (<["refnum" := VN (NInt 42)]> ∅) sinkPassed =
  (r <- goErrorRefnum noCallbacks (UserException "boom") ;;
   ret (Return (Some (VN (NRecord (NInt 0) (NInt r)))))) sinkPassed.
Proof.
  pose proof (callback_exception_translation isSigSupported paramNameOf
                (fun _ => false) goSide throwingSink noCallbacks 1 sinkAt7 noHook
                messageOf universePkg "ProxySink" pkg Sink Size
                sizeTrampoline (<["refnum" := VN (NInt 42)]> ∅)
                (<["instance" := VM (MObject (Obj 7))]> (<["refnum" := VN (NInt 42)]> ∅))
                sinkPassed sinkPassed 7 eq_refl eq_refl eq_refl) as (H & _).
  exact (H (UserException "boom") sinkPassed eq_refl).
Defined.

(** The same call through the trampoline of another interface, which the
    object at 7 does not implement: the cast fails inside the [try], the
    method is not called, and the error goes back to Go. *)
Example cast_fails_in_trampoline :
  run_body (fun _ => false) goSide throwingSink noCallbacks 1 sinkAt7 noHook
           messageOf universePkg "ProxyOther" sizeTrampoline
           (<["refnum" := VN (NInt 42)]> ∅) sinkPassed =
  (r <- goErrorRefnum noCallbacks InvalidCastException ;;
   ret (Return (Some (VN (NRecord (NInt 0) (NInt r)))))) sinkPassed.
Proof. vm_compute. reflexivity. Qed.

Example size_throws :
  (runIn 1 sizeTrampoline (<["refnum" := VN (NInt 42)]> ∅) sinkPassed).1 =
  Ok (Return (Some (VN (NRecord (NInt 0) (NInt 43))))).
Proof. vm_compute. reflexivity. Qed.

End Emit.

(* ===================================================================== *)
(** ** More of the reference runtime: proxies, refnums, the queue *)
(* ===================================================================== *)

Module Lifecycle.
Import Runtime.

(** [Dispose(bool)] of a proxy class (lines 921 to 926 and 1182 to 1187):
    the exchange on [disposed], then [Seq.DestroyRef(refnum)].  [Dispose()]
    and the finalizer both come down to it.  Only proxies have the method;
    at an address that holds no proxy there is nothing to call. *)
Definition Proxy_Dispose (a : positive) : M unit :=
  k <- gets (fun st => objects st !! a) ;;
  match k with
  | Some (ProxyObject c r false) =>
      modify (fun st => set_objects (<[a := ProxyObject c r true]> (objects st))
                                    (nextObject st) st) ;;;
      DestroyRef r
  | _ => ret tt
  end.

(** The same call made [n] times, each on the state the one before left. *)
Fixpoint times (n : nat) (m : M unit) (st : State) : State :=
  match n with
  | O => st
  | S k => times k m (m st).2
  end.

(** [LastUnhandledException] and [LastUnhandledExceptionMethod] (lines 1599
    and 1601): [TryPeek] on the queue. *)
Definition LastUnhandledException (st : State) : option Exception :=
  match pendingExceptions st with
  | (ex, _) :: _ => Some ex
  | [] => None
  end.

Definition LastUnhandledExceptionMethod (st : State) : option string :=
  match pendingExceptions st with
  | (_, method) :: _ => Some method
  | [] => None
  end.

(** Callbacks that report one after the other, and managed calls that drain
    one after the other; what was thrown is collected.  [delegate] is what
    the hooks of the user do. *)
Fixpoint reportAll (delegate : positive -> Exception -> string -> M unit)
    (l : list (Exception * string)) (st : State) : State :=
  match l with
  | [] => st
  | (ex, method) :: rest =>
      reportAll delegate rest (ReportUnhandledException delegate ex method st).2
  end.

Fixpoint drain (n : nat) (st : State) : list Exception * State :=
  match n with
  | O => ([], st)
  | S k =>
      match ThrowIfPendingException st with
      | (Throw e, st') => let '(es, st'') := drain k st' in (e :: es, st'')
      | (_, st') => drain k st'
      end
  end.

(** *** The tracker under any schedule *)

(** [handedIn tr r x]: in the trace, an [Inc] of the object [x] returned
    the refnum [r]. *)
Definition handedIn (tr : list (Op * Outcome)) (r : Z) (x : positive) : Prop :=
  (OpInc (Obj x), Returned r) ∈ tr.

(** What holds of a tracker whatever was called on it; [hist] relates the
    refnums handed out so far to the objects they were handed out for. *)
Record tracker_ok (t : RefTracker) (hist : Z -> positive -> Prop) : Prop := {
  ok_next : RefOffset <= nextRefnum t <= int_MaxValue;
  ok_refs : forall r e, refs t !! r = Some e ->
    RefOffset <= r < nextRefnum t /\ 1 <= Count e <= int_MaxValue /\
    objectRefs t !! Value e = Some r /\ hist r (Value e);
  ok_objs : forall x r, objectRefs t !! x = Some r ->
    exists e, refs t !! r = Some e /\ Value e = x;
  ok_hist : forall r x, hist r x -> RefOffset <= r < nextRefnum t;
  ok_fun : forall r x y, hist r x -> hist r y -> x = y
}.

Lemma tracker_ok_new : tracker_ok newTracker (fun _ _ => False).
Proof.
  constructor; simpl.
  - unfold RefOffset, int_MaxValue. lia.
  - intros r e H. now rewrite lookup_empty in H.
  - intros x r H. now rewrite lookup_empty in H.
  - intros r x [].
  - intros r x y [].
Qed.

Lemma tracker_ok_ext t hist hist' :
  (forall r x, hist r x <-> hist' r x) -> tracker_ok t hist -> tracker_ok t hist'.
Proof.
  intros E [H1 H2 H3 H4 H5]. constructor; auto.
  - intros r e H. destruct (H2 r e H) as (? & ? & ? & ?).
    repeat split; try tauto. now apply E.
  - intros r x H. apply E in H. eauto.
  - intros r x y Hx Hy. apply E in Hx, Hy. eauto.
Qed.

Lemma tracker_ok_same t hist (op : Op) (out : Outcome) :
  (forall r x, (op, out) <> (OpInc (Obj x), Returned r)) ->
  tracker_ok t hist ->
  tracker_ok t (fun r x => hist r x \/ (op, out) = (OpInc (Obj x), Returned r)).
Proof.
  intros Hne. apply tracker_ok_ext. intros r x. split; [tauto|].
  intros [H|H]; [assumption|]. now apply Hne in H.
Qed.

Lemma step_ok t hist op out t' :
  tracker_ok t hist ->
  step t op = (out, t') ->
  tracker_ok t' (fun r x => hist r x \/ (op, out) = (OpInc (Obj x), Returned r)).
Proof.
  intros Hok. pose proof Hok as [H1 H2 H3 H4 H5].
  unfold step. destruct op as [value|r0|r0].
  - unfold Tracker_Inc. destruct value as [|v].
    { intros [= <- <-]. apply tracker_ok_same; [discriminate|assumption]. }
    destruct (objectRefs t !! v) as [r0|] eqn:Ho.
    + destruct (H3 _ _ Ho) as (e & He & Hv). rewrite He.
      destruct (H2 _ _ He) as (Hr & Hc & Hobj & Hh).
      unfold Ref_Inc. destruct (Z.eqb_spec (Count e) int_MaxValue) as [Hmax|Hmax].
      { intros [= <- <-]. apply tracker_ok_same; [discriminate|assumption]. }
      intros [= <- <-]. constructor; cbn -[Z.eqb]; auto.
      * intros r e' H. destruct (decide (r = r0)) as [->|Hne].
        -- rewrite lookup_insert_eq in H. injection H as <-. simpl.
           repeat split; try lia; auto.
        -- rewrite lookup_insert_ne in H by congruence.
           destruct (H2 r e' H) as (? & ? & ? & ?). repeat split; auto; lia.
      * intros x r H. destruct (H3 x r H) as (e' & He' & Hv').
        destruct (decide (r = r0)) as [->|Hne].
        -- rewrite lookup_insert_eq. eexists. split; [reflexivity|]. simpl. congruence.
        -- rewrite lookup_insert_ne by congruence. eauto.
      * intros r x [H|[= <- <-]]; [eauto|lia].
      * intros r x y [Hx|Ex] [Hy|Ey];
          try (inversion Ex; subst); try (inversion Ey; subst); eauto.
    + destruct (Z.eqb_spec (nextRefnum t) int_MaxValue) as [Hmax|Hmax].
      { intros [= <- <-]. apply tracker_ok_same; [discriminate|assumption]. }
      simpl.
      assert (Hnone : refs t !! nextRefnum t = None).
      { destruct (refs t !! nextRefnum t) as [e|] eqn:E; [|reflexivity].
        destruct (H2 _ _ E). lia. }
      rewrite Hnone. simpl. intros [= <- <-]. constructor; cbn -[Z.eqb].
      * lia.
      * intros r e H. rewrite insert_insert_eq in H.
        destruct (decide (r = nextRefnum t)) as [->|Hne].
        -- rewrite lookup_insert_eq in H. injection H as <-. simpl.
           rewrite lookup_insert_eq. unfold int_MaxValue. repeat split; try lia.
           now right.
        -- rewrite lookup_insert_ne in H by congruence.
           destruct (H2 r e H) as (? & ? & Hobj & ?).
           repeat split; try lia; [|now left].
           rewrite lookup_insert_ne; [assumption|]. intros ->. congruence.
      * intros x r H. rewrite insert_insert_eq.
        destruct (decide (x = v)) as [->|Hne].
        -- rewrite lookup_insert_eq in H. injection H as <-.
           rewrite lookup_insert_eq. eexists. split; reflexivity.
        -- rewrite lookup_insert_ne in H by congruence.
           destruct (H3 x r H) as (e & He & Hv). exists e. split; [|assumption].
           rewrite lookup_insert_ne; [assumption|]. intros <-. congruence.
      * intros r x [H|[= <- <-]]; [|lia]. specialize (H4 r x H). lia.
      * intros r x y [Hx|Ex] [Hy|Ey];
          try (inversion Ex; subst); try (inversion Ey; subst); eauto.
        -- specialize (H4 _ _ Hx). lia.
        -- specialize (H4 _ _ Hy). lia.
  - unfold Tracker_IncRefnum.
    destruct ((r0 <=? 0) || (r0 =? NullRefNum)).
    { intros [= <- <-]. apply tracker_ok_same; [discriminate|assumption]. }
    destruct (refs t !! r0) as [e|] eqn:He;
      [|intros [= <- <-]; apply tracker_ok_same; [discriminate|assumption]].
    destruct (H2 _ _ He) as (Hr & Hc & Hobj & Hh).
    unfold Ref_Inc. destruct (Z.eqb_spec (Count e) int_MaxValue) as [Hmax|Hmax].
    { intros [= <- <-]. apply tracker_ok_same; [discriminate|assumption]. }
    intros [= <- <-]. apply tracker_ok_same; [discriminate|].
    constructor; cbn -[Z.eqb]; auto.
    + intros r e' H. destruct (decide (r = r0)) as [->|Hne].
      * rewrite lookup_insert_eq in H. injection H as <-. simpl.
        repeat split; try lia; auto.
      * rewrite lookup_insert_ne in H by congruence. auto.
    + intros x r H. destruct (H3 x r H) as (e' & He' & Hv').
      destruct (decide (r = r0)) as [->|Hne].
      * rewrite lookup_insert_eq. eexists. split; [reflexivity|]. simpl. congruence.
      * rewrite lookup_insert_ne by congruence. eauto.
  - unfold Tracker_DecRefnum.
    destruct ((r0 <=? 0) || (r0 =? NullRefNum)).
    { intros [= <- <-]. apply tracker_ok_same; [discriminate|assumption]. }
    destruct (refs t !! r0) as [e|] eqn:He;
      [|intros [= <- <-]; apply tracker_ok_same; [discriminate|assumption]].
    destruct (H2 _ _ He) as (Hr & Hc & Hobj & Hh).
    unfold Ref_Dec. simpl.
    rewrite wrap32_small by (unfold int_MinValue, int_MaxValue in *; lia).
    destruct (Z.leb_spec (Count e - 1) 0) as [Hz|Hz].
    + intros [= <- <-]. apply tracker_ok_same; [discriminate|].
      constructor; cbn -[Z.eqb]; auto.
      * intros r e' H. apply lookup_delete_Some in H as [Hne H].
        destruct (H2 r e' H) as (? & ? & Hobj' & ?). repeat split; auto; try lia.
        rewrite lookup_delete_ne; [assumption|]. intros E. congruence.
      * intros x r H. apply lookup_delete_Some in H as [Hne H].
        destruct (H3 x r H) as (e' & He' & Hv'). exists e'. split; [|assumption].
        rewrite lookup_delete_ne; [assumption|]. intros <-. congruence.
    + intros [= <- <-]. apply tracker_ok_same; [discriminate|].
      constructor; cbn -[Z.eqb]; auto.
      * intros r e' H. destruct (decide (r = r0)) as [->|Hne].
        -- rewrite lookup_insert_eq in H. injection H as <-. simpl.
           repeat split; try lia; auto.
        -- rewrite lookup_insert_ne in H by congruence. auto.
      * intros x r H. destruct (H3 x r H) as (e' & He' & Hv').
        destruct (decide (r = r0)) as [->|Hne].
        -- rewrite lookup_insert_eq. eexists. split; [reflexivity|]. simpl. congruence.
        -- rewrite lookup_insert_ne by congruence. eauto.
Qed.

Lemma run_ok ops : forall t hist,
  tracker_ok t hist ->
  tracker_ok (run t ops).2 (fun r x => hist r x \/ handedIn (run t ops).1 r x).
Proof.
  induction ops as [|op rest IH]; intros t hist Hok; simpl.
  - eapply tracker_ok_ext; [|exact Hok]. intros r x. unfold handedIn.
    split; [tauto|]. intros [H|H]; [assumption|]. now apply elem_of_nil in H.
  - destruct (step t op) as [out t1] eqn:Hstep.
    specialize (IH t1 _ (step_ok _ _ _ _ _ Hok Hstep)).
    destruct (run t1 rest) as [tr t2]. simpl in *.
    eapply tracker_ok_ext; [|exact IH]. intros r x. unfold handedIn.
    rewrite elem_of_cons. split.
    + intros [[H|H]|H]; auto.
    + intros [H|[H|H]]; auto.
Qed.

Lemma reachable_ok ops :
  tracker_ok (run newTracker ops).2 (handedIn (run newTracker ops).1).
Proof.
  eapply tracker_ok_ext; [|exact (run_ok ops _ _ tracker_ok_new)].
  intros r x. simpl. tauto.
Qed.

(** X1.  Whatever is called on a new tracker, in whatever order and with
    whatever refnums, also ones that were never handed out: a refnum that
    [Inc] returned for one object is never returned for another, it is at
    least 42 and below [nextRefnum]; the two maps stay inverse to each other,
    so two live objects never share a refnum; and the count of an entry
    stays between 1 and [int.MaxValue]. *)
Theorem refnum_never_reused (ops : list Op) :
  let tr := (run newTracker ops).1 in
  let t := (run newTracker ops).2 in
  (forall x y r, (OpInc (Obj x), Returned r) ∈ tr ->
                 (OpInc (Obj y), Returned r) ∈ tr -> x = y) /\
  (forall x r, (OpInc (Obj x), Returned r) ∈ tr ->
               RefOffset <= r < nextRefnum t /\ r <> NullRefNum) /\
  (forall x r, objectRefs t !! x = Some r <->
               exists e, refs t !! r = Some e /\ Value e = x) /\
  (forall x y r, objectRefs t !! x = Some r -> objectRefs t !! y = Some r -> x = y) /\
  (forall r e, refs t !! r = Some e -> 1 <= Count e <= int_MaxValue).
Proof.
  intros tr t. pose proof (reachable_ok ops) as Hok. fold tr t in Hok.
  destruct Hok as [H1 H2 H3 H4 H5]. repeat split.
  - intros x y r Hx Hy. exact (H5 r x y Hx Hy).
  - now destruct (H4 r x H).
  - now destruct (H4 r x H).
  - destruct (H4 r x H). unfold RefOffset, NullRefNum in *. lia.
  - apply H3.
  - intros (e & He & <-). now destruct (H2 _ _ He) as (_ & _ & ? & _).
  - intros x y r Hx Hy.
    destruct (H3 _ _ Hx) as (e & He & <-). destruct (H3 _ _ Hy) as (e' & He' & <-).
    congruence.
  - now destruct (H2 _ _ H) as (_ & ? & _).
  - now destruct (H2 _ _ H) as (_ & ? & _).
Qed.

(** X2.  On a tracker reached by any schedule, an [Inc] that returns pairs the
    refnum with the object: [GetRef] of the refnum gives the object back,
    and the [DecRefnum] that answers the [Inc] puts both maps back as they
    were before it. *)
Theorem inc_getref_dec_round_trip (ops : list Op) (x : positive) (r : Z)
    (t' : RefTracker) :
  let t := (run newTracker ops).2 in
  Tracker_Inc t (Obj x) = (Ok r, t') ->
  Tracker_GetRef t' r = Ok (Obj x) /\
  objectRefs t' !! x = Some r /\
  refs (Tracker_DecRefnum t' r).2 = refs t /\
  objectRefs (Tracker_DecRefnum t' r).2 = objectRefs t.
Proof.
  intros t. pose proof (reachable_ok ops) as Hok. fold t in Hok.
  destruct Hok as [H1 H2 H3 H4 H5].
  unfold Tracker_Inc. destruct (objectRefs t !! x) as [r0|] eqn:Ho.
  - destruct (H3 _ _ Ho) as (e & He & Hv). rewrite He.
    destruct (H2 _ _ He) as (Hr & Hc & Hobj & Hh).
    unfold Ref_Inc. destruct (Z.eqb_spec (Count e) int_MaxValue) as [Hmax|Hmax];
      [discriminate|].
    intros [= <- <-]. unfold Tracker_GetRef, Tracker_DecRefnum.
    replace ((r0 <=? 0) || (r0 =? NullRefNum)) with false
      by (unfold RefOffset, NullRefNum in *; lia).
    replace (r0 =? NullRefNum) with false by (unfold RefOffset, NullRefNum in *; lia).
    cbn -[Z.leb wrap32]. rewrite lookup_insert_eq. cbn -[Z.leb wrap32].
    rewrite wrap32_small by (unfold int_MinValue, int_MaxValue in *; lia).
    destruct (Z.leb_spec (Count e + 1 - 1) 0) as [Hz|Hz]; [lia|].
    unfold Ref_Dec. cbn -[wrap32].
    rewrite wrap32_small by (unfold int_MinValue, int_MaxValue in *; lia).
    repeat split; [congruence|assumption|].
    rewrite insert_insert_eq. apply insert_id. rewrite He. f_equal.
    destruct e as [v c]. simpl. f_equal. lia.
  - destruct (Z.eqb_spec (nextRefnum t) int_MaxValue) as [Hmax|Hmax]; [discriminate|].
    assert (Hnone : refs t !! nextRefnum t = None).
    { destruct (refs t !! nextRefnum t) as [e|] eqn:E; [|reflexivity].
      destruct (H2 _ _ E). lia. }
    simpl. rewrite Hnone. simpl. intros [= <- <-].
    unfold Tracker_GetRef, Tracker_DecRefnum.
    replace ((nextRefnum t <=? 0) || (nextRefnum t =? NullRefNum)) with false
      by (unfold RefOffset, NullRefNum in *; lia).
    replace (nextRefnum t =? NullRefNum) with false
      by (unfold RefOffset, NullRefNum in *; lia).
    cbn. rewrite !lookup_insert_eq. cbn.
    repeat split.
    + rewrite delete_insert_eq. now apply delete_insert_id.
    + now apply delete_insert_id.
Qed.

Lemma inc_getref_dec_round_trip_witness :
  Tracker_GetRef (Tracker_Inc (run newTracker [OpInc (Obj 1)]).2 (Obj 2)).2 43
    = Ok (Obj 2) /\
  refs (Tracker_DecRefnum (Tracker_Inc (run newTracker [OpInc (Obj 1)]).2 (Obj 2)).2 43).2
    = refs (run newTracker [OpInc (Obj 1)]).2.
Proof.
  assert (H : Tracker_Inc (run newTracker [OpInc (Obj 1)]).2 (Obj 2) =
              (Ok 43, (Tracker_Inc (run newTracker [OpInc (Obj 1)]).2 (Obj 2)).2))
    by (vm_compute; reflexivity).
  destruct (inc_getref_dec_round_trip [OpInc (Obj 1)] 2 43 _ H) as (H1 & _ & H2 & _).
  split; assumption.
Defined.

(** *** Proxies *)

Lemma dispose_disposed a c r st :
  objects st !! a = Some (ProxyObject c r true) ->
  Proxy_Dispose a st = (Ok tt, st).
Proof. intros H. unfold Proxy_Dispose, bind, gets. now rewrite H. Qed.

Lemma times_disposed n : forall a c r st,
  objects st !! a = Some (ProxyObject c r true) ->
  times n (Proxy_Dispose a) st = st.
Proof.
  induction n as [|n IH]; intros a c r st H; simpl; [reflexivity|].
  rewrite (dispose_disposed _ _ _ _ H). simpl. eauto.
Qed.

(** X3.  However often a live proxy is disposed ([Dispose()] by the user, then
    the finalizer, or [Dispose()] again), Go is told to drop the reference
    exactly once, by the first call; the tracker is not touched; and from
    then on passing the proxy to Go ([Seq.IncRef]) throws
    [ObjectDisposedException] without telling Go anything. *)
Theorem dispose_releases_once (a : positive) (c : string) (r : Z) (st : State)
    (n : nat) :
  objects st !! a = Some (ProxyObject c r false) ->
  let st' := times (S n) (Proxy_Dispose a) st in
  log st' = log st ++ [Native_DestroyRef r] /\
  objects st' !! a = Some (ProxyObject c r true) /\
  Tracker st' = Tracker st /\
  IncRef (Obj a) st' = (Throw ObjectDisposedException, st').
Proof.
  intros H st'.
  assert (E : (Proxy_Dispose a st).2 =
              emit (Native_DestroyRef r)
                (set_objects (<[a := ProxyObject c r true]> (objects st))
                             (nextObject st) st)).
  { unfold Proxy_Dispose, bind, gets. rewrite H. reflexivity. }
  assert (Hd : objects (Proxy_Dispose a st).2 !! a = Some (ProxyObject c r true)).
  { rewrite E. simpl. apply lookup_insert_eq. }
  assert (Est : st' = (Proxy_Dispose a st).2).
  { unfold st'. simpl. exact (times_disposed n _ _ _ _ Hd). }
  rewrite Est. repeat split.
  - now rewrite E.
  - exact Hd.
  - now rewrite E.
  - unfold IncRef, bind, gets. now rewrite Hd.
Qed.

Lemma dispose_releases_once_witness :
  log (times 3 (Proxy_Dispose 1)
         (Struct_FromRefnum "File" (-5) initialState).2) = [Native_DestroyRef (-5)].
Proof.
  destruct (dispose_releases_once 1 "File" (-5)
              (Struct_FromRefnum "File" (-5) initialState).2 2) as (H & _).
  - vm_compute. reflexivity.
  - exact H.
Defined.

(** X4.  A reference of the Go side keeps its refnum on the way through the
    managed world: the proxy made for a negative refnum by the [FromRefnum]
    of an interface, or for any refnum but the sentinel by the [FromRefnum]
    of a struct class, gives that same refnum when it is passed back to Go,
    after telling Go to count one more reference; the tracker never hears of
    it. *)
Theorem go_reference_round_trip (implements : positive -> string -> bool)
    (name : string) (r : Z) (st : State) :
  (r < 0 ->
   exists o st1 st2,
     Proxy_FromRefnum implements name r st = (Ok o, st1) /\
     IncRef o st1 = (Ok r, st2) /\
     log st2 = log st ++ [Native_IncGoRef r] /\ Tracker st2 = Tracker st) /\
  (r <> NullRefNum ->
   exists o st1 st2,
     Struct_FromRefnum name r st = (Ok o, st1) /\
     IncRef o st1 = (Ok r, st2) /\
     log st2 = log st ++ [Native_IncGoRef r] /\ Tracker st2 = Tracker st).
Proof.
  assert (Hnew : exists o st1 st2,
            new (ProxyObject name r false) st = (Ok o, st1) /\
            IncRef o st1 = (Ok r, st2) /\
            log st2 = log st ++ [Native_IncGoRef r] /\ Tracker st2 = Tracker st).
  { eexists _, _, _. split; [reflexivity|].
    unfold IncRef, bind, gets. simpl. rewrite lookup_insert_eq.
    split; [reflexivity|]. split; reflexivity. }
  split.
  - intros Hneg. unfold Proxy_FromRefnum.
    destruct (Z.eqb_spec r NullRefNum); [unfold NullRefNum in *; lia|].
    destruct (Z.ltb_spec r 0); [exact Hnew|lia].
  - intros Hr. unfold Struct_FromRefnum.
    destruct (Z.eqb_spec r NullRefNum); [contradiction|exact Hnew].
Qed.

Lemma go_reference_round_trip_witness :
  exists o st1 st2,
    Proxy_FromRefnum sinkAt7 "ProxySink" (-3) initialState = (Ok o, st1) /\
    IncRef o st1 = (Ok (-3), st2) /\
    log st2 = log initialState ++ [Native_IncGoRef (-3)] /\
    Tracker st2 = Tracker initialState.
Proof.
  destruct (go_reference_round_trip sinkAt7 "ProxySink" (-3) initialState) as [H _].
  apply H. reflexivity.
Defined.

(** *** The queue of unhandled exceptions *)

(** A hook that leaves the queue as it finds it: it neither drains (no call
    into Go through a member of an instance) nor reports. *)
Definition leavesQueue (delegate : positive -> Exception -> string -> M unit) : Prop :=
  forall h ex method s,
    pendingExceptions (delegate h ex method s).2 = pendingExceptions s.

Lemma report_appends delegate ex method st :
  leavesQueue delegate ->
  pendingExceptions (ReportUnhandledException delegate ex method st).2
  = pendingExceptions st ++ [(ex, method)].
Proof.
  intros Hq. rewrite report_steps. cbv zeta.
  destruct (UnhandledCallbackException st) as [h|].
  - pose proof (Hq h ex method
                  (emit (Hook_Call ex method)
                     (set_pending (pendingExceptions st ++ [(ex, method)]) st))) as H.
    destruct (delegate h ex method _) as [[[]|e|] s1]; simpl in H |- *;
      try exact H.
    destruct (FailFastOnUnhandledCallbackException s1); exact H.
  - destruct (FailFastOnUnhandledCallbackException _); reflexivity.
Qed.

Lemma reportAll_appends delegate l : forall st,
  leavesQueue delegate ->
  pendingExceptions (reportAll delegate l st) = pendingExceptions st ++ l.
Proof.
  induction l as [|[ex method] rest IH]; intros st Hq; simpl.
  - now rewrite app_nil_r.
  - rewrite IH, report_appends, <- app_assoc by assumption. reflexivity.
Qed.

Definition pendingOf (p : Exception * string) : Exception :=
  PendingCallbackException p.2 p.1.

Lemma drain_take n : forall st,
  drain n st = (pendingOf <$> take n (pendingExceptions st),
                set_pending (drop n (pendingExceptions st)) st).
Proof.
  induction n as [|n IH]; intros st; simpl.
  - f_equal. now destruct st.
  - unfold ThrowIfPendingException.
    destruct (pendingExceptions st) as [|[ex method] rest] eqn:E.
    + rewrite IH, E. simpl. rewrite take_nil, drop_nil. reflexivity.
    + rewrite IH. simpl. reflexivity.
Qed.

(** X5.  The queue of unhandled callback exceptions is first in, first out, and
    nothing is lost, as long as the hook of the user leaves the queue alone:
    every report is queued, whether the hook returns or throws and whether
    or not the process is set to fail fast; the managed calls that
    drain throw the reported exceptions one per call in the order they were
    reported, and then one call after the last passes; and
    [LastUnhandledException] (a peek at the queue) is the oldest exception
    still queued, the one the next draining call throws. *)
Theorem pending_queue_fifo (delegate : positive -> Exception -> string -> M unit)
    (l : list (Exception * string)) (st : State) (n : nat) :
  leavesQueue delegate ->
  let st1 := reportAll delegate l st in
  let q := pendingExceptions st ++ l in
  pendingExceptions st1 = q /\
  (drain n st1).1 = pendingOf <$> take n q /\
  pendingExceptions (drain n st1).2 = drop n q /\
  ThrowIfPendingException (drain (length q) st1).2
    = (Ok tt, (drain (length q) st1).2) /\
  LastUnhandledException st1 = fst <$> head q /\
  LastUnhandledExceptionMethod st1 = snd <$> head q /\
  (forall ex, LastUnhandledException st1 = Some ex <->
     exists method st2,
       ThrowIfPendingException st1 = (Throw (PendingCallbackException method ex), st2)).
Proof.
  intros Hquiet st1 q.
  assert (Hq : pendingExceptions st1 = q).
  { unfold st1, q. now rewrite reportAll_appends. }
  split; [exact Hq|]. rewrite !drain_take, Hq. simpl.
  split; [reflexivity|]. split; [reflexivity|]. split; [|split; [|split]].
  - unfold ThrowIfPendingException. simpl. now rewrite drop_all.
  - unfold LastUnhandledException. rewrite Hq. now destruct q as [|[ex m] rest].
  - unfold LastUnhandledExceptionMethod. rewrite Hq. now destruct q as [|[ex m] rest].
  - intros ex. unfold LastUnhandledException, ThrowIfPendingException. rewrite Hq.
    destruct q as [|[ex' m] rest]; split.
    + discriminate.
    + intros (method & st2 & H). discriminate.
    + intros [= <-]. eauto.
    + intros (method & st2 & H). congruence.
Qed.

(** A hook that turns the switch [FailFastOnUnhandledCallbackException] on
    and throws, and one that drains the queue itself. *)
Definition angryHook (h : positive) (ex : Exception) (method : string) : M unit :=
  modify (set_FailFast true) ;;; throw (UserException "hook").

Definition drainingHook (h : positive) (ex : Exception) (method : string) : M unit :=
  fun st =>
    match ThrowIfPendingException st with
    | (_, st') => (Ok tt, st')
    end.

Lemma pending_queue_fifo_witness :
  pendingExceptions
    (reportAll angryHook [(UserException "a", "M1"); (UserException "b", "M2")]
       (set_hook (Some 1%positive) initialState))
  = [(UserException "a", "M1"); (UserException "b", "M2")].
Proof.
  destruct (pending_queue_fifo angryHook
              [(UserException "a", "M1"); (UserException "b", "M2")]
              (set_hook (Some 1%positive) initialState) 0) as (H & _).
  - intros h ex method s. reflexivity.
  - exact H.
Defined.

Example two_reports_three_drains :
  (drain 3 (reportAll angryHook [(UserException "a", "M1"); (UserException "b", "M2")]
              (set_hook (Some 1%positive) initialState))).1
  = [PendingCallbackException "M1" (UserException "a");
     PendingCallbackException "M2" (UserException "b")].
Proof. vm_compute. reflexivity. Qed.

(** With a hook that drains, the report is gone before anyone sees it. *)
Example draining_hook_loses_the_report :
  pendingExceptions
    (ReportUnhandledException drainingHook (UserException "a") "M1"
       (set_hook (Some 1%positive) initialState)).2 = [].
Proof. vm_compute. reflexivity. Qed.

(** *** Byte arrays across the boundary *)

Lemma BytesToNByteslice_cons b bytes st :
  BytesToNByteslice (Some (b :: bytes)) st =
  (Ok (NByteslice (nextBlock st) (Z.of_nat (length (b :: bytes)))),
   set_memory (<[nextBlock st := b :: bytes]>
                 (<[nextBlock st := replicate (Z.to_nat (Z.of_nat (length (b :: bytes)))) zero]>
                    (memory st)))
     (nextBlock st + Z.max (Z.of_nat (length (b :: bytes))) 1)
     (emit (Native_GoSeqAlloc (Z.of_nat (length (b :: bytes))) (nextBlock st))
        (set_memory
           (<[nextBlock st := replicate (Z.to_nat (Z.of_nat (length (b :: bytes)))) zero]>
              (memory st))
           (nextBlock st + Z.max (Z.of_nat (length (b :: bytes))) 1) st))).
Proof. reflexivity. Qed.

(** X6.  A byte array that is not empty comes back from the wire as it went out,
    byte for byte, when the allocator returned a block ([nextBlock] is the
    address it returns); with [free] the block is released again and the
    native heap is as before, without [free] the block stays. *)
Theorem bytes_wire_round_trip (bytes : list ascii) (free : bool) (st : State) :
  bytes <> [] ->
  nextBlock st <> 0 ->
  memory st !! nextBlock st = None ->
  let m :=
    v <- BytesToNByteslice (Some bytes) ;;
    match v with
    | NByteslice p l => NBytesliceToBytes p l free
    | _ => ret None
    end in
  (m st).1 = Ok (Some bytes) /\
  (free = true ->
   memory (m st).2 = memory st /\
   log (m st).2 = log st ++ [Native_GoSeqAlloc (Z.of_nat (length bytes)) (nextBlock st);
                             Native_GoSeqFree (nextBlock st)]) /\
  (free = false ->
   memory (m st).2 !! nextBlock st = Some bytes /\
   log (m st).2 = log st ++ [Native_GoSeqAlloc (Z.of_nat (length bytes)) (nextBlock st)]).
Proof.
  intros Hne Hptr Hfresh m. unfold m.
  destruct bytes as [|b bytes]; [contradiction|].
  unfold bind. rewrite BytesToNByteslice_cons.
  remember (b :: bytes) as bs eqn:Ebs.
  assert (Hlen : (Z.of_nat (length bs) =? 0) = false) by (subst bs; simpl; lia).
  assert (Hpos : (Z.of_nat (length bs) <? 0) = false)
    by (destruct (Z.ltb_spec (Z.of_nat (length bs)) 0); [lia|reflexivity]).
  assert (Hp : (nextBlock st =? 0) = false)
    by (destruct (Z.eqb_spec (nextBlock st) 0); [contradiction|reflexivity]).
  unfold NBytesliceToBytes. rewrite Hp, Hlen, Hpos.
  unfold bind, readBytes, gets. cbn -[Z.eqb Z.ltb Z.of_nat length].
  rewrite lookup_insert_eq. cbn -[Z.eqb Z.ltb Z.of_nat length].
  rewrite Nat2Z.id, resize_all.
  destruct free; cbn -[Z.eqb Z.ltb Z.of_nat length].
  - unfold Free. rewrite Hp. cbn -[Z.eqb Z.ltb Z.of_nat length].
    split; [reflexivity|]. split; [|discriminate]. intros _. split.
    + rewrite insert_insert_eq. now apply delete_insert_id.
    + now rewrite <- app_assoc.
  - split; [reflexivity|]. split; [discriminate|]. intros _. split.
    + apply lookup_insert_eq.
    + reflexivity.
Qed.

Lemma bytes_wire_round_trip_witness :
  ((v <- BytesToNByteslice (Some ["g"; "o"]%char) ;;
    match v with
    | NByteslice p l => NBytesliceToBytes p l true
    | _ => ret None
    end) initialState).1 = Ok (Some ["g"; "o"]%char).
Proof.
  destruct (bytes_wire_round_trip ["g"; "o"]%char true initialState) as (H & _).
  - discriminate.
  - discriminate.
  - reflexivity.
  - exact H.
Defined.

End Lifecycle.

(* ===================================================================== *)
(** ** More of the printed members: prologue, results, stale callbacks *)
(* ===================================================================== *)

Module Wrappers.
Import GoTypes Collector Runtime Emit.

Section Members.

Variable isSigSupported : Signature -> bool.
Variable isSupported : GoType -> bool.
Variable basicParamName : list Var -> nat -> string.
Variable IsLetterHigh : Z -> bool.
Variable go : string -> list NVal -> M NVal.
Variable impl : positive -> string -> list MVal -> M MVal.
Variable callbacks : string -> list (string * string).
Variable this : positive.
Variable implements : positive -> string -> bool.
Variable delegate : positive -> Exception -> string -> M unit.
Variable describe : Exception -> string.
Variable universe : Generator.
Variable proxyClass : string.

Local Abbreviation crossingBody :=
  (crossingBody isSigSupported isSupported basicParamName IsLetterHigh).
Local Abbreviation callPrefix := (callPrefix basicParamName IsLetterHigh).
Local Abbreviation trampolineBody :=
  (trampolineBody isSigSupported basicParamName IsLetterHigh).
Local Abbreviation exec :=
  (exec IsLetterHigh go impl callbacks this implements delegate describe universe
        proxyClass).
Local Abbreviation run_body :=
  (run_body IsLetterHigh go impl callbacks this implements delegate describe universe
            proxyClass).
Local Abbreviation fromNative := (fromNative IsLetterHigh implements).
Local Abbreviation goErrorRefnum := (goErrorRefnum callbacks).
Local Abbreviation ThrowIfError := (ThrowIfError go impl implements describe universe).
Local Abbreviation ReportUnhandledException := (ReportUnhandledException delegate).
Local Abbreviation run_cons :=
  (run_body_cons IsLetterHigh go impl callbacks this implements delegate describe
                 universe proxyClass).
Local Abbreviation run_app :=
  (run_body_app IsLetterHigh go impl callbacks this implements delegate describe
                universe proxyClass).
Local Abbreviation run_try :=
  (run_body_try IsLetterHigh go impl callbacks this implements delegate describe
                universe proxyClass).
Local Abbreviation run_report :=
  (run_report IsLetterHigh go impl callbacks this implements delegate describe
              universe proxyClass).

Lemma instance_prologue g c body :
  isInstanceMember c = true -> crossingBody g c = Some body ->
  exists rest, body = ThrowIfDisposed_ :: ThrowIfPending :: IncGoRefThis :: rest.
Proof.
  intros Hc Hbody.
  destruct c as [f|v|v|f|s f|s f|s m|i m]; try discriminate; simpl in Hbody.
  - unfold structFieldGet in Hbody.
    destruct (negb (isSupported (vtype f))); [discriminate|].
    injection Hbody as <-. eexists; reflexivity.
  - unfold structFieldSet in Hbody.
    destruct (negb (isSupported (vtype f))); [discriminate|].
    injection Hbody as <-. eexists; reflexivity.
  - unfold structMethodBody, instanceMethodBody in Hbody.
    destruct (negb (isSigSupported (Sig m))); [discriminate|].
    destruct (returnsErrorOf true (Results (Sig m))) as [re|]; [|discriminate].
    injection Hbody as <-. eexists; reflexivity.
  - unfold interfaceMethodBody, instanceMethodBody in Hbody.
    destruct (negb (isSigSupported (Sig m))); [discriminate|].
    destruct (returnsErrorOf false (Results (Sig m))) as [re|]; [|discriminate].
    injection Hbody as <-. eexists; reflexivity.
Qed.

(** X7.  Every member of an instance (field accessor, struct method, method of
    an interface proxy) starts with the same three steps.  On a disposed
    proxy it throws [ObjectDisposedException] and does nothing else: the
    queue of callback exceptions is not drained and Go is not called.  On a
    live proxy with nothing queued the first thing Go hears is
    [IncGoRef(refnum)] for the receiver, before any parameter is converted
    and before the call itself. *)
Theorem member_prologue (g : Generator) (c : Crossing) (body : list Stmt) :
  isInstanceMember c = true ->
  crossingBody g c = Some body ->
  exists rest,
    body = ThrowIfDisposed_ :: ThrowIfPending :: IncGoRefThis :: rest /\
    (forall cls r env st,
       objects st !! this = Some (ProxyObject cls r true) ->
       run_body body env st = (Throw ObjectDisposedException, st)) /\
    (forall cls r env st,
       objects st !! this = Some (ProxyObject cls r false) ->
       pendingExceptions st = [] ->
       run_body body env st = run_body rest env (emit (Native_IncGoRef r) st)).
Proof.
  intros Hc Hbody. destruct (instance_prologue g c body Hc Hbody) as [rest ->].
  exists rest. split; [reflexivity|]. split.
  - intros cls r env st Hthis. rewrite run_cons. cbn [Emit.exec].
    unfold bind, thisDisposed, gets. now rewrite Hthis.
  - intros cls r env st Hthis Hq. rewrite run_cons. cbn [Emit.exec].
    unfold bind at 1. unfold thisDisposed, gets. rewrite Hthis.
    unfold continue_, ret. rewrite run_cons. cbn [Emit.exec].
    unfold bind at 1. unfold ThrowIfPendingException. rewrite Hq.
    unfold continue_, ret. rewrite run_cons. cbn [Emit.exec].
    unfold bind, thisRefnum, gets, IncGoRef, native, modify, continue_, ret.
    now rewrite Hthis.
Qed.

(** **** The results [(T, error)] *)

Lemma value_error_body g c f body t e :
  calleeOf c = Some f -> (forall f', c <> PublicConstructorOf f') ->
  Results (Sig f) = [t; e] -> isErrorType e = true ->
  crossingBody g c = Some body ->
  body = callPrefix g c ++ resultTail [t; e] true.
Proof.
  intros Hf Hctor Hres He Hbody.
  destruct c as [f'|v|v|f'|s f'|s f'|s m|i m]; simpl in Hf; try discriminate;
    injection Hf as ->; simpl in Hbody.
  - unfold packageFunctionBody in Hbody.
    destruct (negb (isSigSupported (Sig f))); [discriminate|].
    rewrite Hres in *. simpl in Hbody. rewrite He in Hbody.
    injection Hbody as <-. cbn [Emit.callPrefix].
    rewrite ?Hres, <- ?app_assoc. reflexivity.
  - now destruct (Hctor f).
  - unfold structMethodBody, instanceMethodBody in Hbody.
    destruct (negb (isSigSupported (Sig f))); [discriminate|].
    rewrite Hres in *. simpl in Hbody. rewrite He in Hbody.
    injection Hbody as <-. cbn [Emit.callPrefix].
    rewrite ?Hres, <- ?app_assoc. reflexivity.
  - unfold interfaceMethodBody, instanceMethodBody in Hbody.
    destruct (negb (isSigSupported (Sig f))); [discriminate|].
    rewrite Hres in *. simpl in Hbody. rewrite He in Hbody.
    injection Hbody as <-. cbn [Emit.callPrefix].
    rewrite ?Hres, <- ?app_assoc. reflexivity.
Qed.

Lemma exec_var target src t fb env st n :
  readSource this src env st = (Ok n, st) ->
  exec (VarFromNative target src t fb) env st =
  match fromNative t n fb st with
  | (Ok v, st') => (Ok (Continue (<[target := VM v]> env)), st')
  | (Throw e, st') => (Throw e, st')
  | (FailFast, st') => (FailFast, st')
  end.
Proof.
  intros H. cbn [Emit.exec]. unfold bind at 1. rewrite H. unfold bind.
  destruct (fromNative t n fb st) as [[v|e|] st']; reflexivity.
Qed.

Lemma exec_throwIfError src env st n :
  readSource this src env st = (Ok n, st) ->
  exec (ThrowIfErrorOf src) env st =
  match ThrowIfError (intOf n) st with
  | (Ok _, st') => (Ok (Continue env), st')
  | (Throw e, st') => (Throw e, st')
  | (FailFast, st') => (FailFast, st')
  end.
Proof.
  intros H. cbn [Emit.exec]. unfold bind at 1. rewrite H. unfold bind.
  destruct (ThrowIfError (intOf n) st) as [[[]|e|] st']; reflexivity.
Qed.

Lemma Proxy_FromRefnum_log name r st :
  log (Proxy_FromRefnum implements name r st).2 = log st.
Proof.
  unfold Proxy_FromRefnum. destruct (r =? NullRefNum); [reflexivity|].
  destruct (r <? 0); [reflexivity|].
  unfold bind, GetRef, locked.
  destruct (Tracker_GetRef (Tracker st) r) as [[|a]| |]; try reflexivity.
  unfold castTo, bind, gets.
  destruct (instanceOf implements name a (set_Tracker (Tracker st) st)); reflexivity.
Qed.

Lemma fromNative_refnum_log t n fb st :
  isRefnumType t = true -> log (fromNative t n fb st).2 = log st.
Proof.
  intros Ht.
  assert (Hproxy : forall name,
            log ((o <- Proxy_FromRefnum implements name (intOf n) ;;
                  ret (MObject o)) st).2 = log st).
  { intros name. pose proof (Proxy_FromRefnum_log name (intOf n) st) as H.
    unfold bind. destruct (Proxy_FromRefnum implements name (intOf n) st) as [[o|e|] s];
      exact H. }
  assert (Hstruct : forall name,
            log ((o <- Struct_FromRefnum name (intOf n) ;; ret (MObject o)) st).2 =
            log st).
  { intros name. unfold bind, Struct_FromRefnum.
    destruct (intOf n =? NullRefNum); reflexivity. }
  destruct t as [k|el|el|pkg name u|]; try discriminate;
    unfold Emit.fromNative;
    (match goal with
     | |- context [indirectNamed ?x] =>
         destruct (indirectNamed x) as [[[p nm] [|b|]]|]
     end); solve [apply Hproxy | apply Hstruct | reflexivity].
Qed.

(** X8.  In the wrapper of a package function or of a method with the results
    [(T, error)], once the call has come back with the record [(r0, r1)]:
    when [T] is no reference the value is converted first, which releases
    the buffer that Go allocated for a string or a byte array, and only then
    is [ThrowIfError(r1)] called, so a call that fails has freed what it got
    before it throws (or the process dies in [ThrowIfError]);
    when [T] is a reference and there is no error, the wrapper returns the
    object for [r0] and tells Go nothing more: no [DestroyRef]. *)
Theorem value_and_error_results (g : Generator) (c : Crossing) (f : Func)
    (body : list Stmt) (t e : GoType) :
  calleeOf c = Some f -> (forall f', c <> PublicConstructorOf f') ->
  Results (Sig f) = [t; e] -> isErrorType e = true ->
  crossingBody g c = Some body ->
  forall env0 st0 env st r0 r1,
    run_body (callPrefix g c) env0 st0 = (Ok (Continue env), st) ->
    nvar env "res" = NRecord r0 (NInt r1) ->
    (isRefnumType t = false ->
     run_body body env0 st0 =
     (v <- fromNative t r0 true ;; ThrowIfError r1 ;;; ret (Return (Some (VM v)))) st) /\
    (forall p l, t = Basic KString -> r0 = NString p l -> p <> 0 -> 0 < l ->
     r1 <> NullRefNum ->
     exists st1,
       log st1 = log st ++ [Native_GoSeqFree p] /\
       memory st1 = delete p (memory st) /\
       ((exists ex st2, ThrowIfError r1 st1 = (Throw ex, st2) /\
                        run_body body env0 st0 = (Throw ex, st2)) \/
        (exists st2, ThrowIfError r1 st1 = (FailFast, st2) /\
                     run_body body env0 st0 = (FailFast, st2)))) /\
    (isRefnumType t = true -> r1 = NullRefNum ->
     run_body body env0 st0 =
     (v <- fromNative t r0 true ;; ret (Return (Some (VM v)))) st /\
     log (run_body body env0 st0).2 = log st).
Proof.
  intros Hf Hctor Hres He Hbody env0 st0 env st r0 r1 Hpre Hrec.
  rewrite (value_error_body g c f body t e Hf Hctor Hres He Hbody).
  rewrite run_app, Hpre.
  assert (Hr0 : readSource this SrcR0 env st = (Ok r0, st))
    by (unfold readSource, ret; now rewrite Hrec).
  assert (Hplain : isRefnumType t = false ->
            run_body (resultTail [t; e] true) env st =
            (v <- fromNative t r0 true ;; ThrowIfError r1 ;;;
             ret (Return (Some (VM v)))) st).
  { intros Ht. cbn [resultTail]. rewrite Ht. cbn [negb app].
    rewrite run_cons, (exec_var _ _ _ _ _ _ _ Hr0). unfold bind at 1.
    destruct (fromNative t r0 true st) as [[v|ex|] st1]; try reflexivity.
    rewrite run_cons.
    assert (Hr1 : readSource this SrcR1 (<["value" := VM v]> env) st1 =
                  (Ok (NInt r1), st1)).
    { unfold readSource, ret, nvar. rewrite lookup_insert_ne by discriminate.
      fold (nvar env "res"). now rewrite Hrec. }
    rewrite (exec_throwIfError _ _ _ _ Hr1). cbn [intOf]. unfold bind.
    destruct (ThrowIfError r1 st1) as [[[]|ex|] st2]; try reflexivity.
    rewrite run_cons. cbn [Emit.exec]. unfold ret.
    now rewrite lookup_insert_eq. }
  split; [exact Hplain|]. split.
  - intros p l -> -> Hp Hl Hr. rewrite (Hplain eq_refl).
    set (s1 := emit (Native_GoSeqFree p)
                 (set_memory (delete p (memory st)) (nextBlock st) st)).
    assert (Hconv : exists v, fromNative (Basic KString) (NString p l) true st = (Ok v, s1)).
    { cbn [Emit.fromNative ptrOf lenOf]. unfold NStringToString.
      replace ((p =? 0) || (l =? 0)) with false
        by (destruct (Z.eqb_spec p 0), (Z.eqb_spec l 0); simpl; lia).
      replace (l <? 0) with false by (destruct (Z.ltb_spec l 0); lia).
      unfold Free. replace (p =? 0) with false by (destruct (Z.eqb_spec p 0); lia).
      eexists. reflexivity. }
    destruct Hconv as [v Hconv].
    exists s1. split; [reflexivity|]. split; [reflexivity|].
    unfold bind. rewrite Hconv.
    destruct (ThrowIfError_never_returns go impl implements describe universe r1 s1 Hr)
      as [(ex & st2 & Hthrow)|(st2 & Hthrow)]; rewrite Hthrow; [left|right]; eauto.
  - intros Ht ->. cbn [resultTail]. rewrite Ht. cbn [negb app].
    assert (E : run_body
                  [IfErrorSet [DestroyRefOf SrcR0; ThrowIfErrorOf SrcR1];
                   VarFromNative "value" SrcR0 t true; ReturnVar "value"] env st =
                (v <- fromNative t r0 true ;; ret (Return (Some (VM v)))) st).
    { rewrite run_cons. cbn [Emit.exec]. rewrite Hrec. cbn [r1Of intOf].
      rewrite Z.eqb_refl. unfold continue_ at 1, ret at 1.
      rewrite run_cons, (exec_var _ _ _ _ _ _ _ Hr0). unfold bind.
      destruct (fromNative t r0 true st) as [[v|ex|] st1]; try reflexivity.
      rewrite run_cons. cbn [Emit.exec]. unfold ret.
      now rewrite lookup_insert_eq. }
    split; [exact E|]. rewrite E. unfold bind.
    pose proof (fromNative_refnum_log t r0 true st Ht) as Hlog.
    destruct (fromNative t r0 true st) as [[v|ex|] st1]; exact Hlog.
Qed.

(** **** A callback for a refnum that the tracker does not hold *)

(** X9.  When Go calls a trampoline with a refnum that is neither the sentinel
    nor tracked (the object was released before the call arrived), the
    lookup of the target throws inside the [try], and the trampoline deals
    with that like with an exception of the method itself: an error result
    carries it back to Go as a new [GoError], and without an error result it
    is reported and the default wire value returned.  The managed method is
    not called. *)
Theorem callback_on_unknown_refnum (g : Generator) (i : interfaceInfo) (m : Func)
    (body : list Stmt) (env : gmap string Val) (st : State) (r : Z) :
  trampolineBody g i m = Some body ->
  nvar env "refnum" = NInt r -> r <> NullRefNum ->
  refs (Tracker st) !! r = None ->
  let ex := InvalidOperationException "unknown reference" in
  let label := iobj i +:+ "." +:+ Name m in
  match Results (Sig m) with
  | [] =>
      run_body body env st =
      (ReportUnhandledException ex label ;;; ret (Return None)) st
  | [t] =>
      if isErrorType t
      then run_body body env st =
           (r <- goErrorRefnum ex ;; ret (Return (Some (VN (NInt r))))) st
      else run_body body env st =
           (ReportUnhandledException ex label ;;;
            ret (Return (Some (VN (defaultNativeReturn t))))) st
  | [t; _] =>
      run_body body env st =
      (r <- goErrorRefnum ex ;;
       ret (Return (Some (VN (NRecord (defaultNativeReturn t) (NInt r)))))) st
  | _ => True
  end.
Proof.
  intros Hbody Hrefnum Hr Hnone. cbv zeta.
  assert (Hget : forall rest,
            run_body (GetInstance :: rest) env st =
            (Throw (InvalidOperationException "unknown reference"), st)).
  { intros rest. rewrite run_cons. cbn [Emit.exec]. rewrite Hrefnum. cbn [intOf].
    unfold bind at 1. unfold bind at 1. unfold GetRef, locked, Tracker_GetRef.
    destruct (Z.eqb_spec r NullRefNum); [contradiction|].
    now rewrite Hnone, set_Tracker_same. }
  unfold Emit.trampolineBody in Hbody.
  destruct (negb (isSigSupported (Sig m))); [discriminate|].
  destruct (Results (Sig m)) as [|t [|e [|x rest]]] eqn:Hres; [| | |exact I].
  - injection Hbody as <-. rewrite run_try. simpl app. rewrite Hget.
    rewrite run_report. unfold bind.
    destruct (ReportUnhandledException _ _ st) as [[[]|e|] st']; reflexivity.
  - destruct (isErrorType t) eqn:Et; injection Hbody as <-.
    + rewrite run_try. simpl app. rewrite Hget.
      rewrite run_cons. cbn [Emit.exec]. unfold Emit.goErrorRefnum.
      destruct (ensureRegistered_ok callbacks "ProxyError" st) as [st' Hreg].
      unfold bind at 1. rewrite Hreg. unfold continue_, ret at 1.
      rewrite run_cons. cbn [Emit.exec].
      rewrite run_goError.
      unfold bind. rewrite Hreg.
      destruct (new (GoErrorObject _) st') as [[o|e|] st''] eqn:Hnew; try reflexivity.
      destruct (IncRef o st'') as [[r'|e|] st3]; reflexivity.
    + rewrite run_try. simpl app. rewrite Hget.
      rewrite run_report. unfold bind.
      destruct (ReportUnhandledException _ _ st) as [[[]|e'|] st']; reflexivity.
  - destruct (isErrorType e) eqn:Ee; [|discriminate]. injection Hbody as <-.
    rewrite run_try. simpl app. rewrite Hget.
    rewrite run_cons. cbn [Emit.exec]. unfold Emit.goErrorRefnum.
    destruct (ensureRegistered_ok callbacks "ProxyError" st) as [st' Hreg].
    unfold bind at 1. rewrite Hreg. unfold continue_, ret at 1.
    rewrite run_cons. cbn [Emit.exec].
    rewrite run_goError.
    unfold bind. rewrite Hreg.
    destruct (new (GoErrorObject _) st') as [[o|e'|] st''] eqn:Hnew; try reflexivity.
    destruct (IncRef o st'') as [[r'|e'|] st3]; [|reflexivity|reflexivity].
    unfold continue_, ret. rewrite run_cons. cbn [Emit.exec].
    unfold bind, ret, nvar. now rewrite lookup_insert_eq.
Qed.

End Members.

(** A disposed proxy of a [Counter] at address 1, with a callback exception
    waiting in the queue. *)
Definition disposedState : State :=
  set_pending [(UserException "boom", "Sink.Push")]
    (set_objects {[ 1%positive := ProxyObject "Counter" (-1) true ]} 2%positive
       initialState).

Lemma member_prologue_witness :
  runIn 1 [ThrowIfDisposed_; ThrowIfPending; IncGoRefThis;
           CallNative "proxypkg_Counter_Inc" true [] false] ∅ disposedState =
  (Throw ObjectDisposedException, disposedState).
Proof.
  destruct (member_prologue isSigSupported isSupported paramNameOf
              (fun _ => false) goSide throwingSink noCallbacks 1 sinkAt7 noHook
              messageOf universePkg "ProxySink" pkg
              (StructMethod Counter Inc)
              [ThrowIfDisposed_; ThrowIfPending; IncGoRefThis;
               CallNative "proxypkg_Counter_Inc" true [] false]
              eq_refl eq_refl) as (rest & _ & H & _).
  exact (H "Counter" (-1) ∅ disposedState eq_refl).
Defined.

(** The function [ReadName], which returns a string and an error, and a Go
    side that answers with a string of two bytes at 4096 and the error -6. *)
Definition ReadName : Func :=
  {| Name := "ReadName";
     Sig := {| Params := []; Results := [Basic KString; errorType] |} |}.

Definition goText (name : string) (args : list NVal) : M NVal :=
  ret (NRecord (NString 4096 2) (NInt (-6))).

Definition readNameBody : list Stmt :=
  [ CallNative "proxypkg__ReadName" false [] true;
    VarFromNative "value" SrcR0 (Basic KString) true;
    ThrowIfErrorOf SrcR1;
    ReturnVar "value" ].

Definition runText (body : list Stmt) : M Outcome :=
  run_body (fun _ => false) goText throwingSink noCallbacks 1 sinkAt7 noHook
           messageOf universePkg "ProxySink" body ∅.

Lemma value_and_error_results_witness :
  exists st1,
    log st1 = [Native_Call "proxypkg__ReadName" []] ++ [Native_GoSeqFree 4096] /\
    memory st1 = delete 4096 ∅ /\
    ((exists ex st2,
        ThrowIfError goText throwingSink sinkAt7 messageOf universePkg (-6) st1 =
          (Throw ex, st2) /\
        runText readNameBody initialState = (Throw ex, st2)) \/
     (exists st2,
        ThrowIfError goText throwingSink sinkAt7 messageOf universePkg (-6) st1 =
          (FailFast, st2) /\
        runText readNameBody initialState = (FailFast, st2))).
Proof.
  destruct (value_and_error_results isSigSupported isSupported paramNameOf
              (fun _ => false) goText throwingSink noCallbacks 1 sinkAt7 noHook
              messageOf universePkg "ProxySink" pkg
              (PackageFunction ReadName) ReadName readNameBody
              (Basic KString) errorType) with
    (env0 := (∅ : gmap string Val)) (st0 := initialState)
    (env := <["res" := VN (NRecord (NString 4096 2) (NInt (-6)))]> (∅ : gmap string Val))
    (st := emit (Native_Call "proxypkg__ReadName" []) initialState)
    (r0 := NString 4096 2) (r1 := -6)
    as (_ & H & _); try reflexivity.
  - intros f' [=].
  - apply (H 4096 2); try reflexivity; discriminate.
Defined.

Example read_name_fails :
  (runText readNameBody initialState).1 = Throw (GoException (Obj 1) "") /\
  log (runText readNameBody initialState).2 =
    [Native_Call "proxypkg__ReadName" []; Native_GoSeqFree 4096;
     Native_IncGoRef (-6); Native_Call "proxy_error_Error" [NInt (-6)]].
Proof. split; vm_compute; reflexivity. Qed.

(** When the process dies while Go answers [Error()], [ThrowIfError] does
    not throw: it does not come back at all. *)
Definition goDies (name : string) (args : list NVal) : M NVal :=
  fun st => (FailFast, st).

Example throwIfError_can_die :
  (ThrowIfError goDies throwingSink sinkAt7 messageOf universePkg (-6) initialState).1
  = FailFast.
Proof. vm_compute. reflexivity. Qed.

Lemma callback_on_unknown_refnum_witness :
  runIn 1 sizeTrampoline (<["refnum" := VN (NInt 99)]> ∅) initialState =
  (r <- goErrorRefnum noCallbacks (InvalidOperationException "unknown reference") ;;
   ret (Return (Some (VN (NRecord (NInt 0) (NInt r)))))) initialState.
Proof.
  assert (H : 99 <> NullRefNum) by discriminate.
  exact (callback_on_unknown_refnum isSigSupported paramNameOf (fun _ => false)
           goSide throwingSink noCallbacks 1 sinkAt7 noHook messageOf universePkg
           "ProxySink" pkg Sink Size sizeTrampoline
           (<["refnum" := VN (NInt 99)]> ∅) initialState 99
           eq_refl eq_refl H eq_refl).
Defined.

Example stale_callback_returns_error :
  (runIn 1 sizeTrampoline (<["refnum" := VN (NInt 99)]> ∅) initialState).1 =
  Ok (Return (Some (VN (NRecord (NInt 0) (NInt 42))))).
Proof. vm_compute. reflexivity. Qed.

End Wrappers.

(* ===================================================================== *)
(** ** Namespaces and class names *)
(* ===================================================================== *)

Module Names.
Import Sanitizer.

(** The options of [CSharpGen] (lines 59 to 62). *)
Record Config := {
  CSharpPkg : string;
  CSharpNamespace : string;
  CSharpPackageName : string;
  LibraryName : string
}.

(** [strings.Split(s, ".")] and [strings.Join(parts, ".")] of the Go
    standard library; splitting the empty string gives one empty part. *)
Fixpoint Split (s : string) : list string :=
  match s with
  | EmptyString => [EmptyString]
  | String c rest =>
      if Ascii.eqb c "."%char then EmptyString :: Split rest
      else match Split rest with
           | part :: parts => String c part :: parts
           | [] => [String c EmptyString]
           end
  end.

Fixpoint Join (parts : list string) : string :=
  match parts with
  | [] => EmptyString
  | [part] => part
  | part :: rest => part +:+ "." +:+ Join rest
  end.

(** [s[n:]]. *)
Fixpoint dropBytes (n : nat) (s : string) : string :=
  match n, s with
  | O, _ => s
  | S k, String _ rest => dropBytes k rest
  | S _, EmptyString => EmptyString
  end.

Definition byteOf (z : Z) : ascii := ascii_of_N (Z.to_N (Z.land z 255)).

(** [string(r)] for a rune [r]: its UTF-8 encoding, and the encoding of
    U+FFFD for what is no code point. *)
Definition EncodeRune (r : Z) : string :=
  if (r <? 0) || (1114111 <? r) || inRange 55296 57343 r
  then String (byteOf 239) (String (byteOf 191) (String (byteOf 189) EmptyString))
  else if r <=? 127 then String (byteOf r) EmptyString
  else if r <=? 2047 then
    String (byteOf (Z.lor 192 (Z.shiftr r 6)))
      (String (byteOf (Z.lor 128 (Z.land r 63))) EmptyString)
  else if r <=? 65535 then
    String (byteOf (Z.lor 224 (Z.shiftr r 12)))
      (String (byteOf (Z.lor 128 (Z.land (Z.shiftr r 6) 63)))
         (String (byteOf (Z.lor 128 (Z.land r 63))) EmptyString))
  else
    String (byteOf (Z.lor 240 (Z.shiftr r 18)))
      (String (byteOf (Z.lor 128 (Z.land (Z.shiftr r 12) 63)))
         (String (byteOf (Z.lor 128 (Z.land (Z.shiftr r 6) 63)))
            (String (byteOf (Z.lor 128 (Z.land r 63))) EmptyString))).

Section WithUnicode.

(** [unicode.IsLetter] and [unicode.ToUpper] above ASCII are tables of the
    Go standard library; what follows holds for any such tables. *)
Variable IsLetterHigh : Z -> bool.
Variable ToUpperHigh : Z -> Z.

Local Abbreviation csIdentifier := (csIdentifier IsLetterHigh).

Definition ToUpper (r : Z) : Z :=
  if r <=? 127 then (if inRange 97 122 r then r - 32 else r)
  else ToUpperHigh r.

Definition upperFirst (s : string) : string :=
  match s with
  | EmptyString => EmptyString
  | _ =>
      let '(r, n) := DecodeRuneInString s in
      if r =? RuneError then s
      else EncodeRune (ToUpper r) +:+ dropBytes n s
  end.

(** The root that [rootNamespace] starts from. *)
Definition configuredRoot (cfg : Config) : string :=
  match CSharpNamespace cfg with
  | EmptyString =>
      match CSharpPkg cfg with
      | EmptyString => "Go"
      | root => root
      end
  | root => root
  end.

Definition rootNamespace (cfg : Config) : string :=
  Join (csIdentifier <$> Split (configuredRoot cfg)).

(** [csNamespace] and [csPackageClassName]; a package is given by its name,
    [None] is the universe. *)
Definition csNamespace (cfg : Config) (pkg : option string) : string :=
  match pkg with
  | None => rootNamespace cfg
  | Some name =>
      match CSharpNamespace cfg with
      | EmptyString => rootNamespace cfg +:+ "." +:+ csIdentifier (upperFirst name)
      | _ => rootNamespace cfg
      end
  end.

Definition csPackageClassName (cfg : Config) (pkg : option string) : string :=
  match pkg with
  | None => "Universe"
  | Some name =>
      match CSharpPackageName cfg with
      | EmptyString => csIdentifier (upperFirst name)
      | override => csIdentifier override
      end
  end.

Local Abbreviation csReturnStructName := (Collector.csReturnStructName IsLetterHigh).

(** *** Splitting and joining *)

Lemma identByte_not_dot c :
  isIdentByte (byteZ c) = true -> Ascii.eqb c "."%char = false.
Proof.
  intros H. destruct (Ascii.eqb_spec c "."%char) as [->|]; [|reflexivity].
  vm_compute in H. discriminate.
Qed.

Lemma Split_nonempty s : Split s <> [].
Proof.
  destruct s as [|c rest]; simpl; [discriminate|].
  destruct (Ascii.eqb c "."%char); [discriminate|].
  destruct (Split rest); discriminate.
Qed.

Lemma Split_ident p : allIdent p = true -> Split p = [p].
Proof.
  induction p as [|c p IH]; simpl; [reflexivity|].
  intros [Hc Hp]%andb_prop. rewrite (identByte_not_dot _ Hc), (IH Hp). reflexivity.
Qed.

Lemma Split_app p rest :
  allIdent p = true -> Split (p +:+ "." +:+ rest) = p :: Split rest.
Proof.
  induction p as [|c p IH]; simpl; [reflexivity|].
  intros [Hc Hp]%andb_prop. rewrite (identByte_not_dot _ Hc).
  change (Split (p +:+ String "." rest)) with (Split (p +:+ "." +:+ rest)).
  rewrite (IH Hp). reflexivity.
Qed.

Lemma Split_Join parts :
  parts <> [] -> Forall (fun p => allIdent p = true) parts ->
  Split (Join parts) = parts.
Proof.
  induction parts as [|p [|q rest] IH]; intros Hne Hall; [congruence| |].
  - simpl. apply Split_ident. now inversion Hall.
  - change (Join (p :: q :: rest)) with (p +:+ "." +:+ Join (q :: rest)).
    inversion Hall as [|? ? Hp Hrest]; subst.
    rewrite (Split_app _ _ Hp), IH; [reflexivity|discriminate|assumption].
Qed.

Lemma append_assoc (a b c : string) : (a +:+ b) +:+ c = a +:+ (b +:+ c).
Proof.
  induction a as [|x a IH]; [reflexivity|].
  change (String x ((a +:+ b) +:+ c) = String x (a +:+ (b +:+ c))). now f_equal.
Qed.

Lemma Join_snoc parts x :
  parts <> [] -> Join (parts ++ [x]) = Join parts +:+ "." +:+ x.
Proof.
  induction parts as [|p [|q rest] IH]; intros Hne; [congruence|reflexivity|].
  change (Join ((p :: q :: rest) ++ [x]))
    with (p +:+ "." +:+ Join ((q :: rest) ++ [x])).
  rewrite IH by discriminate.
  change (Join (p :: q :: rest)) with (p +:+ "." +:+ Join (q :: rest)).
  rewrite !append_assoc. reflexivity.
Qed.

Lemma csIdentifier_allIdent n : allIdent (csIdentifier n) = true.
Proof.
  destruct (string_dec n "") as [->|Hn]; [reflexivity|].
  destruct (csIdentifier_valid IsLetterHigh n Hn) as [Hv _].
  unfold validIdentifier in Hv. now apply andb_prop in Hv.
Qed.

Lemma csIdentifier_empty n : csIdentifier n = "" <-> n = "".
Proof.
  split; [|now intros ->].
  intros H. destruct (string_dec n "") as [|Hn]; [assumption|].
  destruct (csIdentifier_valid IsLetterHigh n Hn) as [Hv _].
  rewrite H in Hv. discriminate.
Qed.

Lemma parts_allIdent (l : list string) :
  Forall (fun p => allIdent p = true) (csIdentifier <$> l).
Proof.
  induction l as [|x l IH]; constructor; [apply csIdentifier_allIdent|exact IH].
Qed.

Lemma root_components cfg :
  Split (rootNamespace cfg) = csIdentifier <$> Split (configuredRoot cfg).
Proof.
  unfold rootNamespace. apply Split_Join; [|apply parts_allIdent].
  pose proof (Split_nonempty (configuredRoot cfg)).
  destruct (Split (configuredRoot cfg)); [congruence|discriminate].
Qed.

(** X10.  The root namespace is the configured root with every component between
    dots sanitized on its own, the dots kept: [CSharpNamespace] if set, else
    [CSharpPkg], else [Go].  A component is a valid identifier and no
    reserved word exactly when the configured component is not empty; an
    empty component (a leading, trailing or doubled dot) stays empty, which
    leaves a namespace that C# rejects.  With a package and no
    [CSharpNamespace] the namespace of the package is the root with one more
    component. *)
Theorem rootNamespace_components (cfg : Config) :
  Split (rootNamespace cfg) = csIdentifier <$> Split (configuredRoot cfg) /\
  (forall part, part ∈ Split (rootNamespace cfg) ->
     part = "" \/ (validIdentifier part = true /\ isKeyword part = false)) /\
  ("" ∈ Split (rootNamespace cfg) <-> "" ∈ Split (configuredRoot cfg)) /\
  (CSharpNamespace cfg = "" -> CSharpPkg cfg = "" -> rootNamespace cfg = "Go") /\
  (forall name, CSharpNamespace cfg = "" ->
     Split (csNamespace cfg (Some name)) =
     Split (rootNamespace cfg) ++ [csIdentifier (upperFirst name)]) /\
  (forall name, CSharpNamespace cfg <> "" ->
     csNamespace cfg (Some name) = rootNamespace cfg).
Proof.
  pose proof (root_components cfg) as Hsplit.
  split; [exact Hsplit|]. split; [|split; [|split; [|split]]].
  - intros part. rewrite Hsplit. intros (n & -> & _)%list_elem_of_fmap.
    destruct (string_dec n "") as [->|Hn]; [now left|right].
    now apply csIdentifier_valid.
  - rewrite Hsplit. split.
    + intros (n & Hn & Hin)%list_elem_of_fmap.
      symmetry in Hn. apply (proj1 (csIdentifier_empty n)) in Hn. now subst n.
    + intros Hin. apply list_elem_of_fmap. exists "". split; [reflexivity|assumption].
  - intros Hns Hpkg. unfold rootNamespace, configuredRoot. rewrite Hns, Hpkg.
    reflexivity.
  - intros name Hns. unfold csNamespace. rewrite Hns.
    assert (Hne : csIdentifier <$> Split (configuredRoot cfg) <> []).
    { pose proof (Split_nonempty (configuredRoot cfg)).
      destruct (Split (configuredRoot cfg)); [congruence|discriminate]. }
    unfold rootNamespace at 1. rewrite <- (Join_snoc _ _ Hne).
    rewrite Split_Join.
    + now rewrite Hsplit.
    + destruct (csIdentifier <$> Split (configuredRoot cfg)); discriminate.
    + apply Forall_app. split; [apply parts_allIdent|].
      constructor; [apply csIdentifier_allIdent|constructor].
  - intros name Hns. unfold csNamespace.
    destruct (CSharpNamespace cfg); [congruence|reflexivity].
Qed.

(** *** Class names *)

Lemma byteZ_byteOf z : 0 <= z < 256 -> byteZ (byteOf z) = z.
Proof.
  intros Hz. unfold byteZ, byteOf.
  change 255 with (Z.ones 8). rewrite Z.land_ones by lia.
  rewrite Z.mod_small by lia.
  rewrite N_ascii_embedding by lia. lia.
Qed.

Lemma EncodeRune_nonempty r : EncodeRune r <> "".
Proof.
  unfold EncodeRune.
  destruct ((r <? 0) || (1114111 <? r) || inRange 55296 57343 r); [discriminate|].
  destruct (r <=? 127); [discriminate|].
  destruct (r <=? 2047); [discriminate|].
  destruct (r <=? 65535); discriminate.
Qed.

Lemma upperFirst_nonempty name : name <> "" -> upperFirst name <> "".
Proof.
  destruct name as [|c rest]; [congruence|]. intros _. unfold upperFirst.
  destruct (DecodeRuneInString (String c rest)) as [r n].
  destruct (r =? RuneError); [discriminate|].
  pose proof (EncodeRune_nonempty (ToUpper r)) as H.
  destruct (EncodeRune (ToUpper r)); [congruence|discriminate].
Qed.

Lemma upperFirst_lower c rest :
  isLower (byteZ c) = true ->
  upperFirst (String c rest) = String (byteOf (byteZ c - 32)) rest.
Proof.
  intros Hc. destruct (lower_identByte _ Hc) as [Hi _].
  unfold upperFirst. rewrite (decode_ascii _ _ Hi).
  assert (Hb : 97 <= byteZ c <= 122) by (unfold isLower, inRange in Hc; lia).
  replace (byteZ c =? RuneError) with false
    by (symmetry; apply Z.eqb_neq; unfold RuneError; lia).
  unfold ToUpper. replace (byteZ c <=? 127) with true by (symmetry; apply Z.leb_le; lia).
  fold (isLower (byteZ c)). rewrite Hc. unfold EncodeRune, inRange.
  replace (byteZ c - 32 <? 0) with false by (symmetry; apply Z.ltb_ge; lia).
  replace (1114111 <? byteZ c - 32) with false by (symmetry; apply Z.ltb_ge; lia).
  replace (55296 <=? byteZ c - 32) with false by (symmetry; apply Z.leb_gt; lia).
  replace (byteZ c - 32 <=? 127) with true by (symmetry; apply Z.leb_le; lia).
  reflexivity.
Qed.

Lemma upper_not_keyword c rest :
  isUpper (byteZ c) = true -> isKeyword (String c rest) = false.
Proof.
  intros Hc. destruct (isKeyword (String c rest)) eqn:E; [|reflexivity].
  apply isKeyword_lower in E. simpl in E. apply andb_prop in E as [E _].
  unfold isUpper, isLower, inRange in *. lia.
Qed.

(** X11.  The class of a package and the last component of its namespace are
    valid identifiers and no reserved words whenever the name of the package
    (or the override [CSharpPackageName]) is not empty; the universe gets
    [Universe].  For a package name that starts with a lower-case ASCII
    letter and is made of ASCII letters, digits and underscores, the class
    name is the package name with its first letter in upper case, reserved
    words included: the package [string] gets the class [String]. *)
Theorem package_class_name (cfg : Config) (name : string) :
  csPackageClassName cfg None = "Universe" /\
  (name <> "" ->
   validIdentifier (csPackageClassName cfg (Some name)) = true /\
   isKeyword (csPackageClassName cfg (Some name)) = false /\
   validIdentifier (csIdentifier (upperFirst name)) = true) /\
  (forall c rest, CSharpPackageName cfg = "" -> name = String c rest ->
     isLower (byteZ c) = true -> allIdent rest = true ->
     csPackageClassName cfg (Some name) = String (byteOf (byteZ c - 32)) rest).
Proof.
  split; [reflexivity|]. split.
  - intros Hn. pose proof (upperFirst_nonempty name Hn) as Hu.
    destruct (csIdentifier_valid IsLetterHigh _ Hu) as [Hv Hk].
    unfold csPackageClassName.
    destruct (CSharpPackageName cfg) as [|o override] eqn:E.
    + repeat split; assumption.
    + assert (Ho : String o override <> "") by discriminate.
      destruct (csIdentifier_valid IsLetterHigh _ Ho) as [Hv' Hk'].
      repeat split; assumption.
  - intros c rest Hcfg -> Hc Hrest. unfold csPackageClassName. rewrite Hcfg.
    rewrite (upperFirst_lower _ _ Hc).
    assert (Hb : 97 <= byteZ c <= 122) by (unfold isLower, inRange in Hc; lia).
    assert (Hup : isUpper (byteZ (byteOf (byteZ c - 32))) = true).
    { rewrite byteZ_byteOf by lia. unfold isUpper, inRange. lia. }
    apply csIdentifier_fixed.
    + unfold validIdentifier. simpl. rewrite Hrest.
      unfold isIdentByte. rewrite Hup. reflexivity.
    + now apply upper_not_keyword.
Qed.

Lemma allIdent_app a b : allIdent (a +:+ b) = allIdent a && allIdent b.
Proof.
  induction a as [|x a IH]; [reflexivity|].
  change (allIdent (String x a +:+ b))
    with (isIdentByte (byteZ x) && allIdent (a +:+ b)).
  rewrite IH. simpl. now rewrite andb_assoc.
Qed.

Lemma list_ascii_app a b :
  list_ascii_of_string (a +:+ b) = list_ascii_of_string a ++ list_ascii_of_string b.
Proof.
  induction a as [|x a IH]; [reflexivity|].
  change (list_ascii_of_string (String x a +:+ b))
    with (x :: list_ascii_of_string (a +:+ b)).
  now rewrite IH.
Qed.

Lemma append_inv_tail a b s : a +:+ s = b +:+ s -> a = b.
Proof.
  intros H. apply (f_equal list_ascii_of_string) in H.
  rewrite !list_ascii_app in H. apply app_inv_tail in H.
  apply (f_equal string_of_list_ascii) in H.
  now rewrite !string_of_list_ascii_of_string in H.
Qed.

(** X12.  The name of a return record is always a valid identifier and no
    reserved word.  For a canonical C name made of ASCII letters, digits and
    underscores it is the C name between [CProxy_] and [_Return], so two
    such C names never share a record type. *)
Theorem return_struct_name (cName other : string) :
  validIdentifier (csReturnStructName cName) = true /\
  isKeyword (csReturnStructName cName) = false /\
  (allIdent cName = true ->
   csReturnStructName cName = "CProxy_" +:+ cName +:+ "_Return") /\
  (allIdent cName = true -> allIdent other = true ->
   csReturnStructName cName = csReturnStructName other -> cName = other).
Proof.
  assert (Hfix : forall n, allIdent n = true ->
            csReturnStructName n = "CProxy_" +:+ n +:+ "_Return").
  { intros n Hn. unfold Collector.csReturnStructName. apply csIdentifier_fixed.
    - unfold validIdentifier.
      change ("CProxy_" +:+ n +:+ "_Return") with ("CProxy_" +:+ (n +:+ "_Return")).
      rewrite !allIdent_app, Hn. reflexivity.
    - apply upper_not_keyword. reflexivity. }
  assert (Hne : "CProxy_" +:+ cName +:+ "_Return" <> "") by discriminate.
  destruct (csIdentifier_valid IsLetterHigh _ Hne) as [Hv Hk].
  split; [exact Hv|]. split; [exact Hk|]. split; [apply Hfix|].
  intros Hc Ho. rewrite (Hfix _ Hc), (Hfix _ Ho). intros H.
  injection H as H. change (cName +:+ "_Return" = other +:+ "_Return") in H.
  now apply append_inv_tail in H.
Qed.

End WithUnicode.

Lemma package_class_name_witness :
  csPackageClassName (fun _ => false) (fun r => r)
    {| CSharpPkg := ""; CSharpNamespace := ""; CSharpPackageName := "";
       LibraryName := "" |} (Some "string") = "String".
Proof.
  destruct (package_class_name (fun _ => false) (fun r => r)
              {| CSharpPkg := ""; CSharpNamespace := ""; CSharpPackageName := "";
                 LibraryName := "" |} "string") as (_ & _ & H).
  exact (H "s"%char "tring" eq_refl eq_refl eq_refl eq_refl).
Defined.

Lemma return_struct_name_witness :
  Collector.csReturnStructName (fun _ => false) "proxykv_Store_Get" = "CProxy_proxykv_Store_Get_Return".
Proof.
  destruct (return_struct_name (fun _ => false) "proxykv_Store_Get" "") as (_ & _ & H & _).
  exact (H eq_refl).
Defined.

Example rootNamespace_sanitized :
  rootNamespace (fun _ => false)
    {| CSharpPkg := ""; CSharpNamespace := "my-org.class.9lives";
       CSharpPackageName := ""; LibraryName := "" |}
  = "my_org.class_._9lives".
Proof. reflexivity. Qed.

Example rootNamespace_trailing_dot :
  rootNamespace (fun _ => false)
    {| CSharpPkg := "Acme."; CSharpNamespace := "";
       CSharpPackageName := ""; LibraryName := "" |}
  = "Acme.".
Proof. reflexivity. Qed.

End Names.

(* ===================================================================== *)
(** ** The class [Native] and the wire types *)
(* ===================================================================== *)

Module NativeClass.
Import Sanitizer GoTypes Collector Runtime Emit.

(** The types on which [csNativeType] raises no diagnostic (lines 233 to
    274): the cases of its switches that return before [g.errorf]. *)
Definition csNativeTypeOk (t : GoType) : bool :=
  match t with
  | Basic k =>
      match k with
      | KBool | KUntypedBool | KInt | KInt8 | KInt16 | KInt32 | KUntypedRune
      | KInt64 | KUntypedInt | KUint8 | KFloat32 | KFloat64 | KUntypedFloat
      | KString | KUntypedString => true
      | _ => false
      end
  | Slice (Basic KUint8) => true
  | Slice _ => false
  | Pointer _ | Named _ _ _ => true
  | Unsupported => false
  end.

(** The three representations on the wire. *)
Inductive Shape := Scalar | Text | Bytes.

Definition shapeOfType (csType : string) : Shape :=
  if String.eqb csType "NString" then Text
  else if String.eqb csType "NByteslice" then Bytes
  else Scalar.

Definition shapeOf (n : NVal) : option Shape :=
  match n with
  | NInt _ => Some Scalar
  | NString _ _ => Some Text
  | NByteslice _ _ => Some Bytes
  | NRecord _ _ => None
  end.

(** One [DllImport] declaration: the name, the return type, and the
    parameters with their types. *)
Record Extern := {
  ename : string;
  eret : string;
  eparams : list (string * string)
}.

Section Declarations.

Variable isSigSupported : Signature -> bool.
Variable isSupported : GoType -> bool.
Variable basicParamName : list Var -> nat -> string.
Variable IsLetterHigh : Z -> bool.

Local Abbreviation paramName := (paramName basicParamName IsLetterHigh).
Local Abbreviation csReturnStructName := (Collector.csReturnStructName IsLetterHigh).
Local Abbreviation crossingBody :=
  (crossingBody isSigSupported isSupported basicParamName IsLetterHigh).
Local Abbreviation toNativeParams := (toNativeParams basicParamName IsLetterHigh).
Local Abbreviation nativeArgs := (nativeArgs basicParamName IsLetterHigh).
Local Abbreviation freeParams := (freeParams basicParamName IsLetterHigh).
Local Abbreviation emitToNativeParam := (emitToNativeParam IsLetterHigh).

(** The declarations of the runtime, printed for the universe (lines 473 to
    493). *)
Definition rootExterns : list Extern :=
  [ {| ename := "go_seq_init"; eret := "void"; eparams := [] |};
    {| ename := "DestroyRef"; eret := "void"; eparams := [("int", "refnum")] |};
    {| ename := "IncGoRef"; eret := "void"; eparams := [("int", "refnum")] |};
    {| ename := "GoSeqAlloc"; eret := "IntPtr"; eparams := [("int", "size")] |};
    {| ename := "GoSeqFree"; eret := "void"; eparams := [("IntPtr", "ptr")] |};
    {| ename := "go_seq_set_inc_ref"; eret := "void"; eparams := [("IntPtr", "fn")] |};
    {| ename := "go_seq_set_dec_ref"; eret := "void"; eparams := [("IntPtr", "fn")] |} ].

Definition retTypeOf (cName : string) (res : list GoType) : string :=
  match res with
  | [t] => csNativeType t
  | [_; _] => csReturnStructName cName
  | _ => "void"
  end.

Definition paramDecls (params : list Var) : list (string * string) :=
  i ← positions params;
  match params !! i with
  | Some p => [(csNativeType (vtype p), paramName params i)]
  | None => []
  end.

(** [emitNativeClass]: [universe] is [g.Pkg == nil] and [vars] is
    [g.vars]. *)
Definition emitNativeClass (universe : bool) (vars : list Var) (g : Generator)
  : list Extern :=
  (if universe then rootExterns else []) ++
  (v ← vars;
   if negb (isSupported (vtype v)) then []
   else [ {| ename := "var_set" +:+ pkgPrefix g +:+ "_" +:+ vname v; eret := "void";
             eparams := [(csNativeType (vtype v), "v")] |};
          {| ename := "var_get" +:+ pkgPrefix g +:+ "_" +:+ vname v;
             eret := csNativeType (vtype v); eparams := [] |} ]) ++
  (f ← funcs g;
   if negb (isSigSupported (Sig f)) then []
   else [ {| ename := proxyFuncName g "" (Name f);
             eret := retTypeOf (proxyFuncName g "" (Name f)) (Results (Sig f));
             eparams := paramDecls (Params (Sig f)) |} ]) ++
  (s ← structs g; m ← smethods s;
   if negb (isSigSupported (Sig m)) then []
   else [ {| ename := proxyFuncName g (sobj s) (Name m);
             eret := retTypeOf (proxyFuncName g (sobj s) (Name m)) (Results (Sig m));
             eparams := ("int", "refnum") :: paramDecls (Params (Sig m)) |} ]) ++
  (i ← interfaces g; m ← callable i;
   if negb (isSigSupported (Sig m)) then []
   else [ {| ename := "go_seq_set_cproxy" +:+ pkgPrefix g +:+ "_" +:+ iobj i +:+ "_"
                      +:+ Name m;
             eret := "void"; eparams := [("IntPtr", "fn")] |} ]).

(** The members whose native entry [emitNativeClass] has a loop for. *)
Definition belongs (vars : list Var) (g : Generator) (c : Crossing) : Prop :=
  match c with
  | PackageFunction f => f ∈ funcs g
  | PackageVariableGet v | PackageVariableSet v => v ∈ vars
  | StructMethod s m => s ∈ structs g /\ m ∈ smethods s
  | _ => False
  end.

(** The members whose native entry it has no loop for: the accessors of the
    fields of a struct and the methods of an interface proxy. *)
Definition passedOver (c : Crossing) : bool :=
  match c with
  | StructFieldGet _ _ | StructFieldSet _ _ | InterfaceMethod _ _ => true
  | _ => false
  end.

Ltac no_call H :=
  repeat (apply elem_of_cons in H as [H|H]; [discriminate H|]);
  try (apply elem_of_nil in H; contradiction).

Lemma call_not_in_emitToNativeParam name t n w a b :
  CallNative n w a b ∉ emitToNativeParam name t.
Proof.
  intros H. unfold Emit.emitToNativeParam in H.
  destruct t as [k|e|e|pkg nm u|]; try (no_call H).
  - destruct (indirectNamed (Pointer e)) as [[[pkg nm] [|[]|]]|]; no_call H.
  - destruct (indirectNamed (Named pkg nm u)) as [[[pkg' nm'] [|[]|]]|]; no_call H.
Qed.

Lemma call_not_in_toNativeParams params n w a b :
  CallNative n w a b ∉ toNativeParams params.
Proof.
  intros H. unfold Emit.toNativeParams in H.
  apply list_elem_of_bind in H as (i & H & _).
  destruct (params !! i); [|no_call H].
  now apply call_not_in_emitToNativeParam in H.
Qed.

Lemma call_not_in_freeParams params n w a b :
  CallNative n w a b ∉ freeParams params.
Proof.
  intros H. unfold Emit.freeParams in H.
  apply list_elem_of_bind in H as (i & H & _).
  destruct (params !! i); [|no_call H].
  destruct (shouldFreeAfterCall _ _); no_call H.
Qed.

Lemma call_not_in_resultTail res returnsError n w a b :
  CallNative n w a b ∉ resultTail res returnsError.
Proof.
  intros H. unfold resultTail in H.
  destruct res as [|t [|e [|x rest]]]; try (no_call H).
  - destruct (negb returnsError); no_call H.
  - destruct returnsError; [|no_call H].
    destruct (isRefnumType t); simpl in H; no_call H.
Qed.

Lemma call_in_wrapper pre cName wr args b free tail n w a b' :
  CallNative n w a b' ∈ pre ++ [CallNative cName wr args b] ++ free ++ tail ->
  CallNative n w a b' ∉ pre -> CallNative n w a b' ∉ free ->
  CallNative n w a b' ∉ tail ->
  n = cName /\ w = wr /\ a = args /\ b' = b.
Proof.
  intros H Hpre Hfree Htail.
  apply elem_of_app in H as [H|H]; [contradiction|].
  apply elem_of_cons in H as [H|H]; [now injection H|].
  apply elem_of_app in H as [H|H]; contradiction.
Qed.

Lemma length_bind_one {A B} (f : A -> list B) (l : list A) :
  (forall x, x ∈ l -> length (f x) = 1%nat) -> length (l ≫= f) = length l.
Proof.
  induction l as [|x l IH]; intros H; [reflexivity|].
  change (length (f x ++ (l ≫= f)) = S (length l)).
  rewrite length_app, (H x) by apply list_elem_of_here.
  rewrite IH; [reflexivity|]. intros y Hy. apply H. now apply list_elem_of_further.
Qed.

Lemma length_paramDecls params : length (paramDecls params) = length params.
Proof.
  unfold paramDecls. rewrite length_bind_one.
  - unfold positions. apply length_seq.
  - intros i Hi. unfold positions in Hi. apply elem_of_seq in Hi.
    destruct (lookup_lt_is_Some_2 params i) as [p ->]; [lia|reflexivity].
Qed.

Lemma length_nativeArgs params : length (nativeArgs params) = length params.
Proof. unfold Emit.nativeArgs, positions. now rewrite length_fmap, length_seq. Qed.

Lemma csNativeType_not_void t : String.eqb (csNativeType t) "void" = false.
Proof.
  destruct t as [k|e|e|pkg nm u|]; try reflexivity.
  - destruct k; reflexivity.
  - destruct e as [k| | | |]; try reflexivity. destruct k; reflexivity.
Qed.

Lemma returnStruct_not_void n : String.eqb (csReturnStructName n) "void" = false.
Proof.
  destruct (String.eqb_spec (csReturnStructName n) "void") as [E|]; [|reflexivity].
  assert (Hne : "CProxy_" +:+ n +:+ "_Return" <> "") by discriminate.
  destruct (csIdentifier_valid IsLetterHigh _ Hne) as [_ Hk].
  unfold Collector.csReturnStructName in E. rewrite E in Hk. discriminate.
Qed.

Lemma hasResults_retType cName res re :
  returnsErrorOf true res = Some re ->
  hasResults res = negb (String.eqb (retTypeOf cName res) "void").
Proof.
  destruct res as [|t [|e [|x rest]]]; unfold retTypeOf, hasResults;
    cbn [length Nat.eqb negb].
  - reflexivity.
  - intros _. now rewrite csNativeType_not_void.
  - intros _. now rewrite returnStruct_not_void.
  - simpl. destruct (isErrorType e); discriminate.
Qed.

(** X13.  Every native entry that the wrapper of a package function, of a method
    of a struct, or of an accessor of a package variable calls is declared
    in the class [Native], with as many parameters as the call passes
    arguments (the refnum of the receiver counted) and with a return type
    that is [void] exactly when the wrapper binds no result. *)
Theorem native_calls_declared (universe : bool) (vars : list Var) (g : Generator)
    (c : Crossing) (body : list Stmt) (name : string) (wr : bool)
    (args : list string) (b : bool) :
  belongs vars g c ->
  crossingBody g c = Some body ->
  CallNative name wr args b ∈ body ->
  exists e, e ∈ emitNativeClass universe vars g /\
    ename e = name /\
    length (eparams e) = ((if wr then 1 else 0) + length args)%nat /\
    b = negb (String.eqb (eret e) "void").
Proof.
  intros Hin Hbody Hcall. unfold emitNativeClass.
  destruct c as [f|v|v|f|s f|s f|s m|i m]; simpl in Hin; try contradiction;
    simpl in Hbody.
  - unfold Emit.packageFunctionBody in Hbody.
    destruct (negb (isSigSupported (Sig f))) eqn:Hsig; [discriminate|].
    destruct (returnsErrorOf true (Results (Sig f))) as [re|] eqn:Hre; [|discriminate].
    injection Hbody as <-.
    apply call_in_wrapper in Hcall as (-> & -> & -> & ->);
      [|apply call_not_in_toNativeParams|apply call_not_in_freeParams
       |apply call_not_in_resultTail].
    eexists. split.
    + apply elem_of_app. right. apply elem_of_app. right. apply elem_of_app. left.
      apply list_elem_of_bind. exists f. split; [|exact Hin]. rewrite Hsig.
      apply list_elem_of_here.
    + simpl. split; [reflexivity|]. split.
      * now rewrite length_paramDecls, length_nativeArgs.
      * exact (hasResults_retType _ _ _ Hre).
  - unfold Emit.packageVariableGet in Hbody.
    destruct (negb (isSupported (vtype v))) eqn:Hsup; [discriminate|].
    injection Hbody as <-.
    apply elem_of_cons in Hcall as [Hcall|Hcall]; [|no_call Hcall].
    injection Hcall as -> -> -> ->.
    eexists. split.
    + apply elem_of_app. right. apply elem_of_app. left.
      apply list_elem_of_bind. exists v. split; [|exact Hin]. rewrite Hsup.
      apply list_elem_of_further, list_elem_of_here.
    + simpl. split; [reflexivity|]. split; [reflexivity|].
      now rewrite csNativeType_not_void.
  - unfold Emit.packageVariableSet in Hbody.
    destruct (negb (isSupported (vtype v))) eqn:Hsup; [discriminate|].
    injection Hbody as <-.
    apply elem_of_app in Hcall as [Hcall|Hcall];
      [now apply call_not_in_emitToNativeParam in Hcall|].
    apply elem_of_cons in Hcall as [Hcall|Hcall]; [|no_call Hcall].
    injection Hcall as -> -> -> ->.
    eexists. split.
    + apply elem_of_app. right. apply elem_of_app. left.
      apply list_elem_of_bind. exists v. split; [|exact Hin]. rewrite Hsup.
      apply list_elem_of_here.
    + simpl. repeat split.
  - destruct Hin as [Hs Hm].
    unfold Emit.structMethodBody, instanceMethodBody in Hbody.
    destruct (negb (isSigSupported (Sig m))) eqn:Hsig; [discriminate|].
    destruct (returnsErrorOf true (Results (Sig m))) as [re|] eqn:Hre; [|discriminate].
    injection Hbody as <-.
    do 3 (apply elem_of_cons in Hcall as [Hcall|Hcall]; [discriminate Hcall|]).
    apply call_in_wrapper in Hcall as (-> & -> & -> & ->);
      [|apply call_not_in_toNativeParams|apply call_not_in_freeParams
       |apply call_not_in_resultTail].
    eexists. split.
    + apply elem_of_app. right. apply elem_of_app. right. apply elem_of_app. right.
      apply elem_of_app. left.
      apply list_elem_of_bind. exists s. split; [|exact Hs].
      apply list_elem_of_bind. exists m. split; [|exact Hm]. rewrite Hsig.
      apply list_elem_of_here.
    + simpl. split; [reflexivity|]. split.
      * now rewrite length_paramDecls, length_nativeArgs.
      * exact (hasResults_retType _ _ _ Hre).
Qed.

(** X14.  [emitNativeClass] has no loop over the fields of a struct or over the
    methods of an interface proxy: if a declaration stands under the name
    that a field accessor or a method of an interface proxy calls, it was
    printed for a package function or for a method of a struct that happens
    to have the same C name.  Without such a namesake the call has no
    declaration. *)
Theorem native_calls_passed_over (universe : bool) (vars : list Var) (g : Generator)
    (c : Crossing) (body : list Stmt) (name : string) (wr : bool)
    (args : list string) (b : bool) (e : Extern) :
  passedOver c = true ->
  crossingBody g c = Some body ->
  CallNative name wr args b ∈ body ->
  e ∈ emitNativeClass universe vars g -> ename e = name ->
  (exists f, f ∈ funcs g /\ name = proxyFuncName g "" (Name f)) \/
  (exists s m, s ∈ structs g /\ m ∈ smethods s /\
     name = proxyFuncName g (sobj s) (Name m)).
Proof.
  intros Hc Hbody Hcall He Hname.
  assert (Hp : exists rest, name = String "p" rest).
  { destruct c as [f|v|v|f|s f|s f|s m|i m]; try discriminate; simpl in Hbody.
    - unfold Emit.structFieldGet in Hbody.
      destruct (negb (isSupported (vtype f))); [discriminate|].
      injection Hbody as <-. do 3 (apply elem_of_cons in Hcall as [Hcall|Hcall];
        [discriminate Hcall|]).
      apply elem_of_cons in Hcall as [Hcall|Hcall]; [|no_call Hcall].
      injection Hcall as -> _ _ _. eexists. reflexivity.
    - unfold Emit.structFieldSet in Hbody.
      destruct (negb (isSupported (vtype f))); [discriminate|].
      injection Hbody as <-.
      do 3 (apply elem_of_cons in Hcall as [Hcall|Hcall]; [discriminate Hcall|]).
      apply elem_of_app in Hcall as [Hcall|Hcall];
        [now apply call_not_in_emitToNativeParam in Hcall|].
      apply elem_of_cons in Hcall as [Hcall|Hcall]; [|no_call Hcall].
      injection Hcall as -> _ _ _. eexists. reflexivity.
    - unfold Emit.interfaceMethodBody, instanceMethodBody in Hbody.
      destruct (negb (isSigSupported (Sig m))); [discriminate|].
      destruct (returnsErrorOf false (Results (Sig m))) as [re|]; [|discriminate].
      injection Hbody as <-.
      do 3 (apply elem_of_cons in Hcall as [Hcall|Hcall]; [discriminate Hcall|]).
      apply call_in_wrapper in Hcall as (-> & _);
        [|apply call_not_in_toNativeParams|apply call_not_in_freeParams
         |apply call_not_in_resultTail].
      eexists. reflexivity. }
  destruct Hp as [rest ->]. unfold emitNativeClass in He.
  apply elem_of_app in He as [He|He].
  { destruct universe; [|now apply elem_of_nil in He].
    unfold rootExterns in He.
    repeat (apply elem_of_cons in He as [->|He]; [discriminate Hname|]).
    now apply elem_of_nil in He. }
  apply elem_of_app in He as [He|He].
  { apply list_elem_of_bind in He as (v & He & _).
    destruct (negb (isSupported (vtype v))); [now apply elem_of_nil in He|].
    repeat (apply elem_of_cons in He as [->|He]; [discriminate Hname|]).
    now apply elem_of_nil in He. }
  apply elem_of_app in He as [He|He].
  { apply list_elem_of_bind in He as (f & He & Hf).
    destruct (negb (isSigSupported (Sig f))); [now apply elem_of_nil in He|].
    apply list_elem_of_singleton in He as ->. simpl in Hname.
    left. exists f. split; [assumption|]. now symmetry. }
  apply elem_of_app in He as [He|He].
  { apply list_elem_of_bind in He as (s & He & Hs).
    apply list_elem_of_bind in He as (m & He & Hm).
    destruct (negb (isSigSupported (Sig m))); [now apply elem_of_nil in He|].
    apply list_elem_of_singleton in He as ->. simpl in Hname.
    right. exists s, m. repeat split; try assumption. now symmetry. }
  apply list_elem_of_bind in He as (i & He & _).
  apply list_elem_of_bind in He as (m & He & _).
  destruct (negb (isSigSupported (Sig m))); [now apply elem_of_nil in He|].
  apply list_elem_of_singleton in He as ->. discriminate Hname.
Qed.

End Declarations.

Lemma native_calls_declared_witness :
  exists e,
    e ∈ emitNativeClass isSigSupported isSupported paramNameOf (fun _ => false)
          false [] pkg /\
    ename e = "proxypkg_Counter_Inc" /\
    length (eparams e) = 1%nat /\
    false = negb (String.eqb (eret e) "void").
Proof.
  apply (native_calls_declared isSigSupported isSupported paramNameOf (fun _ => false)
           false [] pkg (StructMethod Counter Inc)
           [ThrowIfDisposed_; ThrowIfPending; IncGoRefThis;
            CallNative "proxypkg_Counter_Inc" true [] false]
           "proxypkg_Counter_Inc" true [] false).
  - split; apply list_elem_of_here.
  - reflexivity.
  - do 3 apply list_elem_of_further. apply list_elem_of_here.
Defined.

(** A struct [A] with a field [B] and a method [B_Get]: the one C name
    [proxyclash_A_B_Get] serves both. *)
Definition clashStruct : structInfo :=
  {| sobj := "A";
     smethods := [ {| Name := "B_Get"; Sig := {| Params := []; Results := [] |} |} ] |}.
Definition clashPackage : Generator :=
  {| pkgPrefix := "clash"; funcs := []; structs := [clashStruct]; interfaces := [] |}.

Lemma native_calls_passed_over_witness :
  (exists f, f ∈ funcs clashPackage /\
     "proxyclash_A_B_Get" = proxyFuncName clashPackage "" (Name f)) \/
  (exists s m, s ∈ structs clashPackage /\ m ∈ smethods s /\
     "proxyclash_A_B_Get" = proxyFuncName clashPackage (sobj s) (Name m)).
Proof.
  apply (native_calls_passed_over isSigSupported isSupported paramNameOf
           (fun _ => false) false [] clashPackage
           (StructFieldGet clashStruct {| vname := "B"; vtype := Basic KInt |})
           [ThrowIfDisposed_; ThrowIfPending; IncGoRefThis;
            CallNative "proxyclash_A_B_Get" true [] true;
            ReturnFromNative (SrcVar "res") (Basic KInt) true]
           "proxyclash_A_B_Get" true [] true
           {| ename := "proxyclash_A_B_Get"; eret := "void";
              eparams := [("int", "refnum")] |}).
  - reflexivity.
  - reflexivity.
  - do 3 apply list_elem_of_further. apply list_elem_of_here.
  - apply list_elem_of_here.
  - reflexivity.
Defined.

(** In the package [pkg] the proxy of the interface [Sink] calls
    [proxypkg_Sink_Size], and the class [Native] declares three entries,
    none of that name. *)
Example sink_proxy_entry_undeclared :
  (exists body, bodyOf (InterfaceMethod Sink Size) = Some body /\
     CallNative "proxypkg_Sink_Size" true [] true ∈ body) /\
  ename <$> emitNativeClass isSigSupported isSupported paramNameOf (fun _ => false)
              false [] pkg
  = ["proxypkg__Poke"; "proxypkg__Open"; "proxypkg_Counter_Inc";
     "go_seq_set_cproxypkg_Sink_Size"].
Proof.
  split; [|reflexivity]. eexists. split; [reflexivity|].
  do 3 apply list_elem_of_further. apply list_elem_of_here.
Qed.

(** *** The wire representation *)

(** X15.  For every type that [csNativeType] accepts, the three places that
    settle how a value of the type crosses the boundary agree: the wire type
    that [csNativeType] declares, the value that the conversion to the wire
    makes, and the default that a trampoline returns after an exception all
    have the same representation (a scalar, an [NString] or an
    [NByteslice]). *)
Theorem wire_shapes_agree (t : GoType) :
  csNativeTypeOk t = true ->
  shapeOf (defaultNativeReturn t) = Some (shapeOfType (csNativeType t)) /\
  (forall v st w st', toNative t v st = (Ok w, st') ->
     shapeOf w = Some (shapeOfType (csNativeType t))).
Proof.
  intros Hok. split.
  - destruct t as [k|e|e|pkg nm u|]; try discriminate; try reflexivity.
    + destruct k; try discriminate; reflexivity.
    + destruct e as [k| | | |]; try discriminate. destruct k; try discriminate.
      reflexivity.
  - intros v st w st' H.
    assert (Htext : forall s, StringToNString s st = (Ok w, st') -> shapeOf w = Some Text).
    { intros s Hs. unfold StringToNString in Hs.
      destruct s as [[|c s]|]; injection Hs as <- _; reflexivity. }
    assert (Hbytes : forall bs, BytesToNByteslice bs st = (Ok w, st') ->
              shapeOf w = Some Bytes).
    { intros bs Hs. unfold BytesToNByteslice in Hs.
      destruct bs as [[|c bs]|]; injection Hs as <- _; reflexivity. }
    assert (Href : (r <- IncRef (asObject v) ;; ret (NInt r)) st = (Ok w, st') ->
              shapeOf w = Some Scalar).
    { unfold bind, ret. destruct (IncRef (asObject v) st) as [[r|ex|] s1];
        [|discriminate|discriminate].
      intros [= <- _]. reflexivity. }
    destruct t as [k|e|e|pkg nm u|]; try discriminate.
    + destruct k; try discriminate; simpl in H;
        try (injection H as <- _; reflexivity); exact (Htext _ H).
    + destruct e as [k| | | |]; try discriminate. destruct k; try discriminate.
      exact (Hbytes _ H).
    + exact (Href H).
    + exact (Href H).
Qed.

Lemma wire_shapes_agree_witness :
  shapeOf (defaultNativeReturn (Slice (Basic KUint8))) = Some Bytes /\
  shapeOf (NByteslice 4096 2) = Some Bytes.
Proof.
  destruct (wire_shapes_agree (Slice (Basic KUint8)) eq_refl) as [H1 H2].
  split; [exact H1|].
  exact (H2 (MBytes (Some ["g"; "o"]%char)) initialState (NByteslice 4096 2)
            (BytesToNByteslice (Some ["g"; "o"]%char) initialState).2 eq_refl).
Defined.

(** A type that [csNativeType] rejects: a slice of anything but bytes is
    declared as [int] and converted like a byte array. *)
Example rejected_slice_shapes :
  csNativeTypeOk (Slice (Basic KInt32)) = false /\
  shapeOfType (csNativeType (Slice (Basic KInt32))) = Scalar /\
  shapeOf (defaultNativeReturn (Slice (Basic KInt32))) = Some Bytes.
Proof. repeat split. Qed.

(** *** The records behind the return types *)

Lemma firstShape_complete name res rs :
  (name, res) ∈ rs -> (1 < length res)%nat -> is_Some (firstShape name rs).
Proof.
  induction rs as [|[n r] rest IH]; intros Hin Hlen.
  - now apply elem_of_nil in Hin.
  - simpl. destruct (String.eqb n name && (1 <? length r)%nat) eqn:E; [eauto|].
    apply elem_of_cons in Hin as [[= -> ->]|Hin]; [|now apply IH].
    rewrite String.eqb_refl in E. simpl in E.
    apply Nat.ltb_ge in E. lia.
Qed.

Lemma firstShape_own name res rs :
  NoDup (fst <$> rs) -> (name, res) ∈ rs -> (1 < length res)%nat ->
  firstShape name rs = Some res.
Proof.
  induction rs as [|[n r] rest IH]; intros Hnd Hin Hlen.
  - now apply elem_of_nil in Hin.
  - simpl in *. apply NoDup_cons in Hnd as [Hn Hnd].
    apply elem_of_cons in Hin as [[= -> ->]|Hin].
    + rewrite String.eqb_refl. simpl.
      now replace (1 <? length r)%nat with true by (symmetry; apply Nat.ltb_lt; lia).
    + destruct (String.eqb_spec n name) as [->|Hne]; simpl; [|now apply IH].
      exfalso. apply Hn. apply list_elem_of_fmap. exists (name, res). now split.
Qed.

(** X16.  Every function or method with two or more results has a record under
    its canonical C name, so the record type that its declaration, its
    wrapper or its trampoline names is printed; and when no two callables
    share a canonical name, the record holds the results of that very
    callable. *)
Theorem return_records_complete (g : Generator) (name : string) (res : list GoType) :
  (name, res) ∈ registrations g -> (1 < length res)%nat ->
  is_Some (collectReturnStructs g !! name) /\
  (NoDup (fst <$> registrations g) -> collectReturnStructs g !! name = Some res).
Proof.
  intros Hin Hlen.
  assert (Hm : collectReturnStructs g !! name = firstShape name (registrations g)).
  { rewrite collectReturnStructs_all, collectAll_lookup. now rewrite lookup_empty. }
  rewrite Hm. split.
  - now apply firstShape_complete with (res := res).
  - intros Hnd. now apply firstShape_own.
Qed.

Lemma return_records_complete_witness :
  collectReturnStructs storePackage !! "cproxykv_Store_Get"
  = Some [Basic KString; errorType].
Proof.
  destruct (return_records_complete storePackage "cproxykv_Store_Get"
              [Basic KString; errorType]) as [_ H].
  - apply list_elem_of_further, list_elem_of_here.
  - simpl. lia.
  - apply H. vm_compute. repeat constructor; intros Hin;
      repeat (apply elem_of_cons in Hin as [Hin|Hin]; [discriminate Hin|]);
      now apply elem_of_nil in Hin.
Defined.

End NativeClass.

(* ===================================================================== *)
(** ** The C bridge of the callbacks *)
(* ===================================================================== *)

Module Bridge.
Import GoTypes Collector Runtime Emit.

(** What [genCProxyBridge] prints for one method: the dispatcher
    [cproxy<pkg>_<iface>_<method>] with its static slot, and the exported
    setter of the slot. *)
Record CBridge := {
  dispatcher : string;
  setter : string;
  nparams : nat;
  nresults : nat
}.

(** The static slots of the C file, by the name of their dispatcher; a slot
    that holds [NULL] is absent.  A function pointer is known by the name of
    the delegate it was made from. *)
Abbreviation CState := (gmap string string).

(** How a call of a dispatcher ends: [abort()], or the call of the function
    in the slot with the refnum and the arguments handed on. *)
Inductive CCall :=
  | Aborted
  | Forward (fn : string) (refnum : Z) (args : list NVal).

(** The printed dispatcher: [atomic_load], the test for [NULL], the call. *)
Definition dispatch (s : CState) (b : CBridge) (refnum : Z) (args : list NVal) : CCall :=
  match s !! dispatcher b with
  | None => Aborted
  | Some fn => Forward fn refnum args
  end.

(** The printed setter: [atomic_store]. *)
Definition store (b : CBridge) (fn : string) (s : CState) : CState :=
  <[dispatcher b := fn]> s.

(** The export that the library resolves a name to: the first function of
    that name. *)
Fixpoint export (bridges : list CBridge) (name : string) : option CBridge :=
  match bridges with
  | [] => None
  | b :: rest => if String.eqb (setter b) name then Some b else export rest name
  end.

(** The setter calls of a log, made on the C side one after the other;
    [None] when a name has no export. *)
Fixpoint replay (bridges : list CBridge) (events : list Event) (s : CState)
  : option CState :=
  match events with
  | [] => Some s
  | Native_SetCallback name fn :: rest =>
      match export bridges name with
      | Some b => replay bridges rest (store b fn s)
      | None => None
      end
  | _ :: rest => replay bridges rest s
  end.

Section Bridges.

Variable isSigSupported : Signature -> bool.
Variable IsLetterHigh : Z -> bool.

(** [iface.summary.implementable] of bind/gen.go. *)
Variable implementable : interfaceInfo -> bool.

Local Abbreviation registrationsOf := (registrationsOf isSigSupported IsLetterHigh).
Local Abbreviation csIdentifier := (Sanitizer.csIdentifier IsLetterHigh).

Definition cproxySetterName (pkgPrefix ifaceName methodName : string) : string :=
  "go_seq_set_cproxy" +:+ pkgPrefix +:+ "_" +:+ ifaceName +:+ "_" +:+ methodName.

Definition genCProxyBridge (g : Generator) (ifaceName : string) (m : Func) : CBridge :=
  {| dispatcher := "cproxy" +:+ pkgPrefix g +:+ "_" +:+ ifaceName +:+ "_" +:+ Name m;
     setter := cproxySetterName (pkgPrefix g) ifaceName (Name m);
     nparams := length (Params (Sig m));
     nresults := length (Results (Sig m)) |}.

(** [GenC]: the bridges in the order printed. *)
Definition GenC (g : Generator) : list CBridge :=
  i ← interfaces g;
  if negb (implementable i) then []
  else m ← callable i;
       if negb (isSigSupported (Sig m)) then []
       else [genCProxyBridge g (iobj i) m].

(** The delegate that [EnsureRegistered] hands to the setter of [m]. *)
Definition handlerOf (m : Func) : string :=
  csIdentifier ("Callback_" +:+ Name m +:+ "Handler").

Definition setEvent (c : string * string) : Event := Native_SetCallback c.1 c.2.

Lemma foldl_emit l : forall st,
  log (foldl (fun st c => emit (Native_SetCallback c.1 c.2) st) st l)
    = log st ++ (setEvent <$> l) /\
  registered (foldl (fun st c => emit (Native_SetCallback c.1 c.2) st) st l)
    = registered st.
Proof.
  induction l as [|c l IH]; intros st; simpl.
  - now rewrite app_nil_r.
  - destruct (IH (emit (Native_SetCallback c.1 c.2) st)) as [Hl Hr].
    rewrite Hl, Hr. simpl. now rewrite <- app_assoc.
Qed.

Lemma bridge_in_GenC g i m :
  i ∈ interfaces g -> implementable i = true ->
  m ∈ callable i -> isSigSupported (Sig m) = true ->
  genCProxyBridge g (iobj i) m ∈ GenC g.
Proof.
  intros Hi Himpl Hm Hsig. unfold GenC.
  apply list_elem_of_bind. exists i. split; [|exact Hi]. rewrite Himpl. simpl.
  apply list_elem_of_bind. exists m. split; [|exact Hm]. rewrite Hsig. simpl.
  apply list_elem_of_here.
Qed.

Lemma bridge_wf g b : b ∈ GenC g -> setter b = "go_seq_set_" +:+ dispatcher b.
Proof.
  unfold GenC. intros (i & Hb & _)%list_elem_of_bind.
  destruct (negb (implementable i)); [now apply elem_of_nil in Hb|].
  apply list_elem_of_bind in Hb as (m & Hb & _).
  destruct (negb (isSigSupported (Sig m))); [now apply elem_of_nil in Hb|].
  apply list_elem_of_singleton in Hb as ->. reflexivity.
Qed.

Lemma export_found bridges b :
  b ∈ bridges ->
  exists b', export bridges (setter b) = Some b' /\ setter b' = setter b /\ b' ∈ bridges.
Proof.
  induction bridges as [|x rest IH]; intros Hin; [now apply elem_of_nil in Hin|].
  simpl. destruct (String.eqb_spec (setter x) (setter b)) as [E|E].
  - exists x. repeat split; [assumption|apply list_elem_of_here].
  - apply elem_of_cons in Hin as [->|Hin]; [congruence|].
    destruct (IH Hin) as (b' & H1 & H2 & H3). exists b'.
    repeat split; [assumption|assumption|now apply list_elem_of_further].
Qed.

Lemma export_dispatcher g b :
  b ∈ GenC g ->
  exists b', export (GenC g) (setter b) = Some b' /\ dispatcher b' = dispatcher b.
Proof.
  intros Hb. destruct (export_found _ _ Hb) as (b' & He & Hs & Hb').
  exists b'. split; [assumption|].
  rewrite (bridge_wf _ _ Hb), (bridge_wf _ _ Hb') in Hs.
  now apply (inj (String.app "go_seq_set_")) in Hs.
Qed.

Lemma same_slot_same_handler g ifaceName m m' :
  dispatcher (genCProxyBridge g ifaceName m) = dispatcher (genCProxyBridge g ifaceName m') ->
  handlerOf m = handlerOf m'.
Proof.
  unfold genCProxyBridge, handlerOf. cbn [dispatcher]. intros H.
  do 5 apply (inj (String.app _)) in H. now rewrite H.
Qed.

Lemma replay_registrations g i :
  i ∈ interfaces g -> implementable i = true ->
  forall ms, (forall m, m ∈ ms -> m ∈ callable i) ->
  forall s, exists s',
    replay (GenC g)
      (setEvent <$> (ms ≫= fun m =>
         if negb (isSigSupported (Sig m)) then []
         else [(cproxySetterName (pkgPrefix g) (iobj i) (Name m), handlerOf m)])) s
      = Some s' /\
    (forall m, m ∈ ms -> isSigSupported (Sig m) = true ->
       s' !! dispatcher (genCProxyBridge g (iobj i) m) = Some (handlerOf m)) /\
    (forall d h, s !! d = Some h ->
       (forall m, m ∈ ms -> isSigSupported (Sig m) = true ->
          dispatcher (genCProxyBridge g (iobj i) m) = d -> handlerOf m = h) ->
       s' !! d = Some h).
Proof.
  intros Hi Himpl ms. induction ms as [|m0 ms IH]; intros Hms s.
  - exists s. split; [reflexivity|]. split.
    + intros m Hm. now apply elem_of_nil in Hm.
    + intros d h Hd _. exact Hd.
  - assert (Hrest : forall m, m ∈ ms -> m ∈ callable i)
      by (intros m Hm; apply Hms; now apply list_elem_of_further).
    change ((m0 :: ms) ≫= _) with
      ((if negb (isSigSupported (Sig m0)) then []
        else [(cproxySetterName (pkgPrefix g) (iobj i) (Name m0), handlerOf m0)]) ++
       (ms ≫= fun m =>
          if negb (isSigSupported (Sig m)) then []
          else [(cproxySetterName (pkgPrefix g) (iobj i) (Name m), handlerOf m)])).
    destruct (isSigSupported (Sig m0)) eqn:Hsig; simpl.
    + pose proof (bridge_in_GenC g i m0 Hi Himpl (Hms m0 (list_elem_of_here _ _)) Hsig)
        as Hb.
      destruct (export_dispatcher g _ Hb) as (b' & Hexp & Hdisp).
      change (cproxySetterName (pkgPrefix g) (iobj i) (Name m0))
        with (setter (genCProxyBridge g (iobj i) m0)).
      rewrite Hexp.
      destruct (IH Hrest (store b' (handlerOf m0) s)) as (s' & Hrun & Hnew & Hold).
      exists s'. split; [exact Hrun|]. split.
      * intros m Hm Hsup. apply elem_of_cons in Hm as [->|Hm]; [|now apply Hnew].
        apply Hold.
        -- unfold store. rewrite Hdisp. apply lookup_insert_eq.
        -- intros m' _ _ E. now apply same_slot_same_handler with (g := g) (ifaceName := iobj i).
      * intros d h Hd Hall. apply Hold.
        -- unfold store. rewrite Hdisp.
           destruct (decide (dispatcher (genCProxyBridge g (iobj i) m0) = d)) as [E|E].
           ++ rewrite E, lookup_insert_eq. f_equal.
              apply (Hall m0); [apply list_elem_of_here|assumption|assumption].
           ++ now rewrite lookup_insert_ne.
        -- intros m Hm. apply Hall. now apply list_elem_of_further.
    + destruct (IH Hrest s) as (s' & Hrun & Hnew & Hold).
      exists s'. split; [exact Hrun|]. split.
      * intros m Hm Hsup. apply elem_of_cons in Hm as [->|Hm]; [congruence|].
        now apply Hnew.
      * intros d h Hd Hall. apply Hold; [assumption|].
        intros m Hm. apply Hall. now apply list_elem_of_further.
Qed.

(** X17.  From [EnsureRegistered] of a proxy class to the C dispatchers.  The
    first call for an implementable interface calls one setter for each
    supported method, in the order of the methods; every one of these names
    is exported by the C file that [GenC] prints; and afterwards the
    dispatcher of each of these methods forwards its call, the refnum and
    the arguments as they are, to the trampoline delegate of that method.
    Before the registration the dispatcher aborts.  A second
    [EnsureRegistered] does nothing.  ([Seq.Touch()] only forces the static
    constructor of [Seq], which every state here has behind it.) *)
Theorem registration_reaches_dispatcher (g : Generator) (i : interfaceInfo)
    (callbacks : string -> list (string * string)) (proxyName : string)
    (st : State) :
  i ∈ interfaces g -> implementable i = true ->
  callbacks proxyName = registrationsOf g i ->
  proxyName ∉ registered st ->
  let st' := (ensureRegistered callbacks proxyName st).2 in
  let events := setEvent <$> registrationsOf g i in
  log st' = log st ++ events /\
  ensureRegistered callbacks proxyName st' = (Ok tt, st') /\
  exists s', replay (GenC g) events ∅ = Some s' /\
    forall m refnum args, m ∈ callable i -> isSigSupported (Sig m) = true ->
      dispatch s' (genCProxyBridge g (iobj i) m) refnum args
        = Forward (handlerOf m) refnum args /\
      dispatch ∅ (genCProxyBridge g (iobj i) m) refnum args = Aborted.
Proof.
  intros Hi Himpl Hcb Hnew st' events.
  assert (Hst : st' = foldl (fun st c => emit (Native_SetCallback c.1 c.2) st)
                        (set_registered ({[proxyName]} ∪ registered st) st)
                        (callbacks proxyName)).
  { unfold st', ensureRegistered. rewrite bool_decide_eq_false_2 by assumption.
    reflexivity. }
  destruct (foldl_emit (callbacks proxyName)
              (set_registered ({[proxyName]} ∪ registered st) st)) as [Hlog Hreg].
  rewrite <- Hst in Hlog. rewrite <- Hst in Hreg. split; [|split].
  - rewrite Hlog, Hcb. reflexivity.
  - unfold ensureRegistered. rewrite bool_decide_eq_true_2; [reflexivity|].
    rewrite Hreg. simpl. apply elem_of_union_l. now apply elem_of_singleton.
  - destruct (replay_registrations g i Hi Himpl (callable i) (fun m H => H) ∅)
      as (s' & Hrun & Hslots & _).
    exists s'. split; [exact Hrun|].
    intros m refnum args Hm Hsig. unfold dispatch.
    rewrite (Hslots m Hm Hsig), lookup_empty. split; reflexivity.
Qed.

End Bridges.

(** The interface [Sink] of the package [pkg], taken as implementable. *)
Lemma registration_reaches_dispatcher_witness :
  exists s',
    replay (GenC isSigSupported (fun _ => true) pkg)
      [Native_SetCallback "go_seq_set_cproxypkg_Sink_Size" "Callback_SizeHandler"] ∅
      = Some s' /\
    forall m refnum args, m ∈ callable Sink -> isSigSupported (Sig m) = true ->
      dispatch s' (genCProxyBridge pkg (iobj Sink) m) refnum args
        = Forward (handlerOf (fun _ => false) m) refnum args /\
      dispatch ∅ (genCProxyBridge pkg (iobj Sink) m) refnum args = Aborted.
Proof.
  destruct (registration_reaches_dispatcher isSigSupported (fun _ => false)
              (fun _ => true) pkg Sink
              (fun _ => registrationsOf isSigSupported (fun _ => false) pkg Sink)
              "ProxySink" initialState) as (_ & _ & H).
  - apply list_elem_of_here.
  - reflexivity.
  - reflexivity.
  - simpl. set_solver.
  - exact H.
Defined.

End Bridge.

(* ===================================================================== *)
(** ** The debug writer of the Go runtime (seq_windows_debug.go) *)
(* ===================================================================== *)

Module DebugWrite.

Definition maxChunk : nat := 256.

(** What [OutputDebugStringA] reads from the buffer it is handed: the
    bytes before the first NUL. *)
Fixpoint cstring (buffer : list ascii) : list ascii :=
  match buffer with
  | [] => []
  | b :: rest => if Ascii.eqb b zero then [] else b :: cstring rest
  end.

Definition chunkSize (input : list ascii) : nat :=
  if (maxChunk - 1 <? length input)%nat then (maxChunk - 1)%nat else length input.

(** One turn of the loop: the zeroed [buffer], the [copy], and the NUL
    written after the chunk. *)
Definition fill (input : list ascii) : list ascii :=
  <[chunkSize input := zero]>
    (take (chunkSize input) input ++ replicate (maxChunk - chunkSize input) zero).

(** The loop [for len(input) > 0], with the buffers handed to
    [seq_debug_output] so far; it returns them with what is left of the
    input when the turns run out. *)
Fixpoint loop (turns : nat) (input : list ascii) (out : list (list ascii))
  : list (list ascii) * list ascii :=
  match turns with
  | O => (out, input)
  | S k =>
      match input with
      | [] => (out, input)
      | _ => loop k (drop (chunkSize input) input) (out ++ [fill input])
      end
  end.

(** How a call ends: it returns a number, having handed buffers to
    [seq_debug_output], or it panics. *)
Inductive Written :=
  | Wrote (buffers : list (list ascii)) (result : Z)
  | Panic.

(** The first [n] bytes of the array of [1 << 30] bytes that the pointer is
    cast to: [p i] is the byte at offset [i] from the pointer.  The slice
    expression panics when [n] is negative or beyond the array. *)
Definition slice (p : nat -> ascii) (n : Z) : option (list ascii) :=
  if (n <? 0) || (2 ^ 30 <? n) then None
  else Some (p <$> seq 0 (Z.to_nat n)).

(** [debugWrite(fd, p, n)], with [n] an [int32].  The loop needs at most
    one turn for each byte. *)
Definition debugWrite (fd : Z) (p : nat -> ascii) (n : Z) : Written :=
  if negb (fd =? 2) then Wrote [] n
  else
    match slice p n with
    | None => Panic
    | Some input => Wrote (loop (length input) input []).1 n
    end.

Lemma cstring_app_zero l r : zero ∉ l -> cstring (l ++ zero :: r) = l.
Proof.
  induction l as [|b l IH]; intros H; simpl; [reflexivity|].
  destruct (Ascii.eqb_spec b zero) as [->|Hb].
  - exfalso. apply H. apply list_elem_of_here.
  - f_equal. apply IH. intros Hin. apply H. now apply list_elem_of_further.
Qed.

Lemma cstring_app_zero_le l r : (length (cstring (l ++ zero :: r)) <= length l)%nat.
Proof.
  induction l as [|b l IH]; simpl; [lia|].
  destruct (Ascii.eqb b zero); simpl; lia.
Qed.

Lemma chunkSize_bounds input :
  input <> [] ->
  (1 <= chunkSize input <= 255)%nat /\ (chunkSize input <= length input)%nat.
Proof.
  intros H. unfold chunkSize, maxChunk. destruct input as [|b input]; [congruence|].
  simpl length. destruct (Nat.ltb_spec (256 - 1) (S (length input))); lia.
Qed.

Lemma fill_shape input :
  input <> [] ->
  fill input = take (chunkSize input) input ++
               zero :: replicate (maxChunk - chunkSize input - 1) zero.
Proof.
  intros H. destruct (chunkSize_bounds input H) as [Hc Hl]. unfold fill.
  remember (maxChunk - chunkSize input - 1)%nat as k eqn:Hk.
  replace (maxChunk - chunkSize input)%nat with (S k) by (unfold maxChunk in *; lia).
  rewrite insert_app_r_alt by (rewrite length_take; lia).
  rewrite length_take. replace (chunkSize input - chunkSize input `min` length input)%nat
    with 0%nat by lia.
  reflexivity.
Qed.

Lemma loop_spec turns : forall input out,
  (length input <= turns)%nat ->
  exists bufs,
    loop turns input out = (out ++ bufs, []) /\
    Forall (fun b => length b = maxChunk /\ (length (cstring b) <= 255)%nat) bufs /\
    (zero ∉ input -> concat (cstring <$> bufs) = input) /\
    length bufs = ((length input + 254) / 255)%nat.
Proof.
  induction turns as [|k IH]; intros input out Hlen.
  - destruct input; [|simpl in Hlen; lia]. exists []. simpl.
    rewrite app_nil_r. repeat split; constructor.
  - destruct input as [|b input].
    { exists []. simpl. rewrite app_nil_r. repeat split; constructor. }
    assert (Hne : b :: input <> []) by discriminate.
    assert (Hpos : (1 <= length (b :: input))%nat) by (simpl; lia).
    remember (b :: input) as inp eqn:Einp.
    destruct (chunkSize_bounds inp Hne) as [Hc Hl].
    assert (Hrest : (length (drop (chunkSize inp) inp) <= k)%nat).
    { rewrite length_drop. lia. }
    destruct (IH (drop (chunkSize inp) inp) (out ++ [fill inp]) Hrest)
      as (bufs & Hrun & Hall & Hcat & Hcount).
    exists (fill inp :: bufs). split; [|split; [|split]].
    + transitivity (loop k (drop (chunkSize inp) inp) (out ++ [fill inp]));
        [rewrite Einp; reflexivity|].
      rewrite Hrun, <- app_assoc. reflexivity.
    + constructor; [|exact Hall]. rewrite (fill_shape inp Hne). split.
      * rewrite length_app, length_take, length_cons, length_replicate.
        unfold maxChunk. lia.
      * etransitivity; [apply cstring_app_zero_le|]. rewrite length_take. lia.
    + intros Hz. rewrite fmap_cons. cbn [concat].
      rewrite (fill_shape inp Hne), cstring_app_zero.
      * rewrite Hcat; [apply take_drop|].
        intros Hin. apply Hz. now apply (subseteq_drop (chunkSize inp) inp).
      * intros Hin. apply Hz. now apply (subseteq_take (chunkSize inp) inp).
    + rewrite length_cons, Hcount, length_drop.
      unfold chunkSize, maxChunk in *.
      destruct (Nat.ltb_spec (256 - 1) (length inp)) as [Hbig|Hsmall].
      * replace (length inp + 254)%nat with ((length inp - (256 - 1) + 254) + 1 * 255)%nat
          by lia.
        rewrite Nat.div_add by lia. lia.
      * replace (length inp - length inp + 254)%nat with 254%nat by lia.
        replace (length inp + 254)%nat with ((length inp - 1) + 1 * 255)%nat by lia.
        rewrite Nat.div_add by lia.
        rewrite (Nat.div_small (length inp - 1) 255) by lia.
        reflexivity.
Qed.

(** X18.  Through [debugWrite] only what the runtime writes to the standard error
    reaches the debugger: a write to any other descriptor is reported as
    written in full and goes nowhere, whatever the length says.  A write to
    descriptor 2 with a length that is negative or above 2^30 panics in the
    slice expression.  With a length from 0 to 2^30 the [n] bytes at [p]
    are handed on in buffers of 256 bytes that hold at most 255 bytes of
    the message before a NUL, one buffer for every 255 bytes begun; the
    loop ends with the input used up and the call returns [n]; and a
    message without NUL bytes arrives whole and in order. *)
Theorem debugWrite_chunks (fd : Z) (p : nat -> ascii) (n : Z) :
  (fd <> 2 -> debugWrite fd p n = Wrote [] n) /\
  (n < 0 \/ 2 ^ 30 < n -> debugWrite 2 p n = Panic) /\
  (0 <= n <= 2 ^ 30 ->
   let input := p <$> seq 0 (Z.to_nat n) in
   exists bufs,
     debugWrite 2 p n = Wrote bufs n /\
     length input = Z.to_nat n /\
     (loop (length input) input []).2 = [] /\
     Forall (fun b => length b = maxChunk /\ (length (cstring b) <= 255)%nat) bufs /\
     length bufs = ((Z.to_nat n + 254) / 255)%nat /\
     (zero ∉ input -> concat (cstring <$> bufs) = input)).
Proof.
  split; [|split].
  - intros Hfd. unfold debugWrite.
    destruct (Z.eqb_spec fd 2); [contradiction|reflexivity].
  - intros Hn. unfold debugWrite, slice. simpl.
    destruct (Z.ltb_spec n 0); [reflexivity|].
    destruct (Z.ltb_spec (2 ^ 30) n); [reflexivity|lia].
  - intros Hn input.
    assert (Hlen : length input = Z.to_nat n).
    { unfold input. now rewrite length_fmap, length_seq. }
    destruct (loop_spec (length input) input [] (Nat.le_refl _))
      as (bufs & Hrun & Hall & Hcat & Hcount).
    exists bufs. unfold debugWrite, slice. cbn [Z.eqb negb].
    destruct (Z.ltb_spec n 0); [lia|].
    destruct (Z.ltb_spec (2 ^ 30) n); [lia|]. cbn [orb].
    fold input. rewrite Hrun. cbn [fst snd app].
    rewrite <- Hlen. repeat split; assumption.
Qed.

Definition allA (i : nat) : ascii := "a"%char.

Lemma debugWrite_chunks_witness :
  exists bufs,
    debugWrite 2 allA 300 = Wrote bufs 300 /\
    concat (cstring <$> bufs) = replicate 300 "a"%char.
Proof.
  destruct (debugWrite_chunks 2 allA 300) as (_ & _ & H).
  destruct H as (bufs & Hrun & _ & _ & _ & _ & Hcat); [lia|].
  exists bufs. split; [exact Hrun|].
  rewrite Hcat; [vm_compute; reflexivity|].
  intros Hin. apply list_elem_of_fmap in Hin as (i & Hi & _). discriminate Hi.
Defined.

Example debugWrite_two_buffers :
  (exists b1 b2, debugWrite 2 allA 300 = Wrote [b1; b2] 300) /\
  debugWrite 1 allA 300 = Wrote [] 300 /\
  debugWrite 1 allA (-1) = Wrote [] (-1) /\
  debugWrite 2 allA (-1) = Panic.
Proof. split; [eexists _, _|]; repeat split; vm_compute; reflexivity. Qed.

(** A NUL byte in the message cuts off the rest of its chunk. *)
Example debugWrite_nul_truncates :
  match debugWrite 2 (fun i => nth i ["a"; zero; "b"]%char zero) 3 with
  | Wrote bufs _ => cstring <$> bufs = [["a"%char]]
  | Panic => False
  end.
Proof. vm_compute. reflexivity. Qed.

End DebugWrite.

(* ===================================================================== *)
(** ** The drivers of [gomobile bind] *)
(* ===================================================================== *)

Module Driver.

(** [strings.HasSuffix], [strings.TrimSuffix] and [strings.Join] of the Go
    standard library. *)
Definition HasSuffix (s suffix : string) : bool :=
  (String.length suffix <=? String.length s)%nat &&
  String.eqb (substring (String.length s - String.length suffix)
                        (String.length suffix) s) suffix.

Definition TrimSuffix (s suffix : string) : string :=
  if HasSuffix s suffix
  then substring 0 (String.length s - String.length suffix) s
  else s.

Fixpoint JoinWith (sep : string) (parts : list string) : string :=
  match parts with
  | [] => EmptyString
  | [part] => part
  | part :: rest => part +:+ sep +:+ JoinWith sep rest
  end.

Lemma length_append a b :
  String.length (a +:+ b) = (String.length a + String.length b)%nat.
Proof.
  induction a as [|c a IH]; [reflexivity|].
  change (S (String.length (a +:+ b)) = S (String.length a + String.length b)).
  now rewrite IH.
Qed.

Lemma substring_whole s : substring 0 (String.length s) s = s.
Proof. induction s as [|c s IH]; simpl; [reflexivity|now rewrite IH]. Qed.

Lemma substring_tail a b :
  substring (String.length a) (String.length b) (a +:+ b) = b.
Proof.
  induction a as [|c a IH]; [apply substring_whole|exact IH].
Qed.

Lemma substring_head a b : substring 0 (String.length a) (a +:+ b) = a.
Proof.
  induction a as [|c a IH]; [now destruct b|].
  change (String c (substring 0 (String.length a) (a +:+ b)) = String c a).
  now rewrite IH.
Qed.

Lemma HasSuffix_append a b : HasSuffix (a +:+ b) b = true.
Proof.
  unfold HasSuffix. rewrite length_append.
  replace (String.length a + String.length b - String.length b)%nat
    with (String.length a) by lia.
  rewrite substring_tail, String.eqb_refl, andb_true_r.
  apply Nat.leb_le. lia.
Qed.

Lemma TrimSuffix_append a b : TrimSuffix (a +:+ b) b = a.
Proof.
  unfold TrimSuffix. rewrite HasSuffix_append, length_append.
  replace (String.length a + String.length b - String.length b)%nat
    with (String.length a) by lia.
  apply substring_head.
Qed.

(** *** [goWindowsBind] (bind_windows_target.go) *)

Record targetInfo := { platform : string; arch : string }.
Record Package := { PkgName : string; PkgPath : string }.

(** The flags of the command that the function reads; [buildO] is passed
    apart, since the function assigns to it. *)
Record Flags := {
  tmpdir : string;
  buildTags : list string;
  bindCSharpPkg : string;
  bindCSharpNamespace : string;
  bindCSharpPackageName : string;
  buildN : bool
}.

(** What the function does to the world, in the order done. *)
Inductive Action :=
  | RunCmd (args env : list string)
  | AreGoModulesUsed
  | DoCopyAll (dst src : string)
  | Mkdir (dir : string)
  | GoBuildAt (dir src : string) (env args : list string)
  | RemoveAll (path : string)
  | OsRemoveAll (path : string).

Inductive Error :=
  | ErrSingleArchitecture
  | ErrFrom (a : Action)
  | ErrOutputName (buildO : string)
  | PanicIndexOutOfRange.

Record Run := {
  result : option Error;
  trace : list Action;
  buildO_after : string
}.

Section Windows.

(** [filepath.Join], [filepath.Abs], [filepath.Dir], the list separator of
    the platform and [goEnv("GOPATH")]; which of the actions fail, and what
    [areGoModulesUsed] answers. *)
Variable Join : list string -> string.
Variable Abs : string -> string.
Variable Dir : string -> string.
Variable ListSeparator : string.
Variable GOPATH : string.
Variable fails : Action -> bool.
Variable modulesUsed : bool.

Definition optArg (flag value : string) : list string :=
  match value with
  | EmptyString => []
  | _ => [flag +:+ value]
  end.

Definition gobindArgs (fl : Flags) (libName gobind : string) (pkgs : list Package)
  : list string :=
  [gobind; "-lang=go,csharp"; "-outdir=" +:+ tmpdir fl] ++
  (match buildTags fl with
   | [] => []
   | tags => ["-tags=" +:+ JoinWith "," tags]
   end) ++
  optArg "-cspkg=" (bindCSharpPkg fl) ++
  optArg "-csnamespace=" (bindCSharpNamespace fl) ++
  optArg "-cspkgname=" (bindCSharpPackageName fl) ++
  optArg "-libname=" libName ++
  (PkgPath <$> pkgs).

Definition targetEnv (target : targetInfo) : list string :=
  ["GOOS=windows"; "GOARCH=" +:+ arch target; "CGO_ENABLED=1"].

(** From [dllName := libName] to the end. *)
Definition buildAndCopy (fl : Flags) (libName : string) (pkgs : list Package)
    (target : targetInfo) (srcDir buildO : string) : Run :=
  let dllName :=
    match libName with
    | EmptyString => PkgName <$> head pkgs
    | _ => Some libName
    end in
  match dllName with
  | None => {| result := Some PanicIndexOutOfRange; trace := []; buildO_after := buildO |}
  | Some dllName =>
      let buildO := match buildO with
                    | EmptyString => dllName +:+ ".dll"
                    | _ => buildO
                    end in
      if negb (HasSuffix buildO ".dll")
      then {| result := Some (ErrOutputName buildO); trace := []; buildO_after := buildO |}
      else
        let mk := Mkdir (Dir buildO) in
        if fails mk
        then {| result := Some (ErrFrom mk); trace := [mk]; buildO_after := buildO |}
        else
          let env := targetEnv target ++
                     ["GOPATH=" +:+ tmpdir fl +:+ ListSeparator +:+ GOPATH] in
          let build := GoBuildAt srcDir "." env ["-buildmode=c-shared"; "-o=" +:+ buildO] in
          if fails build
          then {| result := Some (ErrFrom build); trace := [mk; build];
                  buildO_after := buildO |}
          else
            let csharpDir := Join [tmpdir fl; "csharp"] in
            let outDir := TrimSuffix buildO ".dll" +:+ "-csharp" in
            let rm := RemoveAll outDir in
            if fails rm
            then {| result := Some (ErrFrom rm); trace := [mk; build; rm];
                    buildO_after := buildO |}
            else if buildN fl
            then {| result := None; trace := [mk; build; rm]; buildO_after := buildO |}
            else
              let cp := DoCopyAll outDir csharpDir in
              {| result := if fails cp then Some (ErrFrom cp) else None;
                 trace := [mk; build; rm; cp]; buildO_after := buildO |}
  end.

Definition goWindowsBind (fl : Flags) (libName gobind : string) (pkgs : list Package)
    (targets : list targetInfo) (buildO : string) : Run :=
  match targets with
  | [target] =>
      let cmd := RunCmd (gobindArgs fl libName gobind pkgs) (targetEnv target) in
      if fails cmd
      then {| result := Some (ErrFrom cmd); trace := [cmd]; buildO_after := buildO |}
      else if fails AreGoModulesUsed
      then {| result := Some (ErrFrom AreGoModulesUsed);
              trace := [cmd; AreGoModulesUsed]; buildO_after := buildO |}
      else
        let srcDir := Join [tmpdir fl; "src"; "gobind"] in
        if modulesUsed then
          let newSrcDir :=
            Abs (Join ["."; "build"; "windows-" +:+ arch target; "lib" +:+ libName]) in
          let cp := DoCopyAll newSrcDir srcDir in
          if negb (buildN fl) && fails cp
          then {| result := Some (ErrFrom cp); trace := [cmd; AreGoModulesUsed; cp];
                  buildO_after := buildO |}
          else
            let r := buildAndCopy fl libName pkgs target newSrcDir buildO in
            {| result := result r;
               trace := [cmd; AreGoModulesUsed] ++
                        (if buildN fl then [] else [cp]) ++
                        trace r ++ [OsRemoveAll newSrcDir];
               buildO_after := buildO_after r |}
        else
          let r := buildAndCopy fl libName pkgs target srcDir buildO in
          {| result := result r;
             trace := [cmd; AreGoModulesUsed] ++ trace r;
             buildO_after := buildO_after r |}
  | _ => {| result := Some ErrSingleArchitecture; trace := []; buildO_after := buildO |}
  end.

(** What [dllName] is, when there is one. *)
Definition dllNameOf (libName : string) (pkgs : list Package) : option string :=
  match libName with
  | EmptyString => PkgName <$> head pkgs
  | _ => Some libName
  end.

Definition moduleSrcDir (libName : string) (target : targetInfo) : string :=
  Abs (Join ["."; "build"; "windows-" +:+ arch target; "lib" +:+ libName]).

Lemma buildAndCopy_no_cleanup fl libName pkgs target srcDir buildO p :
  OsRemoveAll p ∉ trace (buildAndCopy fl libName pkgs target srcDir buildO).
Proof.
  unfold buildAndCopy.
  destruct (match libName with
            | EmptyString => PkgName <$> head pkgs
            | _ => Some libName
            end) as [d|]; [|simpl; apply not_elem_of_nil].
  destruct (negb (HasSuffix _ ".dll")); [simpl; apply not_elem_of_nil|].
  repeat (match goal with
          | |- context [if ?c then _ else _] => destruct c
          end; simpl);
    intros H;
    repeat (apply elem_of_cons in H as [H|H]; [discriminate H|]);
    now apply elem_of_nil in H.
Qed.

(** X19.  With Go modules in use the bindings are built in a copy of the
    generated sources under [build/windows-<arch>/lib<name>].  Once that
    copy is made (or skipped, under [-n]), it is removed again as the last
    thing the function does, whatever happens in between: a wrong output
    name, a failing [mkdir] or build, even the panic on an empty package
    list.  If making the copy fails, the function returns at once and what
    was copied so far stays.  Without Go modules nothing is removed that
    way. *)
Theorem goWindowsBind_cleanup (fl : Flags) (libName gobind : string)
    (pkgs : list Package) (target : targetInfo) (buildO : string) :
  let r := goWindowsBind fl libName gobind pkgs [target] buildO in
  let copy := DoCopyAll (moduleSrcDir libName target) (Join [tmpdir fl; "src"; "gobind"]) in
  fails (RunCmd (gobindArgs fl libName gobind pkgs) (targetEnv target)) = false ->
  fails AreGoModulesUsed = false ->
  (modulesUsed = true -> buildN fl = true \/ fails copy = false ->
   last (trace r) = Some (OsRemoveAll (moduleSrcDir libName target)) /\
   forall after, trace r = after ++ [OsRemoveAll (moduleSrcDir libName target)] ->
     forall p, OsRemoveAll p ∉ after) /\
  (modulesUsed = true -> buildN fl = false -> fails copy = true ->
   result r = Some (ErrFrom copy) /\ forall p, OsRemoveAll p ∉ trace r) /\
  (modulesUsed = false -> forall p, OsRemoveAll p ∉ trace r).
Proof.
  intros r copy Hcmd Hmod. unfold r, goWindowsBind. rewrite Hcmd, Hmod.
  fold (moduleSrcDir libName target). fold copy.
  split; [|split].
  - intros -> Hcopy.
    assert (Hc : negb (buildN fl) && fails copy = false)
      by (destruct Hcopy as [-> | ->]; [reflexivity|apply andb_false_r]).
    rewrite Hc. cbn [trace].
    set (mid := trace (buildAndCopy fl libName pkgs target
                         (moduleSrcDir libName target) buildO)).
    assert (Hmid : forall p, OsRemoveAll p ∉ mid)
      by (intros p; apply buildAndCopy_no_cleanup).
    split.
    + rewrite !app_assoc. apply last_snoc.
    + intros after Hafter p Hin.
      rewrite !app_assoc in Hafter. apply app_inj_tail in Hafter as [<- _].
      rewrite <- !app_assoc in Hin.
      apply elem_of_app in Hin as [Hin|Hin].
      { repeat (apply elem_of_cons in Hin as [Hin|Hin]; [discriminate Hin|]).
        now apply elem_of_nil in Hin. }
      apply elem_of_app in Hin as [Hin|Hin]; [|now apply Hmid in Hin].
      destruct (buildN fl); [now apply elem_of_nil in Hin|].
      apply elem_of_cons in Hin as [Hin|Hin]; [discriminate Hin|].
      now apply elem_of_nil in Hin.
  - intros -> Hn Hcopy. rewrite Hn, Hcopy. simpl. split; [reflexivity|].
    intros p Hin.
    repeat (apply elem_of_cons in Hin as [Hin|Hin]; [discriminate Hin|]).
    now apply elem_of_nil in Hin.
  - intros -> p. cbn [trace]. intros Hin.
    apply elem_of_app in Hin as [Hin|Hin].
    + repeat (apply elem_of_cons in Hin as [Hin|Hin]; [discriminate Hin|]).
      now apply elem_of_nil in Hin.
    + now apply buildAndCopy_no_cleanup in Hin.
Qed.

(** X20.  What is run and what is refused.  Anything but exactly one target is
    refused before anything is run.  An output name that is given and does
    not end in [.dll] is refused after [gobind] has run and Go modules were
    asked for; with modules in use the generated sources have by then been
    copied (unless under [-n]) and the copy is removed again; nothing else
    is done: no directory is made, nothing is built, and the output
    directory is not removed.  With no output name given and
    nothing failing, the library is built as [<dllName>.dll], where
    [dllName] is the library name if given and else the name of the first
    package; [buildO] is left at that name; and the C# sources are copied to
    [<dllName>-csharp] after whatever was there has been removed, except
    under [-n], where nothing is copied. *)
Theorem goWindowsBind_output (fl : Flags) (libName gobind : string)
    (pkgs : list Package) (targets : list targetInfo) (buildO : string) :
  let r := goWindowsBind fl libName gobind pkgs targets buildO in
  (length targets <> 1%nat ->
   result r = Some ErrSingleArchitecture /\ trace r = [] /\ buildO_after r = buildO) /\
  (forall target d, targets = [target] -> dllNameOf libName pkgs = Some d ->
     buildO <> "" -> HasSuffix buildO ".dll" = false ->
     fails (RunCmd (gobindArgs fl libName gobind pkgs) (targetEnv target)) = false ->
     fails AreGoModulesUsed = false ->
     (modulesUsed = true -> buildN fl = true \/
        fails (DoCopyAll (moduleSrcDir libName target)
                         (Join [tmpdir fl; "src"; "gobind"])) = false) ->
     result r = Some (ErrOutputName buildO) /\
     buildO_after r = buildO /\
     trace r =
       [RunCmd (gobindArgs fl libName gobind pkgs) (targetEnv target);
        AreGoModulesUsed] ++
       (if modulesUsed
        then (if buildN fl then []
              else [DoCopyAll (moduleSrcDir libName target)
                              (Join [tmpdir fl; "src"; "gobind"])]) ++
             [OsRemoveAll (moduleSrcDir libName target)]
        else [])) /\
  (forall target d, targets = [target] -> dllNameOf libName pkgs = Some d ->
     buildO = "" -> (forall a, fails a = false) ->
     result r = None /\
     buildO_after r = d +:+ ".dll" /\
     (exists dir env, GoBuildAt dir "." env ["-buildmode=c-shared"; "-o=" +:+ d +:+ ".dll"]
                        ∈ trace r) /\
     RemoveAll (d +:+ "-csharp") ∈ trace r /\
     (DoCopyAll (d +:+ "-csharp") (Join [tmpdir fl; "csharp"]) ∈ trace r
      <-> buildN fl = false)).
Proof.
  intros r. split; [|split].
  - intros Hlen. unfold r, goWindowsBind.
    destruct targets as [|t [|t' rest]]; simpl in Hlen; try lia; repeat split.
  - intros target d -> Hd Hne Hsuf Hcmd Hmod Hcopy. unfold r, goWindowsBind.
    rewrite Hcmd, Hmod.
    assert (Hbc : forall srcDir,
              buildAndCopy fl libName pkgs target srcDir buildO =
              {| result := Some (ErrOutputName buildO); trace := [];
                 buildO_after := buildO |}).
    { intros srcDir. unfold buildAndCopy. unfold dllNameOf in Hd. rewrite Hd.
      destruct buildO as [|c0 b0]; [congruence|]. now rewrite Hsuf. }
    destruct modulesUsed.
    + fold (moduleSrcDir libName target).
      assert (Hc : negb (buildN fl) &&
                   fails (DoCopyAll (moduleSrcDir libName target)
                                    (Join [tmpdir fl; "src"; "gobind"])) = false)
        by (destruct (Hcopy eq_refl) as [-> | ->]; [reflexivity|apply andb_false_r]).
      rewrite Hc, Hbc. cbn [result trace buildO_after app].
      repeat split.
    + rewrite Hbc. cbn [result trace buildO_after app]. repeat split.
  - intros target d -> Hd -> Hok. unfold r, goWindowsBind. rewrite !Hok.
    assert (Hbc : forall srcDir,
              buildAndCopy fl libName pkgs target srcDir "" =
              {| result := None;
                 trace := [Mkdir (Dir (d +:+ ".dll"));
                           GoBuildAt srcDir "."
                             (targetEnv target ++
                              ["GOPATH=" +:+ tmpdir fl +:+ ListSeparator +:+ GOPATH])
                             ["-buildmode=c-shared"; "-o=" +:+ d +:+ ".dll"];
                           RemoveAll (d +:+ "-csharp")] ++
                          (if buildN fl then []
                           else [DoCopyAll (d +:+ "-csharp") (Join [tmpdir fl; "csharp"])]);
                 buildO_after := d +:+ ".dll" |}).
    { intros srcDir. unfold buildAndCopy. unfold dllNameOf in Hd. rewrite Hd.
      rewrite HasSuffix_append, TrimSuffix_append, !Hok. cbn [negb].
      destruct (buildN fl); reflexivity. }
    rewrite andb_false_r.
    destruct modulesUsed; rewrite Hbc; cbn [result trace buildO_after];
      (split; [reflexivity|]); (split; [reflexivity|]);
      destruct (buildN fl); cbn [app];
      (split; [eexists _, _;
               repeat (first [apply list_elem_of_here | apply list_elem_of_further])|]);
      (split; [repeat (first [apply list_elem_of_here | apply list_elem_of_further])|]);
      (split; [intros Hin|intros Hn]);
      try reflexivity; try discriminate;
      try (repeat (first [apply list_elem_of_here | apply list_elem_of_further]));
      repeat (apply elem_of_cons in Hin as [Hin|Hin]; [discriminate Hin|]);
      now apply elem_of_nil in Hin.
Qed.

End Windows.

(** A run on amd64 with Go modules in use, in which nothing fails. *)
Definition demoFlags : Flags :=
  {| tmpdir := "/tmp/work"; buildTags := []; bindCSharpPkg := "";
     bindCSharpNamespace := ""; bindCSharpPackageName := ""; buildN := false |}.
Definition demoTarget : targetInfo := {| platform := "windows"; arch := "amd64" |}.
Definition demoRun : Run :=
  goWindowsBind (JoinWith "/") (fun p => p) (fun _ => ".") ":" "/go"
    (fun _ => false) true demoFlags "demo" "gobind"
    [ {| PkgName := "demo"; PkgPath := "example.com/demo" |} ] [demoTarget] "".

Lemma goWindowsBind_cleanup_witness :
  last (trace demoRun) = Some (OsRemoveAll "./build/windows-amd64/libdemo").
Proof.
  destruct (goWindowsBind_cleanup (JoinWith "/") (fun p => p) (fun _ => ".") ":" "/go"
              (fun _ => false) true demoFlags "demo" "gobind"
              [ {| PkgName := "demo"; PkgPath := "example.com/demo" |} ] demoTarget ""
              eq_refl eq_refl) as (H & _).
  destruct (H eq_refl (or_intror eq_refl)) as [Hlast _]. exact Hlast.
Defined.

Lemma goWindowsBind_output_witness :
  result demoRun = None /\ buildO_after demoRun = "demo.dll" /\
  RemoveAll "demo-csharp" ∈ trace demoRun.
Proof.
  destruct (goWindowsBind_output (JoinWith "/") (fun p => p) (fun _ => ".") ":" "/go"
              (fun _ => false) true demoFlags "demo" "gobind"
              [ {| PkgName := "demo"; PkgPath := "example.com/demo" |} ] [demoTarget] "")
    as (_ & _ & H).
  destruct (H demoTarget "demo" eq_refl eq_refl eq_refl (fun _ => eq_refl))
    as (H1 & H2 & _ & H3 & _).
  repeat split; assumption.
Defined.

(** The same run with the output name [demo.so]: refused, after the sources
    were copied and removed again. *)
Example refused_output_name :
  let r := goWindowsBind (JoinWith "/") (fun p => p) (fun _ => ".") ":" "/go"
             (fun _ => false) true demoFlags "demo" "gobind"
             [ {| PkgName := "demo"; PkgPath := "example.com/demo" |} ] [demoTarget]
             "demo.so" in
  result r = Some (ErrOutputName "demo.so") /\
  trace r =
  [ RunCmd ["gobind"; "-lang=go,csharp"; "-outdir=/tmp/work"; "-libname=demo";
            "example.com/demo"]
           ["GOOS=windows"; "GOARCH=amd64"; "CGO_ENABLED=1"];
    AreGoModulesUsed;
    DoCopyAll "./build/windows-amd64/libdemo" "/tmp/work/src/gobind";
    OsRemoveAll "./build/windows-amd64/libdemo" ].
Proof. split; reflexivity. Qed.

Example demoRun_trace :
  trace demoRun =
  [ RunCmd ["gobind"; "-lang=go,csharp"; "-outdir=/tmp/work"; "-libname=demo";
            "example.com/demo"]
           ["GOOS=windows"; "GOARCH=amd64"; "CGO_ENABLED=1"];
    AreGoModulesUsed;
    DoCopyAll "./build/windows-amd64/libdemo" "/tmp/work/src/gobind";
    Mkdir ".";
    GoBuildAt "./build/windows-amd64/libdemo" "."
      ["GOOS=windows"; "GOARCH=amd64"; "CGO_ENABLED=1"; "GOPATH=/tmp/work:/go"]
      ["-buildmode=c-shared"; "-o=demo.dll"];
    RemoveAll "demo-csharp";
    DoCopyAll "demo-csharp" "/tmp/work/csharp";
    OsRemoveAll "./build/windows-amd64/libdemo" ].
Proof. reflexivity. Qed.

(** *** The static libraries of the Apple archive *)

Section Apple.

(** [strings.TrimSpace] cuts Unicode white space off both ends; the scan is
    described for any such function. *)
Variable TrimSpace : string -> string.

(** One turn of the loop over the lines that [go list] prints (lines 2281
    to 2294): the map [seen] and the slice [libraries]. *)
Definition scanStep (st : gset string * list string) (line : string)
  : gset string * list string :=
  let flag := TrimSpace line in
  match flag with
  | EmptyString => st
  | _ =>
      if HasSuffix flag ".a" && negb (bool_decide (flag ∈ st.1))
      then ({[flag]} ∪ st.1, st.2 ++ [flag])
      else st
  end.

Definition scanLibraries (lines : list string) : list string :=
  (foldl scanStep (∅, []) lines).2.

(** The command line of [mergeStaticLibraries]. *)
Definition mergeStaticLibraries (goArchive : string) (externalLibraries : list string)
    (output : string) : list string :=
  "xcrun" :: ["libtool"; "-static"; "-o"; output; goArchive] ++ externalLibraries.

Lemma HasSuffix_nonempty x : HasSuffix x ".a" = true -> x <> "".
Proof. intros H ->. discriminate H. Qed.

Lemma scanStep_cases seen libs line :
  (HasSuffix (TrimSpace line) ".a" = true /\ (TrimSpace line ∉ seen) /\
   scanStep (seen, libs) line =
     ({[TrimSpace line]} ∪ seen, libs ++ [TrimSpace line])) \/
  ((HasSuffix (TrimSpace line) ".a" = false \/ TrimSpace line ∈ seen) /\
   scanStep (seen, libs) line = (seen, libs)).
Proof.
  unfold scanStep. cbn [fst snd].
  destruct (HasSuffix (TrimSpace line) ".a") eqn:Hs.
  - destruct (decide (TrimSpace line ∈ seen)) as [Hd|Hd].
    + right. split; [now right|].
      rewrite (bool_decide_eq_true_2 _ Hd). cbn [negb andb].
      now destruct (TrimSpace line).
    + left. split; [reflexivity|]. split; [assumption|].
      rewrite (bool_decide_eq_false_2 _ Hd). cbn [negb andb].
      destruct (TrimSpace line); [discriminate Hs|reflexivity].
  - right. split; [now left|]. cbn [andb]. now destruct (TrimSpace line).
Qed.

Lemma scan_invariant lines : forall seen libs,
  (forall x, x ∈ seen <-> x ∈ libs) -> NoDup libs ->
  let r := foldl scanStep (seen, libs) lines in
  (forall x, x ∈ r.1 <-> x ∈ r.2) /\ NoDup r.2 /\
  (forall x, x ∈ r.2 <->
     x ∈ libs \/ (HasSuffix x ".a" = true /\ exists line, line ∈ lines /\ TrimSpace line = x)) /\
  exists added, r.2 = libs ++ added /\ added `sublist_of` (TrimSpace <$> lines).
Proof.
  induction lines as [|line lines IH]; intros seen libs Hseen Hnd; simpl.
  - split; [exact Hseen|]. split; [exact Hnd|]. split.
    + intros x. split; [tauto|]. intros [H|(_ & l & Hl & _)]; [assumption|].
      now apply elem_of_nil in Hl.
    + exists []. split; [now rewrite app_nil_r|constructor].
  - destruct (scanStep_cases seen libs line) as [(Hs & Hd & ->) | (Hno & ->)].
    + assert (Hnew : TrimSpace line ∉ libs) by (intros H; apply Hd; now apply Hseen).
      destruct (IH ({[TrimSpace line]} ∪ seen) (libs ++ [TrimSpace line]))
        as (H1 & H2 & H3 & added & H4 & H5).
      { intros x. rewrite elem_of_union, elem_of_singleton, elem_of_app,
          list_elem_of_singleton, Hseen. tauto. }
      { apply NoDup_app. split; [assumption|]. split; [|apply NoDup_singleton].
        intros x Hx Hx'. apply list_elem_of_singleton in Hx'. now subst x. }
      split; [exact H1|]. split; [exact H2|]. split.
      * intros x. rewrite H3, elem_of_app, list_elem_of_singleton. split.
        -- intros [[H| ->]|(Hsx & l & Hl & Hx)].
           ++ now left.
           ++ right. split; [assumption|]. exists line.
              split; [apply list_elem_of_here|reflexivity].
           ++ right. split; [assumption|]. exists l.
              split; [now apply list_elem_of_further|assumption].
        -- intros [H|(Hsx & l & Hl & Hx)]; [now left; left|].
           apply elem_of_cons in Hl as [->|Hl]; [left; right; now symmetry|].
           right. split; [assumption|]. now exists l.
      * exists (TrimSpace line :: added). split.
        -- rewrite H4, <- app_assoc. reflexivity.
        -- now constructor.
    + assert (Hin : HasSuffix (TrimSpace line) ".a" = true -> TrimSpace line ∈ libs).
      { intros Hs. destruct Hno as [Hno|Hno]; [congruence|now apply Hseen]. }
      destruct (IH seen libs Hseen Hnd) as (H1 & H2 & H3 & added & H4 & H5).
      split; [exact H1|]. split; [exact H2|]. split.
      * intros x. rewrite H3. split.
        -- intros [H|(Hs & l & Hl & Hx)]; [now left|right].
           split; [assumption|]. exists l.
           split; [now apply list_elem_of_further|assumption].
        -- intros [H|(Hs & l & Hl & Hx)]; [now left|].
           apply elem_of_cons in Hl as [->|Hl].
           ++ left. subst x. now apply Hin.
           ++ right. split; [assumption|]. now exists l.
      * exists added. split; [assumption|]. now constructor.
Qed.

Lemma scan_seen lines :
  forall x, x ∈ (foldl scanStep (∅, []) lines).1 <-> x ∈ scanLibraries lines.
Proof.
  destruct (scan_invariant lines ∅ []) as (H & _).
  - intros x. rewrite elem_of_empty, elem_of_nil. tauto.
  - constructor.
  - exact H.
Qed.

Lemma scan_member lines x :
  x ∈ scanLibraries lines <->
  HasSuffix x ".a" = true /\ exists line, line ∈ lines /\ TrimSpace line = x.
Proof.
  destruct (scan_invariant lines ∅ []) as (_ & _ & Hin & _).
  - intros y. rewrite elem_of_empty, elem_of_nil. tauto.
  - constructor.
  - unfold scanLibraries. rewrite Hin, elem_of_nil. tauto.
Qed.

(** One more line adds its flag at the end, if the flag ends in [.a] and is
    not yet listed, and nothing else. *)
Lemma scan_snoc lines line :
  scanLibraries (lines ++ [line]) =
  scanLibraries lines ++
  (if HasSuffix (TrimSpace line) ".a" &&
      negb (bool_decide (TrimSpace line ∈ scanLibraries lines))
   then [TrimSpace line] else []).
Proof.
  pose proof (scan_seen lines) as Hseen.
  unfold scanLibraries in *. rewrite foldl_app. cbn [foldl].
  destruct (foldl scanStep (∅, []) lines) as [seen libs]. cbn [fst snd] in *.
  destruct (scanStep_cases seen libs line) as [(Hs & Hd & ->) | (Hno & ->)];
    cbn [snd].
  - rewrite Hs. rewrite bool_decide_eq_false_2; [reflexivity|].
    intros H. apply Hd. now apply Hseen.
  - destruct Hno as [Hno|Hno].
    + rewrite Hno. cbn [andb]. now rewrite app_nil_r.
    + rewrite bool_decide_eq_true_2 by (now apply Hseen).
      rewrite andb_false_r. now rewrite app_nil_r.
Qed.

Lemma scan_order lines : forall i j x y,
  scanLibraries lines !! i = Some x -> scanLibraries lines !! j = Some y ->
  (i < j)%nat ->
  exists k, (TrimSpace <$> lines) !! k = Some x /\
    forall m, (TrimSpace <$> lines) !! m = Some y -> (k < m)%nat.
Proof.
  induction lines as [|line lines IH] using rev_ind; intros i j x y Hi Hj Hij.
  - discriminate Hi.
  - rewrite scan_snoc in Hi, Hj. rewrite fmap_app. cbn [fmap list_fmap].
    set (flags := TrimSpace <$> lines) in *.
    set (libs := scanLibraries lines) in *.
    assert (Hlater : forall k m, flags !! k = Some x ->
              (forall m', flags !! m' = Some y -> (k < m')%nat) ->
              (flags ++ [TrimSpace line]) !! m = Some y -> (k < m)%nat).
    { intros k m Hk Hall Hm. apply lookup_lt_Some in Hk as Hlt.
      destruct (decide (m < length flags)%nat) as [Hm'|Hm'].
      - rewrite lookup_app_l in Hm by assumption. auto.
      - lia. }
    destruct (decide (j < length libs)%nat) as [Hjl|Hjl].
    + rewrite lookup_app_l in Hi by lia. rewrite lookup_app_l in Hj by assumption.
      destruct (IH i j x y Hi Hj Hij) as (k & Hk & Hall).
      exists k. split.
      * rewrite lookup_app_l; [assumption|]. now apply lookup_lt_Some in Hk.
      * intros m. now apply Hlater.
    + destruct (HasSuffix (TrimSpace line) ".a" &&
                negb (bool_decide (TrimSpace line ∈ libs))) eqn:Hnew.
      2: { rewrite app_nil_r in Hj. apply lookup_lt_Some in Hj. lia. }
      apply andb_prop in Hnew as [Hs Hfresh]. apply negb_true_iff in Hfresh.
      apply bool_decide_eq_false in Hfresh.
      assert (Hjeq : j = length libs).
      { apply lookup_lt_Some in Hj. rewrite length_app in Hj. simpl in Hj. lia. }
      subst j. rewrite lookup_app_l in Hi by assumption.
      rewrite lookup_app_r, Nat.sub_diag in Hj by lia. injection Hj as <-.
      assert (Hx : x ∈ libs) by (now apply list_elem_of_lookup_2 in Hi).
      apply scan_member in Hx as (_ & l & Hl & Hlx).
      assert (Hxf : x ∈ flags).
      { apply list_elem_of_fmap. exists l. split; [now symmetry|assumption]. }
      apply list_elem_of_lookup_1 in Hxf as [k Hk]. exists k. split.
      * rewrite lookup_app_l; [assumption|]. now apply lookup_lt_Some in Hk.
      * intros m Hm. apply lookup_lt_Some in Hk as Hlt.
        destruct (decide (m < length flags)%nat) as [Hm'|Hm']; [|lia].
        rewrite lookup_app_l in Hm by assumption. exfalso. apply Hfresh.
        apply scan_member. split; [assumption|].
        apply list_elem_of_lookup_2 in Hm.
        apply list_elem_of_fmap in Hm as (l' & Hl' & Hin). eauto.
Qed.

(** X21.  The external static libraries listed for the Apple archive are the
    flags that, white space cut off, end in [.a], each once, in the order in
    which [go list] first prints them: a line adds its flag at the end of
    the list when the flag ends in [.a] and is not yet listed, and of two
    libraries in the list the earlier one is printed before the later one
    is printed for the first time; everything else that is printed is passed
    over.  [libtool] gets the Go archive first and then each of them
    once. *)
Theorem scanLibraries_spec (lines : list string) (goArchive output : string) :
  NoDup (scanLibraries lines) /\
  (forall x, x ∈ scanLibraries lines <->
     HasSuffix x ".a" = true /\ exists line, line ∈ lines /\ TrimSpace line = x) /\
  scanLibraries lines `sublist_of` (TrimSpace <$> lines) /\
  scanLibraries [] = [] /\
  (forall line,
     scanLibraries (lines ++ [line]) =
     scanLibraries lines ++
     (if HasSuffix (TrimSpace line) ".a" &&
         negb (bool_decide (TrimSpace line ∈ scanLibraries lines))
      then [TrimSpace line] else [])) /\
  (forall i j x y,
     scanLibraries lines !! i = Some x -> scanLibraries lines !! j = Some y ->
     (i < j)%nat ->
     exists k, (TrimSpace <$> lines) !! k = Some x /\
       forall m, (TrimSpace <$> lines) !! m = Some y -> (k < m)%nat) /\
  (forall x, x ∈ scanLibraries lines -> x <> "") /\
  mergeStaticLibraries goArchive (scanLibraries lines) output =
    ["xcrun"; "libtool"; "-static"; "-o"; output; goArchive] ++ scanLibraries lines.
Proof.
  destruct (scan_invariant lines ∅ []) as (_ & Hnd & Hin & added & Hadd & Hsub).
  { intros x. rewrite elem_of_empty, elem_of_nil. tauto. }
  { constructor. }
  split; [exact Hnd|]. split; [apply scan_member|].
  split; [|split; [reflexivity|split; [apply scan_snoc|split; [apply scan_order|split]]]].
  - unfold scanLibraries. now rewrite Hadd.
  - intros x Hx. apply scan_member in Hx as [Hs _]. now apply HasSuffix_nonempty.
  - reflexivity.
Qed.

End Apple.

Example scanLibraries_example :
  scanLibraries (fun s => s) ["-lz"; "/opt/libfoo.a"; "-L/opt"; "/opt/libbar.a"; "/opt/libfoo.a"]
  = ["/opt/libfoo.a"; "/opt/libbar.a"].
Proof. vm_compute. reflexivity. Qed.

End Driver.
